(** * browser-fps-mvp: the lobby server, its frame codec and hit resolution

    A shallow embedding of the WebSocket server of the repository
    (the file with [parseBuffer], [handleMessage], [broadcast],
    [removeClient] and [sendWS]).

    - A [Buffer] is a list of bytes, each byte a [Z] in [0, 256).
    - A JavaScript number is an IEEE 754 binary64 value: Rocq's primitive
      [float], whose operations round to nearest-even as JavaScript's do.
      [a ** 2] is read as [a * a]. The counters [kills], [deaths] and
      [nextId] only ever grow by one from 0 or 1; they are integers in
      [Z], which is what the numbers hold below [2 ^ 53].
    - The [clients] map is an association list in insertion order, which
      is the iteration order of a JavaScript [Map].
    - Every [sendWS] on a socket is recorded, in program order, in a log
      of pairs (connection id, message); the message is the object given
      to [JSON.stringify], not its text.
    - Messages from clients are read at the schema the client code sends:
      a name is a string, a state is an object whose fields are numbers
      or absent, or is absent itself; [origin] and [direction] are
      objects. A payload [JSON.parse] rejects, or of an unknown type, has
      no effect ([try]/[catch] and the [default] case).
    - The [client] object a handler receives is the entry of [clients]
      under the connection's id: handlers run for registered connections,
      since [removeClient] destroys the socket.
    - [Math.random] and [JSON.parse] are parameters of the handlers. *)

From Stdlib Require Import String.
From Stdlib Require Import ZArith List Lia Bool.
From Stdlib Require Import Floats.
Import ListNotations.

Set Warnings "-inexact-float".

Local Open Scope Z_scope.

(** ** Frame codec *)

Module Codec.

(** A byte of a [Buffer]. *)
Definition is_byte (b : Z) : Prop := 0 <= b < 256.

Definition bytes (l : list Z) : Prop := Forall is_byte l.

(** [buf[i]]; every use below is guarded by a length test. *)
Definition at_ (buf : list Z) (i : nat) : Z := nth i buf 0.

(** [buf.slice(a, a + n)] and [buf.slice(a)]. *)
Definition slice (buf : list Z) (a n : nat) : list Z := firstn n (skipn a buf).
Definition slice_from (buf : list Z) (a : nat) : list Z := skipn a buf.

(** [buf.readUInt16BE(o)] and [buf.readUInt32BE(o)]. *)
Definition readUInt16BE (buf : list Z) (o : nat) : Z :=
  at_ buf o * 2 ^ 8 + at_ buf (o + 1).

Definition readUInt32BE (buf : list Z) (o : nat) : Z :=
  at_ buf o * 2 ^ 24 + at_ buf (o + 1) * 2 ^ 16
  + at_ buf (o + 2) * 2 ^ 8 + at_ buf (o + 3).

(** Big-endian bytes of [v], [n] of them: what [writeUInt16BE] ([n = 2])
    and [writeBigUInt64BE] ([n = 8]) store. *)
Fixpoint be_bytes (n : nat) (v : Z) : list Z :=
  match n with
  | O => []
  | S k => Z.land (Z.shiftr v (8 * Z.of_nat k)) 255 :: be_bytes k v
  end.

(** The unmasking loop [payload[i] ^= mask[i % 4]], from index [i] on. *)
Fixpoint unmask_from (i : nat) (mask payload : list Z) : list Z :=
  match payload with
  | [] => []
  | b :: rest => Z.lxor b (at_ mask (i mod 4)) :: unmask_from (S i) mask rest
  end.

Definition unmask (mask payload : list Z) : list Z := unmask_from 0 mask payload.

(** A decoded frame: the opcode and the (unmasked) payload bytes handed
    to [handleMessage]. *)
Record frame := { opcode : Z; payload : list Z }.

(** One iteration of the [while (true)] loop of [parseBuffer]:
    [None] is a [break], [Some (f, rest)] is a frame passed to
    [handleMessage] and the buffer [buf.slice(offset + length)].

    The 64-bit length is [high * 2 ** 32 + low]; it is computed here in
    [Z]. In JavaScript the sum is rounded once it reaches [2 ^ 53], but
    then it exceeds every buffer length either way and the loop breaks. *)
Definition parse_frame (buf : list Z) : option (frame * list Z) :=
  if (length buf <? 2)%nat then None else
  let byte1 := at_ buf 0 in
  let byte2 := at_ buf 1 in
  let opcode := Z.land byte1 15 in
  let masked := negb (Z.land byte2 128 =? 0) in
  let len7 := Z.land byte2 127 in
  let header :=
    if len7 =? 126 then
      if (length buf <? 4)%nat then None
      else Some (readUInt16BE buf 2, 4%nat)
    else if len7 =? 127 then
      if (length buf <? 10)%nat then None
      else Some (readUInt32BE buf 2 * 2 ^ 32 + readUInt32BE buf 6, 10%nat)
    else Some (len7, 2%nat) in
  match header with
  | None => None
  | Some (len, offset) =>
    let keyed :=
      if masked then
        if (length buf <? offset + 4)%nat then None
        else Some (Some (slice buf offset 4), (offset + 4)%nat)
      else Some (None, offset) in
    match keyed with
    | None => None
    | Some (mask, offset) =>
      if Z.of_nat (length buf) <? Z.of_nat offset + len then None else
      let raw := slice buf offset (Z.to_nat len) in
      let data := match mask with Some k => unmask k raw | None => raw end in
      Some ({| opcode := opcode; payload := data |},
            slice_from buf (offset + Z.to_nat len))
    end
  end.

(** The loop of [parseBuffer]. [fuel] bounds the number of iterations;
    [None] means the bound was too small. *)
Fixpoint parse_loop (fuel : nat) (buf : list Z) : option (list frame * list Z) :=
  match fuel with
  | O => None
  | S k =>
    match parse_frame buf with
    | None => Some ([], buf)
    | Some (f, rest) =>
      match parse_loop k rest with
      | None => None
      | Some (fs, final) => Some (f :: fs, final)
      end
    end
  end.

(** [parseBuffer]: the frames handed to [handleMessage], in order, and
    the value stored back in [client.buffer]. Every iteration drops at
    least two bytes, so [S (length buf)] iterations are enough. *)
Definition parseBuffer (buf : list Z) : option (list frame * list Z) :=
  parse_loop (S (length buf)) buf.

(** [sendWS]: the bytes written for a message whose UTF-8 encoding is
    [data] ([Buffer.concat([header, dataBuf])]). *)
Definition sendWS (data : list Z) : list Z :=
  let payloadLength := Z.of_nat (length data) in
  let header :=
    if payloadLength <? 126 then [129; payloadLength]
    else if payloadLength <? 65536 then 129 :: 126 :: be_bytes 2 payloadLength
    else 129 :: 127 :: be_bytes 8 payloadLength in
  header ++ data.

(** Modelled from the spec: the size of the header of an unmasked frame
    (two bytes, plus the 16-bit or 64-bit extended length), as the
    three-tier length scheme gives it. *)
Definition header_size (frame : list Z) : nat :=
  let len7 := Z.land (at_ frame 1) 127 in
  if len7 =? 126 then 4%nat else if len7 =? 127 then 10%nat else 2%nat.

(** Modelled from the spec: the payload of a masked frame, byte [i]
    being the plain byte XOR-ed with [key[i mod 4]]. *)
Definition xor_key (key data : list Z) : list Z :=
  map (fun ib => Z.lxor (snd ib) (nth (fst ib mod 4) key 0))
      (combine (seq 0 (length data)) data).

(** Modelled from the spec: the masking a client applies to a frame
    before it reaches the server (done by the browser, not in this
    repository). The mask bit of the second byte is set, the 4-byte key
    follows the length field, and payload byte [i] is XOR-ed with
    [key[i mod 4]]. *)
Definition mask_frame (key frame : list Z) : list Z :=
  let h := header_size frame in
  match firstn h frame with
  | b1 :: b2 :: ext => b1 :: Z.lor b2 128 :: ext ++ key ++ xor_key key (skipn h frame)
  | _ => frame
  end.

(** The number a big-endian byte string denotes. *)
Fixpoint be_value (l : list Z) : Z :=
  match l with
  | [] => 0
  | b :: rest => b * 2 ^ (8 * Z.of_nat (length rest)) + be_value rest
  end.

(** The wire format of one complete frame, stated on its own: two
    header bytes, the extended length the 7-bit field asks for, the key
    when the mask bit is set, then exactly [len] payload bytes. *)
Definition ext_length (len7 : Z) (ext : list Z) (len : Z) : Prop :=
  if len7 =? 126 then length ext = 2%nat /\ len = readUInt16BE ext 0
  else if len7 =? 127 then
    length ext = 8%nat /\ len = readUInt32BE ext 0 * 2 ^ 32 + readUInt32BE ext 4
  else ext = [] /\ len = len7.

Definition mask_key (bit : Z) (key : list Z) : Prop :=
  if bit =? 0 then key = [] else length key = 4%nat.

Inductive wire_frame : list Z -> frame -> Prop :=
| WireFrame b1 b2 ext key body len :
    ext_length (Z.land b2 127) ext len ->
    mask_key (Z.land b2 128) key ->
    Z.of_nat (length body) = len ->
    wire_frame (b1 :: b2 :: ext ++ key ++ body)
      {| opcode := Z.land b1 15;
         payload := if Z.land b2 128 =? 0 then body else unmask key body |}.

(** The frame that [sendWS] writes for the payload [data]: a text frame. *)
Definition text (data : list Z) : frame := {| opcode := 1; payload := data |}.

End Codec.

(** ** Binary64 numbers

    Vocabulary for reasoning about the primitive floats through their
    specification ([Prim2SF] and the [SF...] operations). *)

Module Binary64.

(** [x] is NaN. *)
Definition NaN (x : float) : Prop := Prim2SF x = S754_nan.

(** [b] is [a] shifted right by [n] bits, the rounding bits recording
    whether anything non-zero was shifted out. *)
Definition shifted (n : Z) (a b : shr_record) : Prop :=
  0 <= shr_m a ->
  shr_m b = shr_m a / 2 ^ n
  /\ (shr_r b || shr_s b = shr_r a || shr_s a || negb (shr_m a mod 2 ^ n =? 0))%bool.

(** A value of magnitude at most 1/2. *)
Definition half_bounded (x : spec_float) : Prop :=
  match x with
  | S754_zero _ => True
  | S754_finite _ m e => e <= -1 /\ Z.pos m <= 2 ^ (-1 - e)
  | _ => False
  end.

(** A value of magnitude at most 10. *)
Definition ten_bounded (x : spec_float) : Prop :=
  match x with
  | S754_zero _ => True
  | S754_finite _ m e =>
    exists ex, ex <= e /\ ex <= -49 /\ Z.pos m * 2 ^ (e - ex) <= 5 * 2 ^ (1 - ex)
  | _ => False
  end.

(** The numbers 10 and -10. *)
Definition ten : spec_float := S754_finite false 5629499534213120 (-49).
Definition minus_ten : spec_float := S754_finite true 5629499534213120 (-49).

End Binary64.

(** ** The lobby: connection registry, dispatcher and hit resolution *)

Module Lobby.

(** A property read from a parsed JSON object: a number, or [undefined]
    when the key is absent. *)
Definition num := option float.

(** [ToNumber]: [undefined] becomes [NaN] under arithmetic. *)
Definition ToNumber (v : num) : float :=
  match v with Some f => f | None => nan end.

(** [origin] and [direction] of a [shoot] message. *)
Record vec3 := { vx : num; vy : num; vz : num }.

(** The [state] object of a player: position, orientation, health. *)
Record pstate := {
  st_x : num; st_y : num; st_z : num;
  st_yaw : num; st_pitch : num; st_health : num }.

(** The [{}] a connection starts with. *)
Definition empty_state : pstate :=
  {| st_x := None; st_y := None; st_z := None;
     st_yaw := None; st_pitch := None; st_health := None |}.

(** A [clients] entry. The socket is identified by the connection id;
    [state] is [None] when the property holds [undefined]. *)
Record client := {
  name : string;
  state : option pstate;
  kills : Z;
  deaths : Z;
  buffer : list Z }.

(** Client-to-server messages, as [JSON.parse] and the [switch] on
    [data.type] read them. [Other] is every payload the handler leaves
    without effect: a JSON parse failure or an unrecognised type. *)
Inductive message :=
| Init (nm : string) (st : option pstate)
| Update (st : option pstate)
| Shoot (origin direction : vec3)
| Other.

(** Server-to-client messages, named by their [type]. [playerJoined]
    carries [kills] and [deaths] only in the catch-up form. *)
Inductive event :=
| welcome (id : Z)
| playerJoined (id : Z) (nm : string) (st : option pstate) (score : option (Z * Z))
| playerLeft (id : Z)
| update (id : Z) (st : option pstate)
| playerKilled (killer victim : Z).

(** The module-level state: the [clients] map, [nextId], the number of
    calls made to [Math.random], and the log of socket writes
    (connection id, message), oldest first. *)
Record server := {
  clients : list (Z * client);
  nextId : Z;
  draws : nat;
  wire : list (Z * event) }.

Definition initial : server :=
  {| clients := []; nextId := 1; draws := 0; wire := [] |}.

(** *** The [Map] operations used on [clients] *)

Fixpoint get (cs : list (Z * client)) (id : Z) : option client :=
  match cs with
  | [] => None
  | (k, c) :: rest => if k =? id then Some c else get rest id
  end.

(** [clients.set(id, c)]: replaces in place, or appends a new key. *)
Fixpoint set (cs : list (Z * client)) (id : Z) (c : client) : list (Z * client) :=
  match cs with
  | [] => [(id, c)]
  | (k, c0) :: rest => if k =? id then (k, c) :: rest else (k, c0) :: set rest id c
  end.

Definition delete (cs : list (Z * client)) (id : Z) : list (Z * client) :=
  filter (fun kc => negb (fst kc =? id)) cs.

(** A mutation of the object stored under [id]. *)
Fixpoint alter (f : client -> client) (cs : list (Z * client)) (id : Z)
  : list (Z * client) :=
  match cs with
  | [] => []
  | (k, c) :: rest => if k =? id then (k, f c) :: rest else (k, c) :: alter f rest id
  end.

Definition ids (cs : list (Z * client)) : list Z := map fst cs.

(** *** Field updates *)

Definition with_profile (nm : string) (st : option pstate) (c : client) : client :=
  {| name := nm; state := st; kills := kills c; deaths := deaths c; buffer := buffer c |}.

Definition with_state (st : option pstate) (c : client) : client :=
  {| name := name c; state := st; kills := kills c; deaths := deaths c; buffer := buffer c |}.

Definition with_buffer (b : list Z) (c : client) : client :=
  {| name := name c; state := state c; kills := kills c; deaths := deaths c; buffer := b |}.

Definition incr_kills (c : client) : client :=
  {| name := name c; state := state c; kills := kills c + 1; deaths := deaths c; buffer := buffer c |}.

Definition incr_deaths (c : client) : client :=
  {| name := name c; state := state c; kills := kills c; deaths := deaths c + 1; buffer := buffer c |}.

Definition set_health (h : float) (ps : pstate) : pstate :=
  {| st_x := st_x ps; st_y := st_y ps; st_z := st_z ps;
     st_yaw := st_yaw ps; st_pitch := st_pitch ps; st_health := Some h |}.

Definition set_position (px py pz : float) (ps : pstate) : pstate :=
  {| st_x := Some px; st_y := Some py; st_z := Some pz;
     st_yaw := st_yaw ps; st_pitch := st_pitch ps; st_health := st_health ps |}.

Definition with_clients (cs : list (Z * client)) (s : server) : server :=
  {| clients := cs; nextId := nextId s; draws := draws s; wire := wire s |}.

(** *** Sending *)

(** [sendWS(socket, data)] on the socket of connection [id]. *)
Definition send (id : Z) (data : event) (s : server) : server :=
  {| clients := clients s; nextId := nextId s; draws := draws s;
     wire := wire s ++ [(id, data)] |}.

(** [broadcast(data)]: one write per entry of [clients], in map order. *)
Definition broadcast (data : event) (s : server) : server :=
  fold_left (fun acc kc => send (fst kc) data acc) (clients s) s.

(** [broadcastExcept(exceptId, data)]. *)
Definition broadcastExcept (exceptId : Z) (data : event) (s : server) : server :=
  fold_left (fun acc kc => if fst kc =? exceptId then acc else send (fst kc) data acc)
            (clients s) s.

(** *** Hit test *)

Definition maxDist : float := 50%float.

(** [a ** 2], taken as the correctly rounded square. *)
Definition sq (a : float) : float := (a * a)%float.

(** [proj] of the loop body of the [shoot] case. *)
Definition proj_of (origin direction : vec3) (ps : pstate) : float :=
  let dx := (ToNumber (st_x ps) - ToNumber (vx origin))%float in
  let dy := (ToNumber (st_y ps) - ToNumber (vy origin))%float in
  let dz := (ToNumber (st_z ps) - ToNumber (vz origin))%float in
  (dx * ToNumber (vx direction) + dy * ToNumber (vy direction)
   + dz * ToNumber (vz direction))%float.

(** [distSq]: squared distance from the player to the closest ray point. *)
Definition distSq_of (origin direction : vec3) (ps : pstate) : float :=
  let proj := proj_of origin direction ps in
  let closestX := (ToNumber (vx origin) + proj * ToNumber (vx direction))%float in
  let closestY := (ToNumber (vy origin) + proj * ToNumber (vy direction))%float in
  let closestZ := (ToNumber (vz origin) + proj * ToNumber (vz direction))%float in
  (sq (ToNumber (st_x ps) - closestX) + sq (ToNumber (st_y ps) - closestY)
   + sq (ToNumber (st_z ps) - closestZ))%float.

(** The two tests of the loop body: [false] is a [continue], [true]
    reaches [hitId = id; break]. *)
Definition hit (origin direction : vec3) (ps : pstate) : bool :=
  let proj := proj_of origin direction ps in
  if ((proj <? 0) || (maxDist <? proj))%float then false
  else (distSq_of origin direction ps <? 0.6 * 0.6)%float.

(** The [for (const [id, other] of clients)] loop of the [shoot] case:
    the value of [hitId] after it ([None] is [null]). *)
Fixpoint find_hit (cs : list (Z * client)) (playerId : Z) (origin direction : vec3)
  : option Z :=
  match cs with
  | [] => None
  | (id, other) :: rest =>
    if id =? playerId then find_hit rest playerId origin direction
    else match state other with
         | None => find_hit rest playerId origin direction
         | Some ps =>
           if hit origin direction ps then Some id
           else find_hit rest playerId origin direction
         end
  end.

(** [!other.name] on a string. *)
Definition falsy (nm : string) : bool :=
  match nm with EmptyString => true | String _ _ => false end.

Section Handlers.

(** [Math.random()]: the value of its [n]-th call. *)
Variable random : nat -> float.

(** [JSON.parse(payload.toString())], read at the message schemas. *)
Variable decode : list Z -> message.

Definition next_random (s : server) : float * server :=
  (random (draws s),
   {| clients := clients s; nextId := nextId s; draws := S (draws s); wire := wire s |}).

(** [(Math.random() - 0.5) * 20]. *)
Definition spawn_coord (r : float) : float := ((r - 0.5) * 20)%float.

(** The snapshot loop of the [init] case. *)
Definition catch_up (playerId : Z) (s : server) : server :=
  fold_left
    (fun acc kc =>
       let other := snd kc in
       if (fst kc =? playerId) || falsy (name other) then acc
       else send playerId
              (playerJoined (fst kc) (name other) (state other)
                            (Some (kills other, deaths other))) acc)
    (clients s) s.

Definition init (playerId : Z) (nm : string) (st : option pstate) (s : server) : server :=
  let s1 := with_clients (alter (with_profile nm st) (clients s) playerId) s in
  let s2 := broadcast (playerJoined playerId nm st None) s1 in
  catch_up playerId s2.

Definition do_update (playerId : Z) (st : option pstate) (s : server) : server :=
  let s1 := with_clients (alter (with_state st) (clients s) playerId) s in
  broadcastExcept playerId (update playerId st) s1.

(** The [if (victim.state.health <= 0)] branch. *)
Definition kill (playerId hitId : Z) (ps : pstate) (s : server) : server :=
  let s1 := with_clients (alter incr_kills (clients s) playerId) s in
  let s2 := with_clients (alter incr_deaths (clients s1) hitId) s1 in
  let ps1 := set_health 100%float ps in
  let (r1, s3) := next_random s2 in
  let (r2, s4) := next_random s3 in
  let ps2 := set_position (spawn_coord r1) 1.6%float (spawn_coord r2) ps1 in
  let s5 := with_clients (alter (with_state (Some ps2)) (clients s4) hitId) s4 in
  let s6 := broadcast (playerKilled playerId hitId) s5 in
  broadcast (update hitId (Some ps2)) s6.

Definition shoot (playerId : Z) (origin direction : vec3) (s : server) : server :=
  match find_hit (clients s) playerId origin direction with
  | None => s
  | Some hitId =>
    if hitId =? 0 then s else
    match get (clients s) hitId with
    | None => s
    | Some victim =>
      match state victim with
      | None => s
      | Some ps =>
        let h := (ToNumber (st_health ps) - 25)%float in
        let ps1 := set_health h ps in
        let s1 := with_clients (alter (with_state (Some ps1)) (clients s) hitId) s in
        if (h <=? 0)%float then kill playerId hitId ps1 s1 else s1
      end
    end
  end.

(** [handleMessage(client, playerId, opcode, message)], with [message]
    already decoded. *)
Definition handleMessage (playerId : Z) (opcode : Z) (data : message) (s : server)
  : server :=
  if negb (opcode =? 1) then s else
  match data with
  | Init nm st => init playerId nm st s
  | Update st => do_update playerId st s
  | Shoot origin direction => shoot playerId origin direction s
  | Other => s
  end.

(** [removeClient(id)]. *)
Definition removeClient (id : Z) (s : server) : server :=
  match get (clients s) id with
  | None => s
  | Some _ => broadcast (playerLeft id) (with_clients (delete (clients s) id) s)
  end.

(** The [upgrade] handler: [has_key] says whether the request carries
    [sec-websocket-key]. The handshake reply is not a frame and is not
    logged. *)
Definition upgrade (has_key : bool) (s : server) : server :=
  if negb has_key then s else
  let playerId := nextId s in
  let c := {| name := EmptyString; state := Some empty_state;
              kills := 0; deaths := 0; buffer := [] |} in
  send playerId (welcome playerId)
    {| clients := set (clients s) playerId c; nextId := nextId s + 1;
       draws := draws s; wire := wire s |}.

(** The [data] handler of a socket: append the chunk, run [parseBuffer],
    pass each frame to [handleMessage], store the rest. *)
Definition on_data (playerId : Z) (chunk : list Z) (s : server) : server :=
  match get (clients s) playerId with
  | None => s
  | Some c =>
    let buf := buffer c ++ chunk in
    let s0 := with_clients (alter (with_buffer buf) (clients s) playerId) s in
    match Codec.parseBuffer buf with
    | None => s0
    | Some (frames, rest) =>
      let s1 :=
        fold_left
          (fun acc f => handleMessage playerId (Codec.opcode f)
                          (decode (Codec.payload f)) acc)
          frames s0 in
      with_clients (alter (with_buffer rest) (clients s1) playerId) s1
    end
  end.

(** What can happen to the server. *)
Inductive input :=
| Upgrade (has_key : bool)
| Data (playerId : Z) (chunk : list Z)
| Close (playerId : Z).

Definition step (s : server) (i : input) : server :=
  match i with
  | Upgrade k => upgrade k s
  | Data id chunk => on_data id chunk s
  | Close id => removeClient id s
  end.

Definition run (s : server) (inputs : list input) : server := fold_left step inputs s.

End Handlers.

(** *** Vocabulary of the properties *)

(** The messages written to connection [id], oldest first. *)
Definition received (id : Z) (w : list (Z * event)) : list event :=
  map snd (filter (fun p => fst p =? id) w).

(** What the server wrote between [s] and a later state [s']. *)
Definition emitted (s s' : server) : list (Z * event) :=
  skipn (length (wire s)) (wire s').

(** The catch-up form of [playerJoined]. *)
Definition is_catch_up (e : event) : bool :=
  match e with playerJoined _ _ _ (Some _) => true | _ => false end.

Definition is_playerKilled (e : event) : bool :=
  match e with playerKilled _ _ => true | _ => false end.

(** The entries the snapshot loop of [init] does not skip. *)
Definition in_snapshot (playerId : Z) (kc : Z * client) : bool :=
  negb ((fst kc =? playerId) || falsy (name (snd kc))).

Definition catch_up_message (kc : Z * client) : event :=
  playerJoined (fst kc) (name (snd kc)) (state (snd kc))
               (Some (kills (snd kc), deaths (snd kc))).

(** The number [k] as a JavaScript number. *)
Definition of_Z (k : Z) : float := of_uint63 (Uint63.of_Z k).

(** An integer in the range 0-100. *)
Definition health_ok (h : float) : Prop :=
  exists k, 0 <= k <= 100 /\ h = of_Z k.

(** A stored [state] is acceptable when it is [undefined], the initial
    [{}], or carries a health that is an integer in 0-100. *)
Definition state_ok (st : option pstate) : Prop :=
  match st with
  | None => True
  | Some ps => ps = empty_state \/ exists h, st_health ps = Some h /\ health_ok h
  end.

Definition health_invariant (s : server) : Prop :=
  forall id c, get (clients s) id = Some c -> state_ok (state c).

Definition message_ok (m : message) : Prop :=
  match m with
  | Init _ st => state_ok st
  | Update st => state_ok st
  | _ => True
  end.

(** The registry of a running server: distinct identities, all of them
    positive and below [nextId]. *)
Definition registry_ok (s : server) : Prop :=
  NoDup (ids (clients s)) /\ 1 <= nextId s
  /\ Forall (fun id => 1 <= id < nextId s) (ids (clients s)).

(** The state a victim respawns with, when [Math.random] has been called
    [n] times before. *)
Definition respawned (random : nat -> float) (n : nat) (ps : pstate) : pstate :=
  set_position (spawn_coord (random n)) 1.6%float (spawn_coord (random (S n)))
               (set_health 100%float ps).

(** The hit test in the words of the algorithm: vectors of numbers,
    [proj = dot(P.pos - O, D)], [C = O + proj * D], and the squared
    distance from [P.pos] to [C]. *)
Definition vec : Type := float * float * float.

Definition vec_of (v : vec3) : vec :=
  (ToNumber (vx v), ToNumber (vy v), ToNumber (vz v)).

Definition pos_of (ps : pstate) : vec :=
  (ToNumber (st_x ps), ToNumber (st_y ps), ToNumber (st_z ps)).

Definition vsub (a b : vec) : vec :=
  let '(ax, ay, az) := a in let '(bx, b_y, bz) := b in
  (ax - bx, ay - b_y, az - bz)%float.

Definition vadd (a b : vec) : vec :=
  let '(ax, ay, az) := a in let '(bx, b_y, bz) := b in
  (ax + bx, ay + b_y, az + bz)%float.

Definition vscale (k : float) (a : vec) : vec :=
  let '(ax, ay, az) := a in (k * ax, k * ay, k * az)%float.

Definition dot (a b : vec) : float :=
  let '(ax, ay, az) := a in let '(bx, b_y, bz) := b in
  (ax * bx + ay * b_y + az * bz)%float.

Definition dist_sq (a b : vec) : float := dot (vsub a b) (vsub a b).

(** *** Vocabulary of the log of writes *)

(** [client.buffer = b] on the object stored under [id]. *)
Definition store_buffer (id : Z) (b : list Z) (s : server) : server :=
  with_clients (alter (with_buffer b) (clients s) id) s.

(** The identities a message mentions. *)
Definition about (e : event) : list Z :=
  match e with
  | welcome id => [id]
  | playerJoined id _ _ _ => [id]
  | playerLeft id => [id]
  | update id _ => [id]
  | playerKilled killer victim => [killer; victim]
  end.

Definition is_welcome (e : event) : bool :=
  match e with welcome _ => true | _ => false end.

(** A write that stays among the [registered] connections: it goes to one
    of them, mentions only them, and is not a [welcome]. *)
Definition among (registered : list Z) (ce : Z * event) : Prop :=
  In (fst ce) registered
  /\ (forall id, In id (about (snd ce)) -> In id registered)
  /\ is_welcome (snd ce) = false.

(** The [welcome] writes of the identities [1 .. n - 1], in order. *)
Definition welcomes (n : Z) : list (Z * event) :=
  map (fun k => (Z.of_nat k, welcome (Z.of_nat k))) (seq 1 (Z.to_nat (n - 1))).

(** An [upgrade] request that is accepted. *)
Definition is_handshake (i : input) : bool :=
  match i with Upgrade true => true | _ => false end.

(** The log of a running server: the [welcome] writes are those of the
    identities handed out so far, every write went to an identity handed
    out, and every registered connection was first sent its [welcome]. *)
Definition log_ok (s : server) : Prop :=
  registry_ok s
  /\ filter (fun ce => is_welcome (snd ce)) (wire s) = welcomes (nextId s)
  /\ (forall c e, In (c, e) (wire s) -> 1 <= c < nextId s)
  /\ (forall id, In id (ids (clients s)) ->
        exists rest, received id (wire s) = welcome id :: rest).

(** A kill announcement that names [id] as the killer. *)
Definition names_killer (id : Z) (e : event) : bool :=
  match e with playerKilled killer _ => killer =? id | _ => false end.

(** A kill announcement that names [id] as the victim. *)
Definition names_victim (id : Z) (e : event) : bool :=
  match e with playerKilled _ victim => victim =? id | _ => false end.

(** How many of the messages written to connection [id] satisfy [p]. *)
Definition announced (p : event -> bool) (id : Z) (w : list (Z * event)) : Z :=
  Z.of_nat (length (filter p (received id w))).

(** The counters of every registered connection agree with the kill
    announcements it has been sent. *)
Definition scores_ok (s : server) : Prop :=
  forall id c, get (clients s) id = Some c ->
    kills c = announced (names_killer id) id (wire s)
    /\ deaths c = announced (names_victim id) id (wire s).

(** *** Sample inputs *)

(** A player standing at [(px, 0, pz)] with health [h]. *)
Definition standing (px pz h : float) : pstate :=
  {| st_x := Some px; st_y := Some 0%float; st_z := Some pz;
     st_yaw := Some 0%float; st_pitch := Some 0%float; st_health := Some h |}.

Definition player (nm : string) (ps : pstate) : client :=
  {| name := nm; state := Some ps; kills := 0; deaths := 0; buffer := [] |}.

(** Connections 1 and 2 have joined as "ann" and "bob"; connection 3
    has completed the handshake and sent nothing. *)
Definition two_joined : server :=
  upgrade true
    (init 2 "bob" (Some (standing 5 5 100))
       (upgrade true
          (init 1 "ann" (Some (standing 0 0 100)) (upgrade true initial)))).

(** Shooter 1 at the origin, player 2 ten units down the z axis with
    health [h], both registered. *)
Definition duel (h : float) : server :=
  {| clients := [(1, player "ann" (standing 0 0 100));
                 (2, player "bob" (standing 0 10 h))];
     nextId := 3; draws := 0; wire := [] |}.

Definition along_z : vec3 :=
  {| vx := Some 0%float; vy := Some 0%float; vz := Some 1%float |}.

Definition from_origin : vec3 :=
  {| vx := Some 0%float; vy := Some 0%float; vz := Some 0%float |}.

(** The state of a player at [(0, 0, 10)] that carries no [health]. *)
Definition no_health : pstate :=
  {| st_x := Some 0%float; st_y := Some 0%float; st_z := Some 10%float;
     st_yaw := Some 0%float; st_pitch := Some 0%float; st_health := None |}.

(** The lobby of [duel] with player 2 in the state [ps]. *)
Definition duel_with (ps : pstate) : server :=
  {| clients := [(1, player "ann" (standing 0 0 100)); (2, player "bob" ps)];
     nextId := 3; draws := 0; wire := [] |}.

(** A generator that always returns 0.25. *)
Definition quarter (n : nat) : float := 0.25%float.

(** A decoder for one-byte payloads: "i" is an [init], "u" an
    [update], "s" a shot along the z axis. *)
Definition one_letter (p : list Z) : message :=
  match p with
  | [b] =>
    if b =? 105 then Init "ann" (Some (standing 0 0 100))
    else if b =? 117 then Update (Some (standing 1 1 100))
    else if b =? 115 then Shoot from_origin along_z
    else Other
  | _ => Other
  end.

(** Two connections join at the same spot, then connection 1 sends four
    shots in one chunk. *)
Definition skirmish : list input :=
  [Upgrade true; Upgrade true;
   Data 1 (Codec.mask_frame [1; 2; 3; 4] (Codec.sendWS [105]));
   Data 2 (Codec.mask_frame [1; 2; 3; 4] (Codec.sendWS [105]));
   Data 1 (concat (repeat (Codec.mask_frame [1; 2; 3; 4] (Codec.sendWS [115])) 4))].

End Lobby.


(** ** The browser client's record of the lobby

    The [socket.onmessage] handler of the client, on the variables it
    alone assigns: [playerId], [players], [localKills], [localDeaths],
    and the messages it sends. Meshes, the scene and the scoreboard
    markup are left out. A handler that throws stops where it throws and
    the next message is handled as usual. *)

Module Client.

(** An entry of [players]: [{ mesh, name, kills, deaths, state }]
    without the mesh. *)
Record remote := {
  name : string;
  kills : Z;
  deaths : Z;
  state : option Lobby.pstate }.

(** The variables of the client. [localState] is the object built by
    [socket.onopen]. *)
Record viewer := {
  playerId : option Z;
  players : list (Z * remote);
  localState : Lobby.pstate;
  localKills : Z;
  localDeaths : Z;
  sent : list Lobby.message }.

(** The client when its socket opens, standing at [start]. *)
Definition opened (start : Lobby.pstate) : viewer :=
  {| playerId := None; players := []; localState := start;
     localKills := 0; localDeaths := 0; sent := [] |}.

Fixpoint get (ps : list (Z * remote)) (id : Z) : option remote :=
  match ps with
  | [] => None
  | (k, p) :: rest => if k =? id then Some p else get rest id
  end.

Fixpoint set (ps : list (Z * remote)) (id : Z) (p : remote) : list (Z * remote) :=
  match ps with
  | [] => [(id, p)]
  | (k, p0) :: rest => if k =? id then (k, p) :: rest else (k, p0) :: set rest id p
  end.

Definition delete (ps : list (Z * remote)) (id : Z) : list (Z * remote) :=
  filter (fun kp => negb (fst kp =? id)) ps.

(** A mutation of the object stored under [id]. *)
Fixpoint alter (f : remote -> remote) (ps : list (Z * remote)) (id : Z)
  : list (Z * remote) :=
  match ps with
  | [] => []
  | (k, p) :: rest => if k =? id then (k, f p) :: rest else (k, p) :: alter f rest id
  end.

Definition with_state (st : option Lobby.pstate) (p : remote) : remote :=
  {| name := name p; kills := kills p; deaths := deaths p; state := st |}.

Definition incr_kills (p : remote) : remote :=
  {| name := name p; kills := kills p + 1; deaths := deaths p; state := state p |}.

Definition incr_deaths (p : remote) : remote :=
  {| name := name p; kills := kills p; deaths := deaths p + 1; state := state p |}.

Definition with_players (ps : list (Z * remote)) (v : viewer) : viewer :=
  {| playerId := playerId v; players := ps; localState := localState v;
     localKills := localKills v; localDeaths := localDeaths v; sent := sent v |}.

(** [id === playerId]; [playerId] is [null] before the [welcome]. *)
Definition is_me (v : viewer) (id : Z) : bool :=
  match playerId v with Some me => id =? me | None => false end.

(** [socket.onmessage]. In the [playerJoined] case and in the own-[update]
    case [state.x] is read before anything is assigned, so a message
    without [state] changes nothing there. *)
Definition onmessage (playerName : string) (data : Lobby.event) (v : viewer) : viewer :=
  match data with
  | Lobby.welcome id =>
    {| playerId := Some id; players := players v; localState := localState v;
       localKills := localKills v; localDeaths := localDeaths v;
       sent := sent v ++ [Lobby.Init playerName (Some (localState v))] |}
  | Lobby.playerJoined id nm st score =>
    if is_me v id then v else
    match st with
    | None => v
    | Some _ =>
      let kd := match score with Some kd => kd | None => (0, 0) end in
      with_players
        (set (players v) id {| name := nm; kills := fst kd; deaths := snd kd; state := st |}) v
    end
  | Lobby.playerLeft id =>
    match get (players v) id with
    | Some _ => with_players (delete (players v) id) v
    | None => v
    end
  | Lobby.update id st =>
    if is_me v id then
      match st with
      | None => v
      | Some s =>
        {| playerId := playerId v; players := players v;
           localState :=
             {| Lobby.st_x := Lobby.st_x s; Lobby.st_y := Lobby.st_y s;
                Lobby.st_z := Lobby.st_z s;
                Lobby.st_yaw := Lobby.st_yaw (localState v);
                Lobby.st_pitch := Lobby.st_pitch (localState v);
                Lobby.st_health := Lobby.st_health s |};
           localKills := localKills v; localDeaths := localDeaths v; sent := sent v |}
      end
    else with_players (alter (with_state st) (players v) id) v
  | Lobby.playerKilled killer victim =>
    {| playerId := playerId v;
       players := alter incr_deaths (alter incr_kills (players v) killer) victim;
       localState := localState v;
       localKills := localKills v + (if is_me v killer then 1 else 0);
       localDeaths := localDeaths v + (if is_me v victim then 1 else 0);
       sent := sent v |}
  end.

(** The handler run on the messages [events], oldest first. *)
Definition watch (playerName : string) (events : list Lobby.event) (v : viewer) : viewer :=
  fold_left (fun acc data => onmessage playerName data acc) events v.

End Client.
(** * Properties *)

(** ** Frame codec *)

Section CodecFacts.

Import Codec.

Lemma unmask_from_length i k l : length (unmask_from i k l) = length l.
Proof.
  revert i; induction l as [|b l IH]; intros i; simpl; [reflexivity|].
  now rewrite IH.
Qed.

Lemma unmask_from_involutive i k l : unmask_from i k (unmask_from i k l) = l.
Proof.
  revert i; induction l as [|b l IH]; intros i; simpl; [reflexivity|].
  rewrite IH. f_equal.
  now rewrite Z.lxor_assoc, Z.lxor_nilpotent, Z.lxor_0_r.
Qed.

Lemma unmask_involutive k l : unmask k (unmask k l) = l.
Proof. apply unmask_from_involutive. Qed.

Lemma unmask_length k l : length (unmask k l) = length l.
Proof. apply unmask_from_length. Qed.

Lemma xor_key_length key data : length (xor_key key data) = length data.
Proof.
  unfold xor_key. rewrite length_map, length_combine, length_seq. apply Nat.min_id.
Qed.

Lemma xor_key_nth key data i :
  (i < length data)%nat ->
  nth i (xor_key key data) 0 = Z.lxor (nth i data 0) (nth (i mod 4) key 0).
Proof.
  intros Hi. unfold xor_key.
  rewrite (nth_indep _ 0 (Z.lxor (snd (O, 0)) (nth (fst (O, 0) mod 4) key 0)))
    by (rewrite length_map, length_combine, length_seq; lia).
  rewrite (map_nth (fun ib : nat * Z => Z.lxor (snd ib) (nth (fst ib mod 4) key 0))).
  rewrite combine_nth by apply length_seq.
  rewrite seq_nth by exact Hi. reflexivity.
Qed.

(** The decoder's loop undoes the client's masking. *)
Lemma unmask_from_xor key data : forall a,
  unmask_from a key
    (map (fun ib : nat * Z => Z.lxor (snd ib) (nth (fst ib mod 4) key 0))
         (combine (seq a (length data)) data))
  = data.
Proof.
  induction data as [|b data IH]; intros a; [reflexivity|].
  cbn [length seq combine map unmask_from fst snd]. rewrite IH. f_equal.
  unfold at_. now rewrite Z.lxor_assoc, Z.lxor_nilpotent, Z.lxor_0_r.
Qed.

Lemma unmask_xor_key key data : unmask key (xor_key key data) = data.
Proof. apply unmask_from_xor. Qed.

(** A check on every integer below [n] settles a property of them. *)
Lemma below_cases (n : nat) (P : Z -> bool) :
  forallb P (map Z.of_nat (seq 0 n)) = true ->
  forall x, 0 <= x < Z.of_nat n -> P x = true.
Proof.
  intros H x Hx. rewrite forallb_forall in H. apply H.
  apply in_map_iff. exists (Z.to_nat x). split; [lia|].
  apply in_seq. lia.
Qed.

Lemma len7_bits x :
  0 <= x < 128 ->
  Z.land x 127 = x /\ Z.land (Z.lor x 128) 127 = x /\ Z.land x 128 = 0
  /\ Z.land (Z.lor x 128) 128 = 128.
Proof.
  intros Hx.
  pose proof (below_cases 128
    (fun x => (Z.land x 127 =? x) && (Z.land (Z.lor x 128) 127 =? x)
              && (Z.land x 128 =? 0) && (Z.land (Z.lor x 128) 128 =? 128))
    eq_refl x Hx) as H.
  cbv beta in H. rewrite !andb_true_iff, !Z.eqb_eq in H. tauto.
Qed.

Lemma firstn_skipn_exact {A} (a b : list A) n :
  n = length a -> firstn n (a ++ b) = a /\ skipn n (a ++ b) = b.
Proof.
  intros ->. split.
  - rewrite firstn_app, Nat.sub_diag, firstn_all. simpl. apply app_nil_r.
  - rewrite skipn_app, Nat.sub_diag, skipn_all. reflexivity.
Qed.

Lemma wire_frame_size raw f : wire_frame raw f -> (2 <= length raw)%nat.
Proof. intros H; destruct H; simpl; lia. Qed.

Ltac exact_length l H :=
  repeat (destruct l as [|? l]; try discriminate H).

Ltac finish_frame Hn Hsplit :=
  cbn [negb app length Nat.ltb Nat.leb Nat.add];
  match goal with
  | |- context [Z.of_nat ?a <? Z.of_nat ?b + ?len] =>
    replace (Z.of_nat a <? Z.of_nat b + len) with false
      by (symmetry; apply Z.ltb_ge; rewrite length_app; lia)
  end;
  unfold slice, slice_from; cbn [skipn firstn Nat.add]; rewrite Hn;
  destruct (Hsplit _ eq_refl) as [-> ->]; reflexivity.

Lemma parse_frame_complete raw f tail :
  wire_frame raw f -> parse_frame (raw ++ tail) = Some (f, tail).
Proof.
  intros H. destruct H as [b1 b2 ext key body len Hext Hkey Hlen].
  unfold ext_length, mask_key in *.
  unfold parse_frame.
  change (at_ ((b1 :: b2 :: ext ++ key ++ body) ++ tail) 0) with b1.
  change (at_ ((b1 :: b2 :: ext ++ key ++ body) ++ tail) 1) with b2.
  cbv zeta.
  assert (Hb : (length ((b1 :: b2 :: ext ++ key ++ body) ++ tail) <? 2)%nat = false).
  { apply Nat.ltb_ge. simpl. lia. }
  rewrite Hb.
  assert (Hsplit : forall n, n = length body ->
     firstn n ((body ++ tail)) = body /\ skipn n (body ++ tail) = tail).
  { intros n ->. apply firstn_skipn_exact. reflexivity. }
  assert (Hn : Z.to_nat len = length body) by lia.
  destruct (Z.land b2 127 =? 126) eqn:E126;
    [|destruct (Z.land b2 127 =? 127) eqn:E127].
  - destruct Hext as [Hl Hv]. exact_length ext Hl.
    match type of Hv with _ = ?e =>
      match goal with |- context [readUInt16BE ?b 2] =>
        change (readUInt16BE b 2) with e end end.
    rewrite <- Hv.
    destruct (Z.land b2 128 =? 0) eqn:Em.
    + subst key. finish_frame Hn Hsplit.
    + exact_length key Hkey. finish_frame Hn Hsplit.
  - destruct Hext as [Hl Hv]. exact_length ext Hl.
    match type of Hv with _ = ?e =>
      match goal with |- context [readUInt32BE ?b 2 * 2 ^ 32 + readUInt32BE ?b 6] =>
        change (readUInt32BE b 2 * 2 ^ 32 + readUInt32BE b 6) with e end end.
    rewrite <- Hv.
    destruct (Z.land b2 128 =? 0) eqn:Em.
    + subst key. finish_frame Hn Hsplit.
    + exact_length key Hkey. finish_frame Hn Hsplit.
  - destruct Hext as [-> Hv]. rewrite <- Hv.
    destruct (Z.land b2 128 =? 0) eqn:Em.
    + subst key. finish_frame Hn Hsplit.
    + exact_length key Hkey. finish_frame Hn Hsplit.
Qed.

Lemma bytes_cons b l : bytes (b :: l) -> is_byte b /\ bytes l.
Proof. intros H. inversion H; subst. split; assumption. Qed.

Ltac take_bytes buf L :=
  repeat (destruct buf as [|? buf]; [simpl in L; lia|]).

Lemma firstn_skipn_length (l : list Z) (n : Z) :
  0 <= n <= Z.of_nat (length l) ->
  l = firstn (Z.to_nat n) l ++ skipn (Z.to_nat n) l
  /\ Z.of_nat (length (firstn (Z.to_nat n) l)) = n.
Proof.
  intros Hn. split.
  - symmetry. apply firstn_skipn.
  - rewrite length_firstn. lia.
Qed.

Ltac close_frame H b1 b2 ext key len Em Hext :=
  match type of H with
  | (if Z.of_nat ?a <? ?b then _ else _) = _ =>
    let Ll := fresh "Ll" in
    destruct (Z.of_nat a <? b) eqn:Ll; [discriminate H|];
    apply Z.ltb_ge in Ll; simpl length in Ll
  end;
  unfold slice, slice_from in H; cbn [skipn firstn Nat.add] in H;
  injection H as <- <-;
  match goal with
  | |- context [skipn (Z.to_nat len) ?tl] =>
    let Hs := fresh "Hs" in let Hl := fresh "Hl" in
    destruct (firstn_skipn_length tl len) as [Hs Hl]; [lia|];
    exists (b1 :: b2 :: ext ++ key ++ firstn (Z.to_nat len) tl); split;
    [ pose proof (WireFrame b1 b2 ext key (firstn (Z.to_nat len) tl) len) as W;
      rewrite Em in W; apply W;
      [ unfold ext_length;
        repeat match goal with E : (Z.land _ 127 =? _) = _ |- _ => rewrite E end;
        split; reflexivity | unfold mask_key; rewrite Em; reflexivity | exact Hl ]
    | cbn [app]; rewrite <- Hs; reflexivity ]
  end.

Lemma parse_frame_sound buf f rest :
  bytes buf -> parse_frame buf = Some (f, rest) ->
  exists raw, wire_frame raw f /\ buf = raw ++ rest.
Proof.
  intros Hb H. unfold parse_frame in H.
  destruct (length buf <? 2)%nat eqn:L2; [discriminate|]. apply Nat.ltb_ge in L2.
  destruct buf as [|b1 [|b2 buf]]; simpl in L2; try lia.
  change (at_ (b1 :: b2 :: buf) 0) with b1 in H.
  change (at_ (b1 :: b2 :: buf) 1) with b2 in H.
  cbv zeta in H.
  assert (H7 : 0 <= Z.land b2 127) by (apply Z.land_nonneg; lia).
  destruct (Z.land b2 127 =? 126) eqn:E126;
    [|destruct (Z.land b2 127 =? 127) eqn:E127].
  - destruct (length (b1 :: b2 :: buf) <? 4)%nat eqn:L4; [discriminate H|].
    apply Nat.ltb_ge in L4.
    destruct buf as [|e1 [|e2 buf]]; simpl in L4; try lia.
    assert (Hlen : 0 <= readUInt16BE (b1 :: b2 :: e1 :: e2 :: buf) 2).
    { apply bytes_cons in Hb as [_ Hb]. apply bytes_cons in Hb as [_ Hb].
      apply bytes_cons in Hb as [He1 Hb]. apply bytes_cons in Hb as [He2 Hb].
      unfold readUInt16BE, at_; simpl nth. unfold is_byte in *. lia. }
    set (len := readUInt16BE (b1 :: b2 :: e1 :: e2 :: buf) 2) in *.
    destruct (Z.land b2 128 =? 0) eqn:Em; cbn [negb] in H.
    + close_frame H b1 b2 [e1; e2] (@nil Z) len Em E126.
    + destruct (length (b1 :: b2 :: e1 :: e2 :: buf) <? 4 + 4)%nat eqn:L8;
        [discriminate H|].
      apply Nat.ltb_ge in L8.
      destruct buf as [|k1 [|k2 [|k3 [|k4 buf]]]]; simpl in L8; try lia.
      close_frame H b1 b2 [e1; e2] [k1; k2; k3; k4] len Em E126.
  - destruct (length (b1 :: b2 :: buf) <? 10)%nat eqn:L10; [discriminate H|].
    apply Nat.ltb_ge in L10.
    destruct buf as [|e1 [|e2 [|e3 [|e4 [|e5 [|e6 [|e7 [|e8 buf]]]]]]]];
      simpl in L10; try lia.
    match type of H with context [readUInt32BE ?b 2 * 2 ^ 32 + readUInt32BE ?b 6] =>
      assert (Hlen : 0 <= readUInt32BE b 2 * 2 ^ 32 + readUInt32BE b 6);
      [| set (len := readUInt32BE b 2 * 2 ^ 32 + readUInt32BE b 6) in * ]
    end.
    { repeat (apply bytes_cons in Hb as [? Hb]).
      unfold readUInt32BE, at_; simpl nth. unfold is_byte in *. lia. }
    destruct (Z.land b2 128 =? 0) eqn:Em; cbn [negb] in H.
    + close_frame H b1 b2 [e1; e2; e3; e4; e5; e6; e7; e8] (@nil Z) len Em E127.
    + match type of H with context [if (?a <? ?b)%nat then _ else _] =>
        destruct (a <? b)%nat eqn:L14; [discriminate H|] end.
      apply Nat.ltb_ge in L14.
      destruct buf as [|k1 [|k2 [|k3 [|k4 buf]]]]; simpl in L14; try lia.
      close_frame H b1 b2 [e1; e2; e3; e4; e5; e6; e7; e8] [k1; k2; k3; k4] len Em E127.
  - pose (len := Z.land b2 127). assert (Hlen : 0 <= len) by exact H7.
    change (Z.land b2 127) with len in H.
    destruct (Z.land b2 128 =? 0) eqn:Em; cbn [negb] in H.
    + close_frame H b1 b2 (@nil Z) (@nil Z) len Em E127.
    + match type of H with context [if (?a <? ?b)%nat then _ else _] =>
        destruct (a <? b)%nat eqn:L6; [discriminate H|] end.
      apply Nat.ltb_ge in L6.
      destruct buf as [|k1 [|k2 [|k3 [|k4 buf]]]]; simpl in L6; try lia.
      close_frame H b1 b2 (@nil Z) [k1; k2; k3; k4] len Em E127.
Qed.

Lemma bytes_app a b : bytes (a ++ b) -> bytes a /\ bytes b.
Proof. intros H. apply Forall_app in H. exact H. Qed.

Lemma parse_frame_none_iff buf :
  bytes buf ->
  parse_frame buf = None <->
  (forall raw f tail, wire_frame raw f -> buf <> raw ++ tail).
Proof.
  intros Hb. split.
  - intros Hn raw f tail W ->. rewrite (parse_frame_complete _ _ _ W) in Hn.
    discriminate.
  - intros Hno. destruct (parse_frame buf) as [[f rest]|] eqn:E; [|reflexivity].
    destruct (parse_frame_sound _ _ _ Hb E) as (raw & W & ->).
    exfalso. exact (Hno _ _ _ W eq_refl).
Qed.

Lemma parse_loop_spec fuel : forall buf,
  (length buf < fuel)%nat -> bytes buf ->
  exists frames rest raws,
    parse_loop fuel buf = Some (frames, rest)
    /\ buf = concat raws ++ rest
    /\ Forall2 wire_frame raws frames
    /\ parse_frame rest = None
    /\ bytes rest.
Proof.
  induction fuel as [|fuel IH]; intros buf Hlen Hb; [lia|].
  simpl. destruct (parse_frame buf) as [[f rest]|] eqn:E.
  - destruct (parse_frame_sound _ _ _ Hb E) as (raw & W & ->).
    pose proof (wire_frame_size _ _ W) as Hsz.
    apply bytes_app in Hb as [_ Hrest].
    rewrite length_app in Hlen.
    destruct (IH rest ltac:(lia) Hrest) as (fs & final & raws & -> & Hcat & HF & Hnone & Hfin).
    exists (f :: fs), final, (raw :: raws). repeat split; try assumption.
    + simpl. rewrite <- app_assoc, <- Hcat. reflexivity.
    + constructor; assumption.
  - exists [], buf, []. repeat split; try assumption. constructor.
Qed.

(** A decode pass splits the buffer into whole frames and a rest that
    holds no complete frame. *)
Lemma parseBuffer_whole_frames buf :
  bytes buf ->
  exists frames rest raws,
    parseBuffer buf = Some (frames, rest)
    /\ buf = concat raws ++ rest
    /\ Forall2 wire_frame raws frames
    /\ (forall raw f tail, wire_frame raw f -> rest <> raw ++ tail)
    /\ ((forall raw f tail, wire_frame raw f -> buf <> raw ++ tail) ->
        frames = [] /\ rest = buf).
Proof.
  intros Hb. unfold parseBuffer.
  destruct (parse_loop_spec (S (length buf)) buf ltac:(lia) Hb)
    as (frames & rest & raws & Hp & Hcat & HF & Hnone & Hrest).
  exists frames, rest, raws. repeat split; try assumption.
  - apply parse_frame_none_iff; assumption.
  - apply parse_frame_none_iff in H; [|assumption].
    simpl in Hp. rewrite H in Hp. congruence.
  - apply parse_frame_none_iff in H; [|assumption].
    simpl in Hp. rewrite H in Hp. congruence.
Qed.

Lemma be_bytes_length k n : length (be_bytes k n) = k.
Proof. induction k; simpl; congruence. Qed.

Lemma be_value_be_bytes k n :
  0 <= n -> be_value (be_bytes k n) = n mod 2 ^ (8 * Z.of_nat k).
Proof.
  intros Hn. induction k as [|k IH].
  - simpl. now rewrite Z.mod_1_r.
  - cbn [be_bytes be_value]. rewrite IH, be_bytes_length.
    change 255 with (Z.ones 8). rewrite Z.land_ones, Z.shiftr_div_pow2 by lia.
    replace (8 * Z.of_nat (S k)) with (8 * Z.of_nat k + 8) by lia.
    rewrite Z.pow_add_r by lia.
    rewrite Z.rem_mul_r by lia. lia.
Qed.

Lemma read16_value l :
  length l = 2%nat -> readUInt16BE l 0 = be_value l.
Proof.
  intros H. exact_length l H. unfold readUInt16BE, at_. simpl. lia.
Qed.

Lemma read64_value l :
  length l = 8%nat ->
  readUInt32BE l 0 * 2 ^ 32 + readUInt32BE l 4 = be_value l.
Proof.
  intros H. exact_length l H. unfold readUInt32BE, at_. simpl. lia.
Qed.

Lemma be_bytes_16 n :
  0 <= n < 65536 -> readUInt16BE (be_bytes 2 n) 0 = n.
Proof.
  intros Hn. rewrite read16_value by apply be_bytes_length.
  rewrite be_value_be_bytes by lia. apply Z.mod_small. simpl. lia.
Qed.

Lemma be_bytes_64 n :
  0 <= n < 2 ^ 64 ->
  readUInt32BE (be_bytes 8 n) 0 * 2 ^ 32 + readUInt32BE (be_bytes 8 n) 4 = n.
Proof.
  intros Hn. rewrite read64_value by apply be_bytes_length.
  rewrite be_value_be_bytes by lia. apply Z.mod_small. exact Hn.
Qed.

Lemma sendWS_wire data :
  Z.of_nat (length data) < 2 ^ 64 ->
  wire_frame (sendWS data) {| opcode := 1; payload := data |}.
Proof.
  intros Hlen. unfold sendWS. cbv zeta.
  set (n := Z.of_nat (length data)) in *.
  destruct (n <? 126) eqn:E1; [|destruct (n <? 65536) eqn:E2].
  - apply Z.ltb_lt in E1.
    destruct (len7_bits n ltac:(lia)) as (H1 & _ & H3 & _).
    pose proof (WireFrame 129 n [] [] data n) as W.
    rewrite H3 in W. apply W.
    + unfold ext_length. rewrite H1.
      replace (n =? 126) with false by (symmetry; apply Z.eqb_neq; lia).
      replace (n =? 127) with false by (symmetry; apply Z.eqb_neq; lia).
      split; reflexivity.
    + reflexivity.
    + reflexivity.
  - apply Z.ltb_ge in E1. apply Z.ltb_lt in E2.
    pose proof (WireFrame 129 126 (be_bytes 2 n) [] data n) as W.
    apply W.
    + unfold ext_length. change (Z.land 126 127 =? 126) with true. cbv iota.
      split; [apply be_bytes_length|]. symmetry. apply be_bytes_16. lia.
    + reflexivity.
    + reflexivity.
  - apply Z.ltb_ge in E2.
    pose proof (WireFrame 129 127 (be_bytes 8 n) [] data n) as W.
    apply W.
    + unfold ext_length. change (Z.land 127 127 =? 126) with false.
      change (Z.land 127 127 =? 127) with true. cbv iota.
      split; [apply be_bytes_length|]. symmetry. apply be_bytes_64. lia.
    + reflexivity.
    + reflexivity.
Qed.

Lemma mask_frame_wire key data :
  Z.of_nat (length data) < 2 ^ 64 -> length key = 4%nat ->
  wire_frame (mask_frame key (sendWS data)) {| opcode := 1; payload := data |}.
Proof.
  intros Hlen Hkey. unfold mask_frame, header_size, sendWS. cbv zeta.
  set (n := Z.of_nat (length data)) in *.
  destruct (n <? 126) eqn:E1; [|destruct (n <? 65536) eqn:E2].
  - apply Z.ltb_lt in E1.
    destruct (len7_bits n ltac:(lia)) as (H1 & H2 & H3 & H4).
    change (at_ ([129; n] ++ data) 1) with n. rewrite H1.
    replace (n =? 126) with false by (symmetry; apply Z.eqb_neq; lia).
    replace (n =? 127) with false by (symmetry; apply Z.eqb_neq; lia).
    cbn [firstn skipn app].
    pose proof (WireFrame 129 (Z.lor n 128) [] key (xor_key key data) n) as W.
    rewrite H4, unmask_xor_key in W. apply W.
    + unfold ext_length. rewrite H2.
      replace (n =? 126) with false by (symmetry; apply Z.eqb_neq; lia).
      replace (n =? 127) with false by (symmetry; apply Z.eqb_neq; lia).
      split; reflexivity.
    + exact Hkey.
    + rewrite xor_key_length. reflexivity.
  - apply Z.ltb_ge in E1. apply Z.ltb_lt in E2.
    change (at_ ((129 :: 126 :: be_bytes 2 n) ++ data) 1) with 126.
    change (Z.land 126 127 =? 126) with true. cbv iota.
    pose proof (be_bytes_length 2 n) as Hl.
    destruct (be_bytes 2 n) as [|e1 [|e2 [|? ?]]] eqn:Eb; try discriminate Hl.
    cbn [firstn skipn app].
    pose proof (WireFrame 129 (Z.lor 126 128) [e1; e2] key (xor_key key data) n) as W.
    rewrite unmask_xor_key in W. apply W.
    + unfold ext_length. change (Z.land (Z.lor 126 128) 127 =? 126) with true.
      cbv iota. split; [reflexivity|]. rewrite <- Eb. symmetry.
      apply be_bytes_16. lia.
    + exact Hkey.
    + rewrite xor_key_length. reflexivity.
  - apply Z.ltb_ge in E2.
    change (at_ ((129 :: 127 :: be_bytes 8 n) ++ data) 1) with 127.
    change (Z.land 127 127 =? 126) with false.
    change (Z.land 127 127 =? 127) with true. cbv iota.
    pose proof (be_bytes_length 8 n) as Hl.
    destruct (be_bytes 8 n) as [|e1 [|e2 [|e3 [|e4 [|e5 [|e6 [|e7 [|e8 [|? ?]]]]]]]]] eqn:Eb;
      try discriminate Hl.
    cbn [firstn skipn app].
    pose proof (WireFrame 129 (Z.lor 127 128) [e1; e2; e3; e4; e5; e6; e7; e8] key
                  (xor_key key data) n) as W.
    rewrite unmask_xor_key in W. apply W.
    + unfold ext_length. change (Z.land (Z.lor 127 128) 127 =? 126) with false.
      change (Z.land (Z.lor 127 128) 127 =? 127) with true.
      cbv iota. split; [reflexivity|]. rewrite <- Eb. symmetry.
      apply be_bytes_64. lia.
    + exact Hkey.
    + rewrite xor_key_length. reflexivity.
Qed.

Lemma parseBuffer_single raw f :
  wire_frame raw f -> parseBuffer raw = Some ([f], []).
Proof.
  intros W. pose proof (wire_frame_size _ _ W) as Hsz.
  unfold parseBuffer. destruct (length raw) as [|[|k]] eqn:El; try lia.
  cbn [parse_loop].
  pose proof (parse_frame_complete raw f [] W) as Hp. rewrite app_nil_r in Hp.
  rewrite Hp. reflexivity.
Qed.

(** The frame [sendWS] writes and its masked form, byte by byte. *)
Lemma mask_frame_shape key data :
  exists len7 ext,
    sendWS data = 129 :: len7 :: ext ++ data
    /\ mask_frame key (sendWS data) = 129 :: Z.lor len7 128 :: ext ++ key ++ xor_key key data.
Proof.
  unfold mask_frame, header_size, sendWS. cbv zeta.
  set (n := Z.of_nat (length data)).
  assert (Hn : 0 <= n) by (unfold n; lia).
  destruct (n <? 126) eqn:E1; [|destruct (n <? 65536) eqn:E2].
  - apply Z.ltb_lt in E1. exists n, []. split; [reflexivity|].
    destruct (len7_bits n ltac:(lia)) as (H1 & _).
    change (at_ ([129; n] ++ data) 1) with n. rewrite H1.
    replace (n =? 126) with false by (symmetry; apply Z.eqb_neq; lia).
    replace (n =? 127) with false by (symmetry; apply Z.eqb_neq; lia).
    reflexivity.
  - exists 126, (be_bytes 2 n). split; [reflexivity|].
    change (at_ ((129 :: 126 :: be_bytes 2 n) ++ data) 1) with 126.
    change (Z.land 126 127 =? 126) with true. cbv iota.
    pose proof (be_bytes_length 2 n) as Hl.
    destruct (be_bytes 2 n) as [|e1 [|e2 [|? ?]]]; try discriminate Hl.
    reflexivity.
  - exists 127, (be_bytes 8 n). split; [reflexivity|].
    change (at_ ((129 :: 127 :: be_bytes 8 n) ++ data) 1) with 127.
    change (Z.land 127 127 =? 126) with false.
    change (Z.land 127 127 =? 127) with true. cbv iota.
    pose proof (be_bytes_length 8 n) as Hl.
    destruct (be_bytes 8 n) as [|e1 [|e2 [|e3 [|e4 [|e5 [|e6 [|e7 [|e8 [|? ?]]]]]]]]];
      try discriminate Hl.
    reflexivity.
Qed.

Lemma sendWS_header data len7 ext len7' ext' :
  sendWS data = 129 :: len7 :: ext ++ data ->
  sendWS data = 129 :: len7' :: ext' ++ data ->
  len7 = len7' /\ ext = ext'.
Proof.
  intros H1 H2. rewrite H1 in H2. injection H2 as E1 E2.
  split; [exact E1|]. now apply app_inv_tail in E2.
Qed.

(** C8 (as stated). For a payload of 0, 1, 125, 126, 65535 or 65536
    bytes, [sendWS] writes a frame whose first byte is 0x81 (FIN, text)
    and whose mask bit is clear; [parseBuffer] reads that frame back as
    one text frame with the same payload and an empty rest, both as
    written and after a client has masked it with any 4-byte key. The
    frame written is 0x81, the length field, the extended length and the
    payload: the length itself for 0, 1 and 125, 126 followed by the
    length in two bytes, high byte first, for 126 and 65535, and 127
    followed by the length in eight bytes, high byte first, for 65536.
    The masked frame has the mask bit added to the length field, the key
    after the extended length, and as payload byte [i] the plain byte
    XOR [key[i mod 4]]; so the payload read back is the masked payload
    with byte [i] XOR-ed with [key[i mod 4]] again. *)
Theorem frame_roundtrip data key :
  In (Z.of_nat (length data)) [0; 1; 125; 126; 65535; 65536] ->
  length key = 4%nat ->
  at_ (sendWS data) 0 = 129
  /\ Z.land (at_ (sendWS data) 1) 128 = 0
  /\ parseBuffer (sendWS data) = Some ([{| opcode := 1; payload := data |}], [])
  /\ parseBuffer (mask_frame key (sendWS data))
     = Some ([{| opcode := 1; payload := data |}], [])
  /\ exists len7 ext masked,
       In (Z.of_nat (length data), len7, ext)
          [(0, 0, []); (1, 1, []); (125, 125, []); (126, 126, [0; 126]);
           (65535, 126, [255; 255]); (65536, 127, [0; 0; 0; 0; 0; 1; 0; 0])]
       /\ sendWS data = 129 :: len7 :: ext ++ data
       /\ mask_frame key (sendWS data) = 129 :: (len7 + 128) :: ext ++ key ++ masked
       /\ length masked = length data
       /\ forall i, (i < length data)%nat ->
            nth i masked 0 = Z.lxor (nth i data 0) (nth (i mod 4) key 0).
Proof.
  intros Hin Hkey.
  assert (Hlen : Z.of_nat (length data) < 2 ^ 64).
  { change (2 ^ 64) with 18446744073709551616. simpl in Hin. lia. }
  split; [|split; [|split; [|split]]].
  - unfold sendWS. cbv zeta.
    destruct (_ <? 126); [|destruct (_ <? 65536)]; reflexivity.
  - unfold sendWS. cbv zeta.
    destruct (Z.of_nat (length data) <? 126) eqn:E1;
      [|destruct (Z.of_nat (length data) <? 65536)]; try reflexivity.
    apply Z.ltb_lt in E1. change (at_ _ 1) with (Z.of_nat (length data)).
    apply len7_bits. lia.
  - apply parseBuffer_single, sendWS_wire, Hlen.
  - apply parseBuffer_single, mask_frame_wire; assumption.
  - destruct (mask_frame_shape key data) as (len7 & ext & Hs & Hm).
    assert (Hhead : forall n l7 e, Z.of_nat (length data) = n ->
              (let h := if n <? 126 then [129; n]
                        else if n <? 65536 then 129 :: 126 :: be_bytes 2 n
                        else 129 :: 127 :: be_bytes 8 n in
               h = 129 :: l7 :: e) ->
              len7 = l7 /\ ext = e).
    { intros n l7 e Hn Hh. cbv zeta in Hh. apply (sendWS_header data); [exact Hs|].
      unfold sendWS. cbv zeta. rewrite Hn, Hh. reflexivity. }
    assert (Hdone : forall l7 e, len7 = l7 /\ ext = e -> Z.lor l7 128 = l7 + 128 ->
              In (Z.of_nat (length data), l7, e)
                 [(0, 0, []); (1, 1, []); (125, 125, []); (126, 126, [0; 126]);
                  (65535, 126, [255; 255]); (65536, 127, [0; 0; 0; 0; 0; 1; 0; 0])] ->
              exists len7 ext masked,
                In (Z.of_nat (length data), len7, ext)
                   [(0, 0, []); (1, 1, []); (125, 125, []); (126, 126, [0; 126]);
                    (65535, 126, [255; 255]); (65536, 127, [0; 0; 0; 0; 0; 1; 0; 0])]
                /\ sendWS data = 129 :: len7 :: ext ++ data
                /\ mask_frame key (sendWS data) = 129 :: (len7 + 128) :: ext ++ key ++ masked
                /\ length masked = length data
                /\ forall i, (i < length data)%nat ->
                     nth i masked 0 = Z.lxor (nth i data 0) (nth (i mod 4) key 0)).
    { intros l7 e [<- <-] Hor Ht. exists len7, ext, (xor_key key data).
      split; [exact Ht|]. split; [exact Hs|]. split; [now rewrite <- Hor|].
      split; [apply xor_key_length|]. intros i Hi. now apply xor_key_nth. }
    cbn [In] in Hin.
    destruct Hin as [H|[H|[H|[H|[H|[H|[]]]]]]]; symmetry in H.
    + apply (Hdone 0 [] (Hhead 0 0 [] H eq_refl) eq_refl). rewrite H. cbn. tauto.
    + apply (Hdone 1 [] (Hhead 1 1 [] H eq_refl) eq_refl). rewrite H. cbn. tauto.
    + apply (Hdone 125 [] (Hhead 125 125 [] H eq_refl) eq_refl). rewrite H. cbn. tauto.
    + apply (Hdone 126 [0; 126] (Hhead 126 126 [0; 126] H eq_refl) eq_refl).
      rewrite H. cbn. tauto.
    + apply (Hdone 126 [255; 255] (Hhead 65535 126 [255; 255] H eq_refl) eq_refl).
      rewrite H. cbn. tauto.
    + apply (Hdone 127 [0; 0; 0; 0; 0; 1; 0; 0]
               (Hhead 65536 127 [0; 0; 0; 0; 0; 1; 0; 0] H eq_refl) eq_refl).
      rewrite H. cbn. tauto.
Qed.

End CodecFacts.
(** ** Binary64 arithmetic *)

Section Binary64Facts.

Import Binary64.

(** *** NaN and comparisons *)

Lemma SFcompare_antisym a b :
  SFcompare b a = option_map CompOpp (SFcompare a b).
Proof.
  destruct a as [sa|sa| |sa ma ea], b as [sb|sb| |sb mb eb]; simpl;
    try reflexivity; try (destruct sa; reflexivity); try (destruct sb; reflexivity);
    try (destruct sa, sb; reflexivity).
  assert (Hm : PosDef.Pos.compare_cont Eq mb ma
               = CompOpp (PosDef.Pos.compare_cont Eq ma mb)).
  { symmetry. apply (Pos.compare_cont_antisym ma mb Eq). }
  assert (He : IntDef.Z.compare eb ea = CompOpp (IntDef.Z.compare ea eb)).
  { apply (Z.compare_antisym ea eb). }
  rewrite He, Hm.
  destruct sa, sb; simpl; try reflexivity;
    destruct (IntDef.Z.compare ea eb); simpl; try reflexivity;
    destruct (PosDef.Pos.compare_cont Eq ma mb); reflexivity.
Qed.

Lemma NaN_dec x : {NaN x} + {~ NaN x}.
Proof. unfold NaN. destruct (Prim2SF x); (now left) || (right; discriminate). Qed.

Lemma compare_total x y :
  ~ NaN x -> ~ NaN y -> exists c, SFcompare (Prim2SF x) (Prim2SF y) = Some c.
Proof.
  unfold NaN. intros Hx Hy.
  destruct (Prim2SF x), (Prim2SF y); simpl; try contradiction; eauto.
Qed.

Lemma NaN_add x y : NaN x \/ NaN y -> NaN (x + y).
Proof.
  unfold NaN. rewrite add_spec. intros [H|H]; rewrite H.
  - reflexivity.
  - destruct (Prim2SF x); reflexivity.
Qed.

Lemma NaN_sub x y : NaN x \/ NaN y -> NaN (x - y).
Proof.
  unfold NaN. rewrite sub_spec. intros [H|H]; rewrite H.
  - reflexivity.
  - destruct (Prim2SF x); reflexivity.
Qed.

Lemma NaN_mul x y : NaN x \/ NaN y -> NaN (x * y).
Proof.
  unfold NaN. rewrite mul_spec. intros [H|H]; rewrite H.
  - reflexivity.
  - destruct (Prim2SF x); reflexivity.
Qed.

Lemma NaN_nan : NaN nan.
Proof. reflexivity. Qed.

Lemma NaN_ltb_l x y : NaN x -> (x <? y)%float = false.
Proof. unfold NaN. intros H. rewrite ltb_spec, H. reflexivity. Qed.

Lemma NaN_ltb_r x y : NaN y -> (x <? y)%float = false.
Proof.
  unfold NaN. intros H. rewrite ltb_spec, H. unfold SFltb.
  destruct (Prim2SF x); reflexivity.
Qed.

Lemma NaN_leb_l x y : NaN x -> (x <=? y)%float = false.
Proof. unfold NaN. intros H. rewrite leb_spec, H. reflexivity. Qed.

(** [x <= y] is the negation of [y < x] away from NaN. *)
Lemma leb_iff_not_ltb x y :
  ~ NaN x -> ~ NaN y -> (x <=? y)%float = negb (y <? x)%float.
Proof.
  intros Hx Hy. rewrite leb_spec, ltb_spec. unfold SFleb, SFltb.
  rewrite (SFcompare_antisym (Prim2SF x) (Prim2SF y)).
  destruct (compare_total x y Hx Hy) as [c ->]. destruct c; reflexivity.
Qed.

Lemma ltb_leb_false x y : (x <? y)%float = true -> (y <=? x)%float = false.
Proof.
  rewrite leb_spec, ltb_spec. unfold SFleb, SFltb.
  rewrite (SFcompare_antisym (Prim2SF x) (Prim2SF y)).
  destruct (SFcompare (Prim2SF x) (Prim2SF y)) as [[]|]; simpl; congruence.
Qed.

Lemma NaN_leb_r x y : NaN y -> (x <=? y)%float = false.
Proof.
  unfold NaN. intros H. rewrite leb_spec, H. unfold SFleb.
  destruct (Prim2SF x); reflexivity.
Qed.

(** *** Rounding stays below a bound on its grid *)

Lemma shifted_1 a : shifted 1 a (shr_1 a).
Proof.
  destruct a as [m r s]. unfold shifted. cbn [shr_m shr_r shr_s]. intros Hm.
  change (2 ^ 1) with 2.
  destruct m as [|p|p]; [| |lia].
  - cbn. split; [reflexivity|]. now rewrite orb_false_r.
  - destruct p as [p|p|]; cbn [shr_1 shr_m shr_r shr_s].
    + rewrite Pos2Z.inj_xI. split.
      * apply (Z.div_unique _ _ _ 1); lia.
      * replace ((2 * Z.pos p + 1) mod 2) with 1
          by (apply (Z.mod_unique _ _ (Z.pos p)); lia).
        cbn. now rewrite orb_true_r.
    + rewrite Pos2Z.inj_xO. split.
      * apply (Z.div_unique _ _ _ 0); lia.
      * replace ((2 * Z.pos p) mod 2) with 0
          by (apply (Z.mod_unique _ _ (Z.pos p)); lia).
        cbn. now rewrite orb_false_r.
    + cbn. split; [reflexivity|]. now rewrite orb_true_r.
Qed.

Lemma shifted_trans n k a b c :
  0 <= n -> 0 <= k -> shifted n a b -> shifted k b c -> shifted (n + k) a c.
Proof.
  unfold shifted. intros Hn Hk Hab Hbc Ha.
  destruct (Hab Ha) as [Hm1 Hr1].
  assert (Hb : 0 <= shr_m b) by (rewrite Hm1; apply Z.div_pos; lia).
  destruct (Hbc Hb) as [Hm2 Hr2].
  assert (Hp1 : 0 < 2 ^ n) by (apply Z.pow_pos_nonneg; lia).
  assert (Hp2 : 0 < 2 ^ k) by (apply Z.pow_pos_nonneg; lia).
  rewrite Z.pow_add_r by assumption. split.
  - rewrite Hm2, Hm1. apply Z.div_div; lia.
  - rewrite Hr2, Hr1, Hm1. rewrite <- !orb_assoc. f_equal. f_equal.
    rewrite Z.rem_mul_r by lia.
    pose proof (Z.mod_pos_bound (shr_m a) (2 ^ n) Hp1).
    pose proof (Z.mod_pos_bound (shr_m a / 2 ^ n) (2 ^ k) Hp2).
    destruct (Z.eqb_spec (shr_m a mod 2 ^ n) 0) as [E1|E1];
      destruct (Z.eqb_spec ((shr_m a / 2 ^ n) mod 2 ^ k) 0) as [E2|E2];
      destruct (Z.eqb_spec (shr_m a mod 2 ^ n + 2 ^ n * ((shr_m a / 2 ^ n) mod 2 ^ k)) 0)
        as [E3|E3]; cbn; try reflexivity; exfalso; nia.
Qed.

Lemma shifted_iter p : forall a, shifted (Z.pos p) a (iter_pos shr_1 p a).
Proof.
  induction p as [p IH|p IH|]; intros a; cbn [iter_pos].
  - rewrite Pos2Z.inj_xI.
    replace (2 * Z.pos p + 1) with (1 + (Z.pos p + Z.pos p)) by lia.
    apply (shifted_trans 1 _ a (shr_1 a)); [lia|lia|apply shifted_1|].
    apply (shifted_trans _ _ _ (iter_pos shr_1 p (shr_1 a))); try lia; apply IH.
  - rewrite Pos2Z.inj_xO.
    replace (2 * Z.pos p) with (Z.pos p + Z.pos p) by lia.
    apply (shifted_trans _ _ _ (iter_pos shr_1 p a)); try lia; apply IH.
  - apply shifted_1.
Qed.

Lemma shr_exact m e n :
  0 <= m ->
  let k := Z.max n 0 in
  let '(mrs, e') := shr (Build_shr_record m false false) e n in
  e' = e + k /\ shr_m mrs = m / 2 ^ k
  /\ (m mod 2 ^ k = 0 -> loc_of_shr_record mrs = loc_Exact).
Proof.
  intros Hm. cbv zeta. unfold shr. destruct n as [|p|p].
  - cbn. rewrite Z.div_1_r. repeat split; lia.
  - replace (Z.max (Z.pos p) 0) with (Z.pos p) by lia.
    destruct (shifted_iter p (Build_shr_record m false false) Hm) as [H1 H2].
    cbn [shr_m shr_r shr_s] in H1, H2. repeat split; [exact H1|].
    intros Hz. rewrite Hz in H2. cbn in H2.
    destruct (iter_pos shr_1 p _) as [m' r' s']. cbn in H2 |- *.
    destruct r', s'; cbn in H2; try discriminate H2. reflexivity.
  - cbn. rewrite Z.div_1_r. repeat split; lia.
Qed.

Lemma round_nearest_even_bounds q l :
  q <= round_nearest_even q l <= q + 1
  /\ (l = loc_Exact -> round_nearest_even q l = q).
Proof.
  unfold round_nearest_even.
  destruct l as [|[]]; try destruct (IntDef.Z.even q);
    (split; [lia|]); (reflexivity || discriminate).
Qed.

(** Rounding a positive integer [mx] (at exponent [ex]) never exceeds a
    bound [Bz] that lies on the grid it rounds to. *)
Lemma binary_round_aux_le sx mx ex Bz c :
  0 < mx -> mx <= Bz ->
  Bz = c * 2 ^ Z.max (fexp prec emax (Zdigits2 mx + ex) - ex) 0 ->
  let r := binary_round_aux prec emax sx mx ex loc_Exact in
  r = S754_zero sx
  \/ exists m e, ex <= e /\ Z.pos m * 2 ^ (e - ex) <= Bz
                 /\ (r = S754_finite sx m e \/ (971 < e /\ r = S754_infinity sx)).
Proof.
  intros Hmx HB Hgrid. cbv zeta. unfold binary_round_aux, shr_fexp.
  change (shr_record_of_loc mx loc_Exact) with (Build_shr_record mx false false).
  set (n1 := fexp prec emax (Zdigits2 mx + ex) - ex) in *.
  pose proof (shr_exact mx ex n1 ltac:(lia)) as H1. cbv zeta in H1.
  destruct (shr (Build_shr_record mx false false) ex n1) as [mrs1 e1].
  destruct H1 as (He1 & Hq & Hex).
  set (k1 := Z.max n1 0) in *.
  assert (Hk1 : 0 <= k1) by lia.
  assert (Hp1 : 0 < 2 ^ k1) by (apply Z.pow_pos_nonneg; lia).
  set (m1 := round_nearest_even (shr_m mrs1) (loc_of_shr_record mrs1)).
  destruct (round_nearest_even_bounds (shr_m mrs1) (loc_of_shr_record mrs1)) as [Hb Hexact].
  fold m1 in Hb, Hexact.
  assert (Hm1 : 0 <= m1 /\ m1 * 2 ^ k1 <= Bz).
  { pose proof (Z.div_mod mx (2 ^ k1) ltac:(lia)) as Hdm.
    pose proof (Z.mod_pos_bound mx (2 ^ k1) Hp1) as Hmod.
    assert (0 <= mx / 2 ^ k1) by (apply Z.div_pos; lia).
    split; [lia|].
    destruct (Z.eq_dec (mx mod 2 ^ k1) 0) as [Hz|Hnz].
    - rewrite (Hexact (Hex Hz)), Hq. nia.
    - assert (mx / 2 ^ k1 < c) by nia. nia. }
  change (shr_record_of_loc m1 loc_Exact) with (Build_shr_record m1 false false).
  set (n2 := fexp prec emax (Zdigits2 m1 + e1) - e1) in *.
  pose proof (shr_exact m1 e1 n2 ltac:(lia)) as H2. cbv zeta in H2.
  destruct (shr (Build_shr_record m1 false false) e1 n2) as [mrs2 e2].
  destruct H2 as (He2 & Hq2 & _).
  set (k2 := Z.max n2 0) in *.
  assert (Hk2 : 0 <= k2) by lia.
  assert (Hp2 : 0 < 2 ^ k2) by (apply Z.pow_pos_nonneg; lia).
  destruct (shr_m mrs2) as [|m2|m2] eqn:Hm2.
  - now left.
  - right. exists m2, e2. split; [lia|]. split.
    + replace (e2 - ex) with (k2 + k1) by lia. rewrite Z.pow_add_r by lia.
      pose proof (Z.div_mod m1 (2 ^ k2) ltac:(lia)) as Hdm.
      pose proof (Z.mod_pos_bound m1 (2 ^ k2) Hp2) as Hmod.
      rewrite <- Hq2 in Hdm. nia.
    + destruct (Z.leb_spec e2 (emax - prec)); [now left|right].
      split; [|reflexivity]. change (emax - prec) with 971 in *. lia.
  - exfalso. assert (0 <= m1 / 2 ^ k2) by (apply Z.div_pos; lia). lia.
Qed.

Lemma digits2_bounds m :
  2 ^ (Z.pos (digits2_pos m) - 1) <= Z.pos m < 2 ^ Z.pos (digits2_pos m).
Proof.
  induction m as [m IH|m IH|]; cbn [digits2_pos].
  - rewrite Pos2Z.inj_succ.
    replace (Z.succ (Z.pos (digits2_pos m)) - 1)
      with (Z.succ (Z.pos (digits2_pos m) - 1)) by lia.
    rewrite !Z.pow_succ_r by lia. lia.
  - rewrite Pos2Z.inj_succ.
    replace (Z.succ (Z.pos (digits2_pos m)) - 1)
      with (Z.succ (Z.pos (digits2_pos m) - 1)) by lia.
    rewrite !Z.pow_succ_r by lia. lia.
  - cbn. lia.
Qed.

Lemma pow2_pos k : 0 <= k -> 0 < 2 ^ k.
Proof. intros. apply Z.pow_pos_nonneg; lia. Qed.

Lemma pow2_split a b : 0 <= a -> 0 <= b -> 2 ^ (a + b) = 2 ^ a * 2 ^ b.
Proof. intros. apply Z.pow_add_r; assumption. Qed.

Lemma pow2_le a b : 0 <= a -> 2 ^ a <= 2 ^ b -> a <= b.
Proof.
  intros Ha H. destruct (Z.le_gt_cases a b) as [|Hlt]; [assumption|].
  destruct (Z.lt_ge_cases b 0) as [Hb|Hb].
  - rewrite (Z.pow_neg_r 2 b Hb) in H. pose proof (pow2_pos a Ha). lia.
  - pose proof (Z.pow_lt_mono_r 2 b a ltac:(lia) ltac:(lia) Hlt). lia.
Qed.

Lemma pow2_lt a b : 0 <= b -> 2 ^ a < 2 ^ b -> a < b.
Proof.
  intros Hb H. destruct (Z.lt_ge_cases a b) as [|Hge]; [assumption|].
  pose proof (Z.pow_le_mono_r 2 b a ltac:(lia) Hge). lia.
Qed.

Lemma iter_xO m d : Z.pos (Pos.iter xO m d) = Z.pos m * 2 ^ Z.pos d.
Proof.
  induction d as [|d IH] using Pos.peano_ind.
  - cbn. lia.
  - rewrite Pos.iter_succ, Pos2Z.inj_succ, Z.pow_succ_r by lia.
    change (Z.pos (Pos.iter xO m d)~0) with (2 * Z.pos (Pos.iter xO m d)).
    rewrite IH. lia.
Qed.

Lemma shl_align_value mx ex ex' :
  let '(mz, ez) := shl_align mx ex ex' in
  ez = Z.min ex ex' /\ Z.pos mz = Z.pos mx * 2 ^ (ex - ez).
Proof.
  unfold shl_align. destruct (ex' - ex) as [|d|d] eqn:E.
  - replace (Z.min ex ex') with ex by lia. rewrite Z.sub_diag. split; lia.
  - replace (Z.min ex ex') with ex by lia. rewrite Z.sub_diag. split; lia.
  - replace (Z.min ex ex') with ex' by lia. split; [reflexivity|].
    rewrite iter_xO. replace (ex - ex') with (Z.pos d) by lia. reflexivity.
Qed.

Lemma fexp_eq e : fexp prec emax e = Z.max (e - 53) (-1074).
Proof. reflexivity. Qed.

Lemma binary_round_half sx mx ex :
  ex <= -1 -> Z.pos mx <= 2 ^ (-1 - ex) ->
  half_bounded (binary_round prec emax sx mx ex).
Proof.
  intros Hex Hmx. unfold binary_round.
  pose proof (shl_align_value mx ex (fexp prec emax (Z.pos (digits2_pos mx) + ex))) as Hs.
  destruct (shl_align mx ex _) as [mz ez]. destruct Hs as [Hez Hmz].
  assert (Hez' : ez <= ex) by lia.
  assert (Hb : Z.pos mz <= 2 ^ (-1 - ez)).
  { rewrite Hmz. replace (-1 - ez) with ((-1 - ex) + (ex - ez)) by lia.
    rewrite pow2_split by lia. pose proof (pow2_pos (ex - ez) ltac:(lia)). nia. }
  pose proof (digits2_bounds mz) as [Hd _].
  assert (Hdig : Z.pos (digits2_pos mz) + ez <= 0).
  { assert (2 ^ (Z.pos (digits2_pos mz) - 1) <= 2 ^ (-1 - ez)) by lia.
    apply pow2_le in H; lia. }
  set (k := Z.max (fexp prec emax (Zdigits2 (Z.pos mz) + ez) - ez) 0).
  assert (Hk : 0 <= k <= -1 - ez).
  { unfold k. cbn [Zdigits2]. rewrite fexp_eq. lia. }
  destruct (binary_round_aux_le sx (Z.pos mz) ez (2 ^ (-1 - ez)) (2 ^ (-1 - ez - k))
              ltac:(lia) Hb) as [->|(m & e & He & Hv & [->|[Hbig _]])].
  - fold k. rewrite <- pow2_split by lia. f_equal. lia.
  - exact I.
  - cbn [half_bounded].
    assert (He1 : e <= -1).
    { assert (2 ^ (e - ez) <= 2 ^ (-1 - ez)).
      { pose proof (pow2_pos (e - ez) ltac:(lia)). nia. }
      apply pow2_le in H; lia. }
    split; [exact He1|].
    replace (-1 - ez) with ((-1 - e) + (e - ez)) in Hv by lia.
    rewrite pow2_split in Hv by lia.
    pose proof (pow2_pos (e - ez) ltac:(lia)). nia.
  - exfalso.
    assert (2 ^ (e - ez) <= 2 ^ (-1 - ez)).
    { pose proof (pow2_pos (e - ez) ltac:(lia)). nia. }
    apply pow2_le in H; lia.
Qed.

Lemma sub_half m e :
  e <= -53 -> Z.pos m < 2 ^ (- e) ->
  half_bounded (SF64sub (S754_finite false m e) (S754_finite false 4503599627370496 (-53))).
Proof.
  intros He Hm. unfold SF64sub, SFsub.
  change (IntDef.Z.min e (-53)) with (Z.min e (-53)).
  replace (Z.min e (-53)) with e by lia. cbv zeta.
  pose proof (shl_align_value m e e) as H1.
  destruct (shl_align m e e) as [m1 e1]. destruct H1 as [H1e H1].
  replace e1 with e in H1 by lia. rewrite Z.sub_diag in H1. cbn [fst].
  pose proof (shl_align_value 4503599627370496 (-53) e) as H2.
  destruct (shl_align 4503599627370496 (-53) e) as [m2 e2]. destruct H2 as [H2e H2].
  replace e2 with e in H2 by lia. cbn [fst cond_Zopp].
  assert (H2' : Z.pos m2 = 2 ^ (-1 - e)).
  { rewrite H2. change (Z.pos 4503599627370496) with (2 ^ 52).
    rewrite <- pow2_split by lia. f_equal. lia. }
  assert (Hdouble : 2 ^ (- e) = 2 * 2 ^ (-1 - e)).
  { replace (- e) with (1 + (-1 - e)) by lia. rewrite pow2_split by lia. reflexivity. }
  unfold binary_normalize.
  destruct (Z.pos m1 - Z.pos m2) as [|n|n] eqn:En.
  - exact I.
  - apply binary_round_half; lia.
  - apply binary_round_half; lia.
Qed.

Lemma mul_ten s mt et :
  et <= -1 -> Z.pos mt <= 2 ^ (-1 - et) ->
  ten_bounded (SF64mul (S754_finite s mt et) (S754_finite false 5629499534213120 (-48))).
Proof.
  intros Het Hmt. unfold SF64mul, SFmul.
  set (mx := Z.pos (mt * 5629499534213120)). set (ex := et + -48).
  assert (Hmx : mx = Z.pos mt * (5 * 2 ^ 50)) by (unfold mx; rewrite Pos2Z.inj_mul; reflexivity).
  assert (Hex : ex <= -49) by (unfold ex; lia).
  assert (HB : mx <= 5 * 2 ^ (1 - ex)).
  { rewrite Hmx. replace (1 - ex) with ((-1 - et) + 50) by (unfold ex; lia).
    rewrite pow2_split by lia. pose proof (pow2_pos 50 ltac:(lia)). nia. }
  assert (Hlt : 5 * 2 ^ (1 - ex) < 2 ^ (4 - ex)).
  { replace (4 - ex) with (3 + (1 - ex)) by lia. rewrite pow2_split by lia.
    pose proof (pow2_pos (1 - ex) ltac:(lia)). change (2 ^ 3) with 8. lia. }
  assert (Hdig : Zdigits2 mx + ex <= 4).
  { unfold mx at 1. cbn [Zdigits2].
    pose proof (digits2_bounds (mt * 5629499534213120)) as [Hd _]. fold mx in Hd.
    assert (2 ^ (Z.pos (digits2_pos (mt * 5629499534213120)) - 1) < 2 ^ (4 - ex)) by lia.
    apply pow2_lt in H; lia. }
  set (k := Z.max (fexp prec emax (Zdigits2 mx + ex) - ex) 0).
  assert (Hk : 0 <= k <= 1 - ex) by (unfold k; rewrite fexp_eq; lia).
  destruct (binary_round_aux_le (xorb s false) mx ex (5 * 2 ^ (1 - ex))
              (5 * 2 ^ (1 - ex - k)) ltac:(unfold mx; lia) HB)
    as [->|(m & e & He & Hv & [->|[Hbig _]])].
  - fold k. rewrite <- Z.mul_assoc, <- pow2_split by lia. do 2 f_equal. lia.
  - exact I.
  - exists ex. repeat split; assumption.
  - exfalso.
    assert (2 ^ (e - ex) < 2 ^ (4 - ex)).
    { pose proof (pow2_pos (e - ex) ltac:(lia)). nia. }
    apply pow2_lt in H; lia.
Qed.

Lemma cc_antisym m n :
  PosDef.Pos.compare_cont Eq n m = CompOpp (PosDef.Pos.compare_cont Eq m n).
Proof. symmetry. apply (Pos.compare_cont_antisym m n Eq). Qed.

Lemma cc_le m n : Z.pos m <= Z.pos n -> PosDef.Pos.compare_cont Eq m n <> Gt.
Proof.
  intros H. change (PosDef.Pos.compare_cont Eq m n) with (Pos.compare m n).
  rewrite Pos.compare_gt_iff. lia.
Qed.

Lemma Zcompare_opp a b : IntDef.Z.compare b a = CompOpp (IntDef.Z.compare a b).
Proof. apply (Z.compare_antisym a b). Qed.

Lemma ten_compare u :
  ten_bounded u -> valid_binary u = true ->
  SFleb u ten = true /\ SFleb minus_ten u = true.
Proof.
  destruct u as [s|s| |s m e]; cbn [ten_bounded]; try contradiction.
  - intros _ _. split; reflexivity.
  - intros (ex & Hex & Hex49 & Hv) Hvalid.
    cbn [valid_binary] in Hvalid. unfold bounded, canonical_mantissa in Hvalid.
    apply andb_true_iff in Hvalid as [Hcan _]. apply Z.eqb_eq in Hcan.
    rewrite fexp_eq in Hcan.
    pose proof (digits2_bounds m) as [Hd _].
    assert (He : e <= -49).
    { destruct (Z.le_gt_cases e (-49)) as [|Hgt]; [assumption|exfalso].
      assert (Hd53 : Z.pos (digits2_pos m) = 53) by lia.
      rewrite Hd53 in Hd. change (2 ^ (53 - 1)) with (2 ^ 52) in Hd.
      assert (H1 : 2 ^ (4 - ex) <= Z.pos m * 2 ^ (e - ex)).
      { replace (4 - ex) with (52 + (-48 - ex)) by lia. rewrite pow2_split by lia.
        assert (2 ^ (-48 - ex) <= 2 ^ (e - ex)) by (apply Z.pow_le_mono_r; lia).
        pose proof (pow2_pos (-48 - ex) ltac:(lia)). pose proof (pow2_pos 52 ltac:(lia)).
        nia. }
      assert (H2 : 5 * 2 ^ (1 - ex) < 2 ^ (4 - ex)).
      { replace (4 - ex) with (3 + (1 - ex)) by lia. rewrite pow2_split by lia.
        pose proof (pow2_pos (1 - ex) ltac:(lia)). change (2 ^ 3) with 8. lia. }
      lia. }
    assert (Hm : e = -49 -> Z.pos m <= Z.pos 5629499534213120).
    { intros ->. change (Z.pos 5629499534213120) with (5 * 2 ^ 50).
      replace (1 - ex) with (50 + (-49 - ex)) in Hv by lia.
      rewrite pow2_split in Hv by lia.
      pose proof (pow2_pos (-49 - ex) ltac:(lia)). nia. }
    clear Hv Hd Hcan Hex Hex49 ex.
    unfold SFleb, ten, minus_ten.
    set (M := 5629499534213120%positive) in *.
    unfold SFcompare.
    rewrite (Zcompare_opp e (-49)), (cc_antisym m M).
    destruct (IntDef.Z.compare e (-49)) eqn:Ec.
    + apply Z.compare_eq_iff in Ec. specialize (Hm Ec).
      pose proof (cc_le _ _ Hm) as Hc.
      destruct s; destruct (PosDef.Pos.compare_cont Eq m M);
        try (exfalso; apply Hc; reflexivity); split; reflexivity.
    + destruct s; split; reflexivity.
    + apply Z.compare_gt_iff in Ec. exfalso. lia.
Qed.

Lemma Prim2SF_half : Prim2SF 0.5 = S754_finite false 4503599627370496 (-53).
Proof. reflexivity. Qed.

Lemma Prim2SF_twenty : Prim2SF 20 = S754_finite false 5629499534213120 (-48).
Proof. reflexivity. Qed.

Lemma Prim2SF_ten : Prim2SF 10 = ten.
Proof. reflexivity. Qed.

Lemma Prim2SF_minus_ten : Prim2SF (-10) = minus_ten.
Proof. reflexivity. Qed.

Lemma unit_interval r :
  (0 <=? r)%float = true -> (r <? 1)%float = true ->
  (exists s, Prim2SF r = S754_zero s)
  \/ exists m e, Prim2SF r = S754_finite false m e /\ e <= -53 /\ Z.pos m < 2 ^ (- e).
Proof.
  rewrite leb_spec, ltb_spec.
  change (Prim2SF 0) with (S754_zero false).
  change (Prim2SF 1) with (S754_finite false 4503599627370496 (-52)).
  pose proof (Prim2SF_valid r) as Hv.
  destruct (Prim2SF r) as [s|s| |s m e].
  - intros _ _. left. now exists s.
  - destruct s; cbn; discriminate.
  - cbn. discriminate.
  - intros H0 H1. right. exists m, e.
    assert (s = false) by (destruct s; [discriminate H0|reflexivity]). subst s.
    cbn [valid_binary] in Hv. unfold bounded, canonical_mantissa in Hv.
    apply andb_true_iff in Hv as [Hcan _]. apply Z.eqb_eq in Hcan.
    rewrite fexp_eq in Hcan.
    pose proof (digits2_bounds m) as [Hlo Hhi].
    set (M := 4503599627370496%positive) in *.
    unfold SFltb, SFcompare in H1.
    destruct (IntDef.Z.compare e (-52)) eqn:Ec; try discriminate H1.
    + apply Z.compare_eq_iff in Ec. exfalso.
      assert (Hd : Z.pos (digits2_pos m) = 53) by lia.
      rewrite Hd in Hlo. change (2 ^ (53 - 1)) with (Z.pos M) in Hlo.
      assert (Hc : Pos.compare m M = Lt).
      { change (Pos.compare m M) with (PosDef.Pos.compare_cont Eq m M).
        destruct (PosDef.Pos.compare_cont Eq m M); congruence. }
      pose proof (Pos2Z.pos_lt_pos m M Hc). lia.
    + assert (He : e < -52) by exact Ec.
      split; [reflexivity|]. split; [lia|].
      assert (2 ^ Z.pos (digits2_pos m) <= 2 ^ (- e))
        by (apply Z.pow_le_mono_r; lia).
      lia.
Qed.

Lemma spawn_range r :
  (0 <=? r)%float = true -> (r <? 1)%float = true ->
  (-10 <=? (r - 0.5) * 20)%float = true /\ ((r - 0.5) * 20 <=? 10)%float = true.
Proof.
  intros H0 H1.
  pose proof (Prim2SF_valid (r - 0.5)) as Vt.
  pose proof (Prim2SF_valid ((r - 0.5) * 20)) as Vu.
  rewrite !leb_spec, Prim2SF_ten, Prim2SF_minus_ten.
  rewrite mul_spec in Vu |- *. rewrite sub_spec in Vt, Vu |- *.
  rewrite Prim2SF_half in *. rewrite Prim2SF_twenty in *.
  assert (Ht : half_bounded (SF64sub (Prim2SF r) (S754_finite false 4503599627370496 (-53)))).
  { destruct (unit_interval r H0 H1) as [[s ->]|(m & e & -> & He & Hm)].
    - cbn. split; [lia|]. change (2 ^ (-1 - -53)) with 4503599627370496. lia.
    - now apply sub_half. }
  set (t := SF64sub (Prim2SF r) (S754_finite false 4503599627370496 (-53))) in *.
  assert (Hu : ten_bounded (SF64mul t (S754_finite false 5629499534213120 (-48)))).
  { destruct t as [s|s| |s m e]; cbn [half_bounded] in Ht; try contradiction.
    - exact I.
    - destruct Ht. now apply mul_ten. }
  destruct (ten_compare _ Hu Vu) as [Ha Hb]. split; assumption.
Qed.

End Binary64Facts.

(** ** The lobby *)

Section LobbyFacts.

Import Binary64 Lobby.

(** *** The log *)

Lemma fold_send {A} (skip : A -> bool) (dst : A -> Z) (msg : A -> event) l s :
  fold_left (fun acc x => if skip x then acc else send (dst x) (msg x) acc) l s
  = {| clients := clients s; nextId := nextId s; draws := draws s;
       wire := wire s ++ map (fun x => (dst x, msg x))
                           (filter (fun x => negb (skip x)) l) |}.
Proof.
  revert s. induction l as [|x l IH]; intros s; simpl.
  - rewrite app_nil_r. destruct s; reflexivity.
  - rewrite IH. destruct (skip x); simpl; [reflexivity|].
    rewrite <- app_assoc. reflexivity.
Qed.

Lemma broadcast_eq data s :
  broadcast data s
  = {| clients := clients s; nextId := nextId s; draws := draws s;
       wire := wire s ++ map (fun id => (id, data)) (ids (clients s)) |}.
Proof.
  unfold broadcast.
  etransitivity;
    [exact (fold_send (fun _ => false) fst (fun _ => data) (clients s) s)|].
  f_equal. f_equal. unfold ids. rewrite map_map. f_equal.
  induction (clients s) as [|x l IH]; [reflexivity|].
  cbn [filter negb]. f_equal. exact IH.
Qed.

Lemma broadcastExcept_eq exceptId data s :
  broadcastExcept exceptId data s
  = {| clients := clients s; nextId := nextId s; draws := draws s;
       wire := wire s ++ map (fun id => (id, data))
                           (filter (fun id => negb (id =? exceptId)) (ids (clients s))) |}.
Proof.
  unfold broadcastExcept.
  etransitivity;
    [exact (fold_send (fun kc => fst kc =? exceptId) fst (fun _ => data) (clients s) s)|].
  f_equal. f_equal. unfold ids.
  induction (clients s) as [|x l IH]; simpl; [reflexivity|].
  destruct (fst x =? exceptId); simpl; now rewrite IH.
Qed.

Lemma catch_up_eq playerId s :
  catch_up playerId s
  = {| clients := clients s; nextId := nextId s; draws := draws s;
       wire := wire s ++ map (fun kc => (playerId, catch_up_message kc))
                           (filter (in_snapshot playerId) (clients s)) |}.
Proof.
  unfold catch_up.
  exact (fold_send (fun kc => (fst kc =? playerId) || falsy (name (snd kc)))
                   (fun _ => playerId) catch_up_message (clients s) s).
Qed.

Lemma emitted_app s s' w : wire s' = wire s ++ w -> emitted s s' = w.
Proof.
  intros H. unfold emitted. rewrite H, skipn_app, skipn_all, Nat.sub_diag.
  reflexivity.
Qed.

Lemma received_app id w1 w2 : received id (w1 ++ w2) = received id w1 ++ received id w2.
Proof. unfold received. now rewrite filter_app, map_app. Qed.

Lemma received_all id data l :
  received id (map (fun k => (k, data)) l)
  = map (fun _ => data) (filter (fun k => k =? id) l).
Proof.
  unfold received. induction l as [|k l IH]; simpl; [reflexivity|].
  destruct (k =? id); simpl; now rewrite IH.
Qed.

Lemma filter_eqb_nodup id l :
  NoDup l -> filter (fun k => k =? id) l = if in_dec Z.eq_dec id l then [id] else [].
Proof.
  induction 1 as [|k l Hk Hnd IH]; simpl; [reflexivity|].
  destruct (Z.eqb_spec k id) as [->|Hne].
  - destruct (Z.eq_dec id id) as [_|]; [|contradiction].
    rewrite IH. destruct (in_dec Z.eq_dec id l); [contradiction|reflexivity].
  - rewrite IH. destruct (Z.eq_dec k id); [contradiction|].
    destruct (in_dec Z.eq_dec id l); reflexivity.
Qed.

Lemma received_broadcast id data l :
  NoDup l -> In id l -> received id (map (fun k => (k, data)) l) = [data].
Proof.
  intros Hnd Hin. rewrite received_all, filter_eqb_nodup by assumption.
  destruct (in_dec Z.eq_dec id l); [reflexivity|contradiction].
Qed.

Lemma received_to id dst (l : list event) :
  received id (map (fun e => (dst, e)) l) = if dst =? id then l else [].
Proof.
  unfold received. induction l as [|e l IH]; simpl.
  - destruct (dst =? id); reflexivity.
  - destruct (dst =? id) eqn:E; simpl; rewrite IH; reflexivity.
Qed.

(** *** The map *)

Lemma ids_alter f cs id : ids (alter f cs id) = ids cs.
Proof.
  unfold ids. induction cs as [|[k c] cs IH]; simpl; [reflexivity|].
  destruct (k =? id); simpl; [reflexivity|now rewrite IH].
Qed.

Lemma get_alter_eq f cs id : get (alter f cs id) id = option_map f (get cs id).
Proof.
  induction cs as [|[k c] cs IH]; simpl; [reflexivity|].
  destruct (k =? id) eqn:E; simpl; rewrite E; [reflexivity|exact IH].
Qed.

Lemma get_alter_ne f cs id k : id <> k -> get (alter f cs id) k = get cs k.
Proof.
  intros Hne. induction cs as [|[k0 c] cs IH]; simpl; [reflexivity|].
  destruct (Z.eqb_spec k0 id) as [->|H0]; simpl.
  - destruct (Z.eqb_spec id k); [contradiction|reflexivity].
  - destruct (k0 =? k); [reflexivity|exact IH].
Qed.

Lemma get_In cs id c : get cs id = Some c -> In (id, c) cs.
Proof.
  induction cs as [|[k c0] cs IH]; simpl; [discriminate|].
  destruct (Z.eqb_spec k id) as [->|Hne].
  - intros [= ->]. now left.
  - intros H. right. now apply IH.
Qed.

Lemma get_ids cs id c : get cs id = Some c -> In id (ids cs).
Proof. intros H. apply get_In in H. apply (in_map fst) in H. exact H. Qed.

Lemma In_get cs id c : NoDup (ids cs) -> In (id, c) cs -> get cs id = Some c.
Proof.
  induction cs as [|[k c0] cs IH]; simpl; [contradiction|].
  intros Hnd [H|H].
  - injection H as -> ->. now rewrite Z.eqb_refl.
  - inversion Hnd as [|? ? Hk Hnd']; subst.
    destruct (Z.eqb_spec k id) as [->|Hne].
    + exfalso. apply Hk. apply (in_map fst) in H. exact H.
    + now apply IH.
Qed.

Lemma ids_delete cs id : ids (delete cs id) = filter (fun k => negb (k =? id)) (ids cs).
Proof.
  unfold ids, delete. induction cs as [|[k c] cs IH]; simpl; [reflexivity|].
  destruct (k =? id); simpl; now rewrite IH.
Qed.

Lemma get_delete_eq cs id : get (delete cs id) id = None.
Proof.
  unfold delete. induction cs as [|[k c] cs IH]; simpl; [reflexivity|].
  destruct (k =? id) eqn:E; simpl; [exact IH|]. rewrite E. exact IH.
Qed.

Lemma get_delete_ne cs id k : id <> k -> get (delete cs id) k = get cs k.
Proof.
  intros Hne. unfold delete. induction cs as [|[k0 c] cs IH]; simpl; [reflexivity|].
  destruct (Z.eqb_spec k0 id) as [->|H0]; simpl.
  - destruct (Z.eqb_spec id k); [contradiction|exact IH].
  - destruct (k0 =? k); [reflexivity|exact IH].
Qed.


Lemma filter_alter_skip (P : Z * client -> bool) f cs id :
  (forall c, P (id, c) = false) -> filter P (alter f cs id) = filter P cs.
Proof.
  intros HP. induction cs as [|[k c] cs IH]; simpl; [reflexivity|].
  destruct (Z.eqb_spec k id) as [->|Hne]; simpl.
  - now rewrite !HP.
  - now rewrite IH.
Qed.

Lemma in_snapshot_self playerId c : in_snapshot playerId (playerId, c) = false.
Proof. unfold in_snapshot. simpl. now rewrite Z.eqb_refl. Qed.

Lemma init_wire playerId nm st s :
  wire (init playerId nm st s)
  = wire s
    ++ map (fun id => (id, playerJoined playerId nm st None)) (ids (clients s))
    ++ map (fun kc => (playerId, catch_up_message kc))
           (filter (in_snapshot playerId) (clients s)).
Proof.
  unfold init. rewrite catch_up_eq, broadcast_eq. cbn [wire clients with_clients].
  rewrite ids_alter, (filter_alter_skip _ _ _ _ (in_snapshot_self playerId)).
  now rewrite <- app_assoc.
Qed.

Lemma filter_catch_up_messages l :
  filter is_catch_up (map catch_up_message l) = map catch_up_message l.
Proof. induction l as [|x l IH]; simpl; [reflexivity|]. now rewrite IH. Qed.

Lemma received_catch_up id playerId l :
  received id (map (fun kc : Z * client => (playerId, catch_up_message kc)) l)
  = if playerId =? id then map catch_up_message l else [].
Proof.
  rewrite <- (received_to id playerId (map catch_up_message l)).
  now rewrite map_map.
Qed.




(** *** Numbers in the hit test *)

Lemma not_NaN_0 : ~ NaN 0%float.
Proof. unfold NaN. vm_compute. discriminate. Qed.

Lemma not_NaN_maxDist : ~ NaN maxDist.
Proof. unfold NaN. vm_compute. discriminate. Qed.

Lemma NaN_sq x : NaN x -> NaN (sq x).
Proof. intros H. apply NaN_mul. now left. Qed.

Lemma NaN_distSq origin direction ps :
  NaN (proj_of origin direction ps) -> NaN (distSq_of origin direction ps).
Proof.
  intros H. unfold distSq_of. cbv zeta.
  apply NaN_add. left. apply NaN_add. left. apply NaN_sq, NaN_sub. right.
  apply NaN_add. right. apply NaN_mul. now left.
Qed.

Lemma hit_test origin direction ps :
  hit origin direction ps
  = ((0 <=? proj_of origin direction ps) && (proj_of origin direction ps <=? maxDist)
     && (distSq_of origin direction ps <? 0.6 * 0.6))%float.
Proof.
  unfold hit. cbv zeta.
  set (p := proj_of origin direction ps). set (q := distSq_of origin direction ps).
  destruct (NaN_dec p) as [Hp|Hp].
  - rewrite (NaN_ltb_l p _ Hp), (NaN_ltb_r _ p Hp), (NaN_leb_r _ p Hp).
    cbn [orb andb]. apply NaN_ltb_l. apply NaN_distSq. exact Hp.
  - rewrite (leb_iff_not_ltb 0 p not_NaN_0 Hp).
    rewrite (leb_iff_not_ltb p maxDist Hp not_NaN_maxDist).
    destruct (p <? 0)%float, (maxDist <? p)%float; reflexivity.
Qed.

Lemma hit_needs_x origin direction ps :
  st_x ps = None -> hit origin direction ps = false.
Proof.
  intros Hx. unfold hit. cbv zeta.
  assert (Hp : NaN (proj_of origin direction ps)).
  { unfold proj_of. cbv zeta. rewrite Hx.
    apply NaN_add. left. apply NaN_add. left. apply NaN_mul. left.
    apply NaN_sub. left. apply NaN_nan. }
  rewrite (NaN_ltb_l _ _ Hp), (NaN_ltb_r _ _ Hp). cbn [orb].
  apply NaN_ltb_l, NaN_distSq, Hp.
Qed.


(** *** Hit resolution *)

Lemma find_hit_first cs playerId origin direction hitId :
  find_hit cs playerId origin direction = Some hitId ->
  exists before victim ps after,
    cs = before ++ (hitId, victim) :: after
    /\ hitId <> playerId
    /\ state victim = Some ps
    /\ hit origin direction ps = true
    /\ (forall id other ps', In (id, other) before -> id <> playerId ->
          state other = Some ps' -> hit origin direction ps' = false).
Proof.
  induction cs as [|[k c] cs IH]; simpl; [discriminate|].
  intros H.
  assert (Hrec : find_hit cs playerId origin direction = Some hitId ->
                 (k = playerId \/ forall ps', state c = Some ps' ->
                                     hit origin direction ps' = false) ->
                 exists before victim ps after,
                   (k, c) :: cs = before ++ (hitId, victim) :: after
                   /\ hitId <> playerId /\ state victim = Some ps
                   /\ hit origin direction ps = true
                   /\ (forall id other ps', In (id, other) before -> id <> playerId ->
                         state other = Some ps' -> hit origin direction ps' = false)).
  { intros Hf Hk.
    destruct (IH Hf) as (before & victim & ps & after & -> & H1 & H2 & H3 & H5).
    exists ((k, c) :: before), victim, ps, after. repeat split; try assumption.
    intros id other ps' [Hin|Hin] Hid Hst.
    - injection Hin as <- <-. destruct Hk as [Hk|Hk]; [contradiction|now apply Hk].
    - now apply (H5 id other ps'). }
  destruct (Z.eqb_spec k playerId) as [Hk|Hk].
  - apply Hrec; [exact H|now left].
  - destruct (state c) as [ps|] eqn:Hst.
    + destruct (hit origin direction ps) eqn:Hh.
      * injection H as <-. exists [], c, ps, cs.
        repeat split; try assumption; try reflexivity.
        intros ? ? ? [].
      * apply Hrec; [exact H|]. right. intros ps' [= <-]. exact Hh.
    + apply Hrec; [exact H|]. right. intros ps' [=].
Qed.

Lemma find_hit_get cs playerId origin direction hitId :
  NoDup (ids cs) ->
  find_hit cs playerId origin direction = Some hitId ->
  exists victim ps,
    get cs hitId = Some victim /\ state victim = Some ps
    /\ hit origin direction ps = true /\ hitId <> playerId.
Proof.
  intros Hnd H.
  destruct (find_hit_first _ _ _ _ _ H) as (before & victim & ps & after & E & H1 & H2 & H3 & _).
  exists victim, ps. repeat split; try assumption.
  apply In_get; [assumption|]. rewrite E. apply in_elt.
Qed.

(** The hit test reads the position only. *)
Lemma hit_set_health origin direction h ps :
  hit origin direction (set_health h ps) = hit origin direction ps.
Proof. reflexivity. Qed.

Lemma find_hit_alter_health cs playerId origin direction id victim ps h :
  get cs id = Some victim -> state victim = Some ps ->
  find_hit (alter (with_state (Some (set_health h ps))) cs id) playerId origin direction
  = find_hit cs playerId origin direction.
Proof.
  induction cs as [|[k c] cs IH]; simpl; [reflexivity|].
  destruct (Z.eqb_spec k id) as [->|Hne]; simpl.
  - intros [= ->] Hst. rewrite Hst. cbn [state with_state].
    rewrite hit_set_health. reflexivity.
  - intros Hg Hst. rewrite (IH Hg Hst). reflexivity.
Qed.

Lemma registry_ok_nonzero s id c :
  registry_ok s -> get (clients s) id = Some c -> id <> 0.
Proof.
  intros (_ & _ & Hr) Hg. apply get_ids in Hg. rewrite Forall_forall in Hr.
  specialize (Hr _ Hg). lia.
Qed.

(** The two outcomes of a shot that hits. *)
Lemma shoot_partial random s playerId origin direction hitId victim ps :
  find_hit (clients s) playerId origin direction = Some hitId ->
  hitId <> 0 ->
  get (clients s) hitId = Some victim -> state victim = Some ps ->
  (ToNumber (st_health ps) - 25 <=? 0)%float = false ->
  shoot random playerId origin direction s
  = with_clients
      (alter (with_state (Some (set_health (ToNumber (st_health ps) - 25)%float ps)))
             (clients s) hitId) s.
Proof.
  intros Hf Hz Hg Hst Hh. unfold shoot. rewrite Hf.
  destruct (Z.eqb_spec hitId 0); [contradiction|].
  rewrite Hg, Hst. cbv zeta. rewrite Hh. reflexivity.
Qed.

Lemma shoot_kill random s playerId origin direction hitId victim ps :
  find_hit (clients s) playerId origin direction = Some hitId ->
  hitId <> 0 ->
  get (clients s) hitId = Some victim -> state victim = Some ps ->
  (ToNumber (st_health ps) - 25 <=? 0)%float = true ->
  let ps' := respawned random (draws s) ps in
  let cs1 := alter (with_state (Some (set_health (ToNumber (st_health ps) - 25)%float ps)))
                   (clients s) hitId in
  let cs2 := alter incr_kills cs1 playerId in
  let cs3 := alter incr_deaths cs2 hitId in
  let cs4 := alter (with_state (Some ps')) cs3 hitId in
  shoot random playerId origin direction s
  = {| clients := cs4; nextId := nextId s; draws := S (S (draws s));
       wire := wire s
               ++ map (fun k => (k, playerKilled playerId hitId)) (ids (clients s))
               ++ map (fun k => (k, update hitId (Some ps'))) (ids (clients s)) |}.
Proof.
  intros Hf Hz Hg Hst Hh. cbv zeta. unfold shoot. rewrite Hf.
  destruct (Z.eqb_spec hitId 0); [contradiction|].
  rewrite Hg, Hst. cbv zeta. rewrite Hh. unfold kill, next_random.
  cbn [clients nextId draws wire with_clients].
  rewrite !broadcast_eq. cbn [clients nextId draws wire with_clients].
  rewrite !ids_alter, <- app_assoc. reflexivity.
Qed.


Lemma health_step h :
  health_ok h ->
  (h - 25 <=? 0)%float = true \/ health_ok (h - 25)%float.
Proof.
  intros (k & Hk & ->).
  pose proof (below_cases 101
    (fun k => (of_Z k - 25 <=? 0)%float
              || (PrimFloat.Leibniz.eqb (of_Z k - 25)%float (of_Z (k - 25))
                  && (25 <=? k)))
    ltac:(vm_compute; reflexivity) k ltac:(lia)) as H.
  cbv beta in H. apply orb_true_iff in H as [H|H]; [now left|].
  apply andb_true_iff in H as [H1 H2]. right.
  apply FloatAxioms.Leibniz.eqb_spec in H1. apply Z.leb_le in H2.
  exists (k - 25). split; [lia|exact H1].
Qed.

Lemma state_ok_hit origin direction ps :
  state_ok (Some ps) -> hit origin direction ps = true ->
  exists h, st_health ps = Some h /\ health_ok h.
Proof.
  intros [->|H] Hh; [|exact H].
  rewrite hit_needs_x in Hh by reflexivity. discriminate.
Qed.


Lemma leb_0_of_pos x : (0 <? x)%float = true -> (x <=? 0)%float = false.
Proof. apply ltb_leb_false. Qed.

(** Every way a shot can end. *)
Lemma shoot_cases random s playerId origin direction :
  let s' := shoot random playerId origin direction s in
  s' = s
  \/ exists hitId victim ps,
       find_hit (clients s) playerId origin direction = Some hitId
       /\ hitId <> 0 /\ hitId <> playerId
       /\ get (clients s) hitId = Some victim /\ state victim = Some ps
       /\ let h := (ToNumber (st_health ps) - 25)%float in
          let cs1 := alter (with_state (Some (set_health h ps))) (clients s) hitId in
          ((h <=? 0)%float = false /\ s' = with_clients cs1 s)
          \/ ((h <=? 0)%float = true
              /\ let ps' := respawned random (draws s) ps in
                 s' = {| clients :=
                           alter (with_state (Some ps'))
                             (alter incr_deaths (alter incr_kills cs1 playerId) hitId)
                             hitId;
                         nextId := nextId s; draws := S (S (draws s));
                         wire := wire s
                           ++ map (fun k => (k, playerKilled playerId hitId)) (ids (clients s))
                           ++ map (fun k => (k, update hitId (Some ps'))) (ids (clients s)) |}).
Proof.
  cbv zeta.
  destruct (find_hit (clients s) playerId origin direction) as [hitId|] eqn:Hf;
    [|left; unfold shoot; now rewrite Hf].
  destruct (Z.eq_dec hitId 0) as [Hz|Hz];
    [left; unfold shoot; rewrite Hf, Hz; reflexivity|].
  destruct (get (clients s) hitId) as [victim|] eqn:Hg;
    [|left; unfold shoot; rewrite Hf, Hg; now destruct (hitId =? 0)].
  destruct (state victim) as [ps|] eqn:Hst;
    [|left; unfold shoot; rewrite Hf, Hg, Hst; now destruct (hitId =? 0)].
  right. exists hitId, victim, ps.
  destruct (find_hit_first _ _ _ _ _ Hf) as (_ & _ & _ & _ & _ & Hne & _).
  repeat split; try assumption.
  destruct (ToNumber (st_health ps) - 25 <=? 0)%float eqn:Hh.
  - right. split; [reflexivity|].
    exact (shoot_kill random s playerId origin direction hitId victim ps Hf Hz Hg Hst Hh).
  - left. split; [reflexivity|].
    exact (shoot_partial random s playerId origin direction hitId victim ps Hf Hz Hg Hst Hh).
Qed.


(** C7 (as stated). A hit that leaves the victim's health above 0
    writes nothing to any socket, and changes nothing but the victim's
    [health]: the log, [nextId], the identities in the registry and
    every other entry are as before, and the victim's entry differs in
    the [health] field of its state only. *)
Theorem partial_damage_is_silent
  random s playerId origin direction hitId victim ps :
  registry_ok s ->
  find_hit (clients s) playerId origin direction = Some hitId ->
  get (clients s) hitId = Some victim ->
  state victim = Some ps ->
  (0 <? ToNumber (st_health ps) - 25)%float = true ->
  let s' := handleMessage random playerId 1 (Shoot origin direction) s in
  emitted s s' = [] /\ wire s' = wire s
  /\ nextId s' = nextId s /\ draws s' = draws s
  /\ ids (clients s') = ids (clients s)
  /\ (forall k, k <> hitId -> get (clients s') k = get (clients s) k)
  /\ exists victim' ps',
       get (clients s') hitId = Some victim'
       /\ name victim' = name victim /\ kills victim' = kills victim
       /\ deaths victim' = deaths victim /\ buffer victim' = buffer victim
       /\ state victim' = Some ps'
       /\ st_x ps' = st_x ps /\ st_y ps' = st_y ps /\ st_z ps' = st_z ps
       /\ st_yaw ps' = st_yaw ps /\ st_pitch ps' = st_pitch ps
       /\ st_health ps' = Some (ToNumber (st_health ps) - 25)%float.
Proof.
  intros Hok Hf Hg Hst Hpos s'.
  pose proof (registry_ok_nonzero s hitId victim Hok Hg) as Hz.
  assert (Hs : s' = with_clients
                 (alter (with_state (Some (set_health (ToNumber (st_health ps) - 25)%float ps)))
                        (clients s) hitId) s).
  { apply shoot_partial with (victim := victim); try assumption.
    now apply leb_0_of_pos. }
  rewrite Hs. cbn [wire nextId draws clients with_clients].
  repeat split.
  - unfold emitted. cbn [wire with_clients]. apply skipn_all.
  - apply ids_alter.
  - intros k Hk. apply get_alter_ne. congruence.
  - exists (with_state (Some (set_health (ToNumber (st_health ps) - 25)%float ps)) victim),
           (set_health (ToNumber (st_health ps) - 25)%float ps).
    rewrite get_alter_eq, Hg. repeat split.
Qed.

Lemma find_hit_selects before id victim ps after playerId origin direction :
  id <> playerId -> state victim = Some ps -> hit origin direction ps = true ->
  (forall id' other ps', In (id', other) before -> id' <> playerId ->
     state other = Some ps' -> hit origin direction ps' = false) ->
  find_hit (before ++ (id, victim) :: after) playerId origin direction = Some id.
Proof.
  intros Hne Hst Hh. induction before as [|[k c] before IH]; intros Hb; cbn.
  - destruct (Z.eqb_spec id playerId); [contradiction|]. now rewrite Hst, Hh.
  - assert (IH' : find_hit (before ++ (id, victim) :: after) playerId origin direction
                  = Some id).
    { apply IH. intros id' other ps' Hin. apply (Hb id' other ps'). now right. }
    destruct (Z.eqb_spec k playerId) as [->|Hk]; [exact IH'|].
    destruct (state c) as [ps'|] eqn:Hc; [|exact IH'].
    rewrite (Hb k c ps' (or_introl eq_refl) Hk Hc). exact IH'.
Qed.

Lemma find_hit_none_iff cs playerId origin direction :
  find_hit cs playerId origin direction = None
  <-> forall id other ps, In (id, other) cs -> id <> playerId ->
        state other = Some ps -> hit origin direction ps = false.
Proof.
  induction cs as [|[k c] cs IH]; cbn [find_hit].
  - split; [intros _ id other ps []|reflexivity].
  - destruct (Z.eqb_spec k playerId) as [->|Hk].
    + rewrite IH. split.
      * intros H id other ps [[= <- <-]|Hin] Hne; [contradiction|]. now apply (H id other).
      * intros H id other ps Hin. apply (H id other ps). now right.
    + destruct (state c) as [ps0|] eqn:Hc.
      * destruct (hit origin direction ps0) eqn:Hh.
        -- split; [discriminate|]. intros H.
           rewrite (H k c ps0 (or_introl eq_refl) Hk Hc) in Hh. discriminate.
        -- rewrite IH. split.
           ++ intros H id other ps [[= <- <-]|Hin] Hne Hst; [congruence|].
              now apply (H id other).
           ++ intros H id other ps Hin. apply (H id other ps). now right.
      * rewrite IH. split.
        -- intros H id other ps [[= <- <-]|Hin] Hne Hst; [congruence|].
           now apply (H id other).
        -- intros H id other ps Hin. apply (H id other ps). now right.
Qed.

(** The selected victim is sound: what [find_hit] returns is the first
    passing entry, and a shot touches no other entry. *)
Lemma first_match_sound random s playerId origin direction :
  let s' := handleMessage random playerId 1 (Shoot origin direction) s in
  (find_hit (clients s) playerId origin direction = None -> s' = s)
  /\ (forall hitId,
        find_hit (clients s) playerId origin direction = Some hitId ->
        hitId <> playerId
        /\ (exists before victim ps after,
              clients s = before ++ (hitId, victim) :: after
              /\ state victim = Some ps /\ hit origin direction ps = true
              /\ forall id other ps', In (id, other) before -> id <> playerId ->
                    state other = Some ps' -> hit origin direction ps' = false)
        /\ (forall k, k <> hitId -> k <> playerId ->
              get (clients s') k = get (clients s) k))
  /\ (forall shooter, get (clients s) playerId = Some shooter ->
        exists shooter', get (clients s') playerId = Some shooter'
                         /\ state shooter' = state shooter
                         /\ deaths shooter' = deaths shooter)
  /\ (let at_z z := {| st_x := Some 0%float; st_y := Some 0%float; st_z := Some z;
                       st_yaw := None; st_pitch := None; st_health := Some 100%float |} in
      let player z := {| name := "p"%string; state := Some (at_z z); kills := 0;
                         deaths := 0; buffer := [] |} in
      let o := {| vx := Some 0%float; vy := Some 0%float; vz := Some 0%float |} in
      let d := {| vx := Some 0%float; vy := Some 0%float; vz := Some 1%float |} in
      find_hit [(1, player 20%float); (2, player 10%float); (3, player 0%float)] 3 o d
      = Some 1).
Proof.
  cbv zeta. change (handleMessage random playerId 1 (Shoot origin direction) s)
    with (shoot random playerId origin direction s).
  pose proof (shoot_cases random s playerId origin direction) as Hc. cbv zeta in Hc.
  repeat split.
  - intros Hn. unfold shoot. now rewrite Hn.
  - destruct (find_hit_first _ _ _ _ _ H) as (_ & _ & _ & _ & _ & Hne & _). exact Hne.
  - destruct (find_hit_first _ _ _ _ _ H) as (b & v & ps & a & E & Hne & Hst & Hh & Hb).
    exists b, v, ps, a. repeat split; assumption.
  - intros k Hk Hp.
    destruct Hc as [->|(h' & victim & ps & Hf & Hz & Hne & Hg & Hst & [[_ ->]|[_ ->]])];
      [reflexivity| |]; assert (h' = hitId) by congruence; subst h';
      cbn [clients with_clients].
    + apply get_alter_ne. congruence.
    + rewrite !get_alter_ne by congruence. reflexivity.
  - intros shooter Hsh.
    destruct Hc as [->|(hitId & victim & ps & Hf & Hz & Hne & Hg & Hst & [[_ ->]|[_ ->]])];
      cbn [clients with_clients].
    + exists shooter. repeat split. exact Hsh.
    + exists shooter. rewrite get_alter_ne by congruence. repeat split. exact Hsh.
    + exists (incr_kills shooter).
      rewrite !(get_alter_ne _ _ hitId playerId) by congruence.
      rewrite get_alter_eq, get_alter_ne, Hsh by congruence. repeat split.
Qed.

(** C5 (as stated). The loop never selects the shooter; the selected
    victim is the first entry, in map order, that is not the shooter,
    has a state and passes the hit test; and a shot changes no entry
    other than the selected victim's and the shooter's, whose state and
    death count it leaves alone. With two players on the ray, the one
    met first in map order is selected although the other is closer.
    Conversely the loop goes on past every entry that is the shooter,
    has no state or misses: the first entry that passes is selected
    whatever comes before it, and nobody is selected only when no entry
    passes. With a player off the ray met first and one on the ray met
    second, the second is selected. *)
Theorem first_match_wins random s playerId origin direction :
  let s' := handleMessage random playerId 1 (Shoot origin direction) s in
  (find_hit (clients s) playerId origin direction = None -> s' = s)
  /\ (forall hitId,
        find_hit (clients s) playerId origin direction = Some hitId ->
        hitId <> playerId
        /\ (exists before victim ps after,
              clients s = before ++ (hitId, victim) :: after
              /\ state victim = Some ps /\ hit origin direction ps = true
              /\ forall id other ps', In (id, other) before -> id <> playerId ->
                    state other = Some ps' -> hit origin direction ps' = false)
        /\ (forall k, k <> hitId -> k <> playerId ->
              get (clients s') k = get (clients s) k))
  /\ (forall shooter, get (clients s) playerId = Some shooter ->
        exists shooter', get (clients s') playerId = Some shooter'
                         /\ state shooter' = state shooter
                         /\ deaths shooter' = deaths shooter)
  /\ (let at_z z := {| st_x := Some 0%float; st_y := Some 0%float; st_z := Some z;
                       st_yaw := None; st_pitch := None; st_health := Some 100%float |} in
      let player z := {| name := "p"%string; state := Some (at_z z); kills := 0;
                         deaths := 0; buffer := [] |} in
      let o := {| vx := Some 0%float; vy := Some 0%float; vz := Some 0%float |} in
      let d := {| vx := Some 0%float; vy := Some 0%float; vz := Some 1%float |} in
      find_hit [(1, player 20%float); (2, player 10%float); (3, player 0%float)] 3 o d
      = Some 1)
  /\ (forall before id victim ps after,
        clients s = before ++ (id, victim) :: after ->
        id <> playerId -> state victim = Some ps -> hit origin direction ps = true ->
        (forall id' other ps', In (id', other) before -> id' <> playerId ->
           state other = Some ps' -> hit origin direction ps' = false) ->
        find_hit (clients s) playerId origin direction = Some id)
  /\ (find_hit (clients s) playerId origin direction = None
      <-> forall id other ps, In (id, other) (clients s) -> id <> playerId ->
            state other = Some ps -> hit origin direction ps = false)
  /\ (let at_xz x z := {| st_x := Some x; st_y := Some 0%float; st_z := Some z;
                          st_yaw := None; st_pitch := None; st_health := Some 100%float |} in
      let player x z := {| name := "p"%string; state := Some (at_xz x z); kills := 0;
                           deaths := 0; buffer := [] |} in
      let o := {| vx := Some 0%float; vy := Some 0%float; vz := Some 0%float |} in
      let d := {| vx := Some 0%float; vy := Some 0%float; vz := Some 1%float |} in
      find_hit [(1, player 5%float 10%float); (2, player 0%float 10%float);
                (3, player 0%float 0%float)] 3 o d
      = Some 2).
Proof.
  cbv zeta.
  pose proof (first_match_sound random s playerId origin direction) as Hs.
  cbv zeta in Hs. destruct Hs as (A & B & C & D).
  refine (conj A (conj B (conj C (conj D (conj _ (conj _ _)))))).
  - intros before id victim ps after E Hne Hst Hh Hb. rewrite E.
    now apply (find_hit_selects before id victim ps after).
  - apply find_hit_none_iff.
  - reflexivity.
Qed.


Lemma spawn_coord_range r :
  (0 <=? r)%float = true -> (r <? 1)%float = true ->
  (-10 <=? spawn_coord r)%float = true /\ (spawn_coord r <=? 10)%float = true.
Proof. exact (spawn_range r). Qed.

(** A shot that hits without killing leaves the next shot in the same
    situation, one step of health lower. *)
Lemma partial_step random s playerId origin direction hitId victim ps :
  find_hit (clients s) playerId origin direction = Some hitId ->
  hitId <> 0 ->
  get (clients s) hitId = Some victim -> state victim = Some ps ->
  (ToNumber (st_health ps) - 25 <=? 0)%float = false ->
  let ps' := set_health (ToNumber (st_health ps) - 25)%float ps in
  let s' := shoot random playerId origin direction s in
  find_hit (clients s') playerId origin direction = Some hitId
  /\ get (clients s') hitId = Some (with_state (Some ps') victim)
  /\ (forall k, k <> hitId -> get (clients s') k = get (clients s) k)
  /\ wire s' = wire s /\ draws s' = draws s /\ nextId s' = nextId s
  /\ ids (clients s') = ids (clients s).
Proof.
  intros Hf Hz Hg Hst Hh ps' s'. unfold s'.
  rewrite (shoot_partial random s playerId origin direction hitId victim ps Hf Hz Hg Hst Hh).
  cbn [clients wire draws nextId with_clients]. repeat split.
  - rewrite (find_hit_alter_health _ _ _ _ _ victim ps _ Hg Hst). exact Hf.
  - rewrite get_alter_eq, Hg. reflexivity.
  - intros k Hk. apply get_alter_ne. congruence.
  - apply ids_alter.
Qed.

Lemma received_two c l a b :
  NoDup l -> In c l ->
  received c (map (fun k => (k, a)) l ++ map (fun k => (k, b)) l) = [a; b].
Proof.
  intros Hnd Hin. rewrite received_app, !received_broadcast by assumption.
  reflexivity.
Qed.


(** C6 (as stated). When a hit brings the victim's health to 0 or
    below, the shooter's kills and the victim's deaths each grow by one,
    the victim's health is 100 again, its position has [y = 1.6] and
    [x], [z] in [-10, 10], and every connection is written
    [playerKilled] and then [update] with the respawned state. Four
    shots that hit a victim of health 100 write nothing for the first
    three (health 75, 50, 25) and, at the fourth, one [playerKilled] and
    one [update] to every connection, with one kill and one death
    counted and the health back at 100. *)
Theorem kill_respawns_victim
  random s playerId origin direction hitId shooter victim ps :
  registry_ok s ->
  (forall n, (0 <=? random n)%float = true /\ (random n <? 1)%float = true) ->
  get (clients s) playerId = Some shooter ->
  find_hit (clients s) playerId origin direction = Some hitId ->
  get (clients s) hitId = Some victim ->
  state victim = Some ps ->
  let shot := handleMessage random playerId 1 (Shoot origin direction) in
  let ps' := respawned random (draws s) ps in
  let killed := playerKilled playerId hitId in
  let moved := update hitId (Some ps') in
  let outcome s' :=
    (exists shooter' victim',
       get (clients s') playerId = Some shooter'
       /\ kills shooter' = kills shooter + 1 /\ deaths shooter' = deaths shooter
       /\ name shooter' = name shooter /\ state shooter' = state shooter
       /\ get (clients s') hitId = Some victim'
       /\ deaths victim' = deaths victim + 1 /\ kills victim' = kills victim
       /\ name victim' = name victim /\ state victim' = Some ps')
    /\ emitted s s' = map (fun k => (k, killed)) (ids (clients s))
                      ++ map (fun k => (k, moved)) (ids (clients s))
    /\ (forall c, In c (ids (clients s)) -> received c (emitted s s') = [killed; moved]) in
  (st_health ps' = Some 100%float /\ st_y ps' = Some 1.6%float
   /\ st_yaw ps' = st_yaw ps /\ st_pitch ps' = st_pitch ps
   /\ exists x z, st_x ps' = Some x /\ st_z ps' = Some z
        /\ (-10 <=? x)%float = true /\ (x <=? 10)%float = true
        /\ (-10 <=? z)%float = true /\ (z <=? 10)%float = true)
  /\ ((ToNumber (st_health ps) - 25 <=? 0)%float = true -> outcome (shot s))
  /\ (st_health ps = Some 100%float ->
      let s1 := shot s in let s2 := shot s1 in let s3 := shot s2 in
      emitted s s1 = [] /\ emitted s s2 = [] /\ emitted s s3 = []
      /\ option_map state (get (clients s1) hitId) = Some (Some (set_health 75%float ps))
      /\ option_map state (get (clients s2) hitId) = Some (Some (set_health 50%float ps))
      /\ option_map state (get (clients s3) hitId) = Some (Some (set_health 25%float ps))
      /\ outcome (shot s3)).
Proof.
  intros Hok Hrnd Hsh Hf Hg Hst shot ps' killed moved outcome.
  pose proof (registry_ok_nonzero s hitId victim Hok Hg) as Hz.
  destruct (find_hit_first _ _ _ _ _ Hf) as (_ & _ & _ & _ & _ & Hne & _).
  destruct Hok as (Hnd & _).
  assert (Hkill : forall s0 victim0 ps0,
            find_hit (clients s0) playerId origin direction = Some hitId ->
            get (clients s0) hitId = Some victim0 -> state victim0 = Some ps0 ->
            get (clients s0) playerId = Some shooter ->
            (ToNumber (st_health ps0) - 25 <=? 0)%float = true ->
            respawned random (draws s0) ps0 = ps' ->
            deaths victim0 = deaths victim -> kills victim0 = kills victim ->
            name victim0 = name victim ->
            wire s0 = wire s -> ids (clients s0) = ids (clients s) ->
            outcome (shot s0)).
  { intros s0 victim0 ps0 Hf0 Hg0 Hst0 Hsh0 Hh0 Hps Hd Hk Hn Hw Hi.
    unfold outcome, shot.
    change (handleMessage random playerId 1 (Shoot origin direction) s0)
      with (shoot random playerId origin direction s0).
    rewrite (shoot_kill random s0 playerId origin direction hitId victim0 ps0
               Hf0 Hz Hg0 Hst0 Hh0).
    cbv zeta. rewrite Hps, Hw, Hi. cbn [clients]. repeat split.
    - exists (incr_kills shooter), (with_state (Some ps') (incr_deaths victim0)).
      rewrite !(get_alter_ne _ _ hitId playerId) by congruence.
      rewrite !get_alter_eq, (get_alter_ne _ _ playerId hitId) by congruence.
      rewrite get_alter_eq, get_alter_ne, Hsh0, Hg0 by congruence.
      cbn. rewrite Hd, Hk, Hn. repeat split.
    - apply emitted_app. reflexivity.
    - intros c Hc. erewrite emitted_app by reflexivity.
      apply received_two; assumption. }
  split; [|split].
  - repeat split.
    exists (spawn_coord (random (draws s))), (spawn_coord (random (S (draws s)))).
    destruct (Hrnd (draws s)) as [Ha Hb]. destruct (Hrnd (S (draws s))) as [Hc Hd].
    destruct (spawn_coord_range _ Ha Hb) as [H1 H2].
    destruct (spawn_coord_range _ Hc Hd) as [H3 H4].
    repeat split; assumption.
  - intros Hh. apply (Hkill s victim ps); try assumption; reflexivity.
  - intros H100. cbv zeta.
    change (shot s) with (shoot random playerId origin direction s).
    assert (Hh1 : (ToNumber (st_health ps) - 25 <=? 0)%float = false)
      by (rewrite H100; reflexivity).
    destruct (partial_step random s playerId origin direction hitId victim ps
                Hf Hz Hg Hst Hh1) as (Hf1 & Hg1 & Ho1 & Hw1 & Hd1 & _ & Hi1).
    cbv zeta in Hg1. rewrite H100 in Hg1.
    set (s1 := shoot random playerId origin direction s) in *.
    change (shot s1) with (shoot random playerId origin direction s1).
    destruct (partial_step random s1 playerId origin direction hitId _ _
                Hf1 Hz Hg1 eq_refl eq_refl) as (Hf2 & Hg2 & Ho2 & Hw2 & Hd2 & _ & Hi2).
    cbv zeta in Hg2.
    set (s2 := shoot random playerId origin direction s1) in *.
    change (shot s2) with (shoot random playerId origin direction s2).
    destruct (partial_step random s2 playerId origin direction hitId _ _
                Hf2 Hz Hg2 eq_refl eq_refl) as (Hf3 & Hg3 & Ho3 & Hw3 & Hd3 & _ & Hi3).
    cbv zeta in Hg3.
    set (s3 := shoot random playerId origin direction s2) in *.
    assert (E1 : emitted s s1 = []) by (unfold emitted; rewrite Hw1; apply skipn_all).
    assert (E2 : emitted s s2 = [])
      by (unfold emitted; rewrite Hw2, Hw1; apply skipn_all).
    assert (E3 : emitted s s3 = [])
      by (unfold emitted; rewrite Hw3, Hw2, Hw1; apply skipn_all).
    refine (conj E1 (conj E2 (conj E3 (conj _ (conj _ (conj _ _)))))).
    + rewrite Hg1. reflexivity.
    + rewrite Hg2. reflexivity.
    + rewrite Hg3. reflexivity.
    + eapply (Hkill s3); try eassumption; try reflexivity.
      * rewrite Ho3, Ho2, Ho1 by congruence. exact Hsh.
      * rewrite Hd3, Hd2, Hd1. reflexivity.
      * congruence.
      * congruence.
Qed.


(** *** Invariants of the registry *)

Lemma get_set_eq cs id c : get (set cs id c) id = Some c.
Proof.
  induction cs as [|[k c0] cs IH]; simpl; [now rewrite Z.eqb_refl|].
  destruct (k =? id) eqn:E; simpl; rewrite E; [reflexivity|exact IH].
Qed.

Lemma get_set_ne cs id c k : id <> k -> get (set cs id c) k = get cs k.
Proof.
  intros Hne. induction cs as [|[k0 c0] cs IH]; simpl.
  - destruct (Z.eqb_spec id k); [contradiction|reflexivity].
  - destruct (Z.eqb_spec k0 id) as [->|H0]; simpl.
    + destruct (Z.eqb_spec id k); [contradiction|reflexivity].
    + destruct (k0 =? k); [reflexivity|exact IH].
Qed.

Lemma ids_set_fresh cs id c : ~ In id (ids cs) -> ids (set cs id c) = ids cs ++ [id].
Proof.
  unfold ids. induction cs as [|[k c0] cs IH]; simpl; [reflexivity|].
  intros H. destruct (Z.eqb_spec k id) as [->|Hne]; [exfalso; apply H; now left|].
  simpl. rewrite IH; [reflexivity|]. intros Hin. apply H. now right.
Qed.

Lemma shoot_registry random s playerId origin direction :
  ids (clients (shoot random playerId origin direction s)) = ids (clients s)
  /\ nextId (shoot random playerId origin direction s) = nextId s.
Proof.
  destruct (shoot_cases random s playerId origin direction)
    as [->|(hitId & victim & ps & _ & _ & _ & _ & _ & [[_ ->]|[_ ->]])];
    cbn [clients nextId with_clients]; rewrite ?ids_alter; split; reflexivity.
Qed.

Lemma handleMessage_registry random playerId opcode m s :
  ids (clients (handleMessage random playerId opcode m s)) = ids (clients s)
  /\ nextId (handleMessage random playerId opcode m s) = nextId s.
Proof.
  unfold handleMessage. destruct (negb (opcode =? 1)); [split; reflexivity|].
  destruct m as [nm st|st|o d|].
  - unfold init. rewrite catch_up_eq, broadcast_eq.
    cbn [clients nextId with_clients]. now rewrite ids_alter.
  - unfold do_update. rewrite broadcastExcept_eq.
    cbn [clients nextId with_clients]. now rewrite ids_alter.
  - apply shoot_registry.
  - split; reflexivity.
Qed.

Lemma registry_ok_same s s' :
  ids (clients s') = ids (clients s) -> nextId s' = nextId s ->
  registry_ok s -> registry_ok s'.
Proof. unfold registry_ok. intros -> ->. exact (fun H => H). Qed.

Lemma handleMessage_registry_ok random playerId opcode m s :
  registry_ok s -> registry_ok (handleMessage random playerId opcode m s).
Proof.
  destruct (handleMessage_registry random playerId opcode m s) as [H1 H2].
  now apply registry_ok_same.
Qed.

Lemma upgrade_registry_ok k s : registry_ok s -> registry_ok (upgrade k s).
Proof.
  intros (Hnd & H1 & Hr). unfold upgrade. destruct (negb k); [repeat split; assumption|].
  unfold send. cbn [clients nextId].
  assert (Hfresh : ~ In (nextId s) (ids (clients s))).
  { intros Hin. rewrite Forall_forall in Hr. specialize (Hr _ Hin). lia. }
  rewrite Forall_forall in Hr.
  unfold registry_ok. cbn [clients nextId]. rewrite ids_set_fresh by assumption.
  split; [|split].
  - apply NoDup_app; [assumption|repeat constructor; intros []|].
    intros a Ha [<-|[]]. contradiction.
  - lia.
  - apply Forall_app. split.
    + apply Forall_forall. intros x Hx. specialize (Hr x Hx). lia.
    + repeat constructor; lia.
Qed.

Lemma removeClient_registry_ok id s : registry_ok s -> registry_ok (removeClient id s).
Proof.
  intros (Hnd & H1 & Hr). unfold removeClient.
  destruct (get (clients s) id); [|repeat split; assumption].
  rewrite broadcast_eq. unfold registry_ok. cbn [clients nextId with_clients].
  rewrite ids_delete. split; [|split].
  - now apply NoDup_filter.
  - exact H1.
  - rewrite Forall_forall in *. intros x Hx. apply filter_In in Hx as [Hx _]. auto.
Qed.

Lemma fold_handle_registry random decode playerId frames s :
  let s' := fold_left
              (fun acc f => handleMessage random playerId (Codec.opcode f)
                              (decode (Codec.payload f)) acc) frames s in
  ids (clients s') = ids (clients s) /\ nextId s' = nextId s.
Proof.
  revert s. induction frames as [|f frames IH]; intros s; simpl; [split; reflexivity|].
  destruct (IH (handleMessage random playerId (Codec.opcode f)
                  (decode (Codec.payload f)) s)) as [H1 H2].
  destruct (handleMessage_registry random playerId (Codec.opcode f)
              (decode (Codec.payload f)) s) as [H3 H4].
  cbv zeta in *. split; congruence.
Qed.

Lemma on_data_registry random decode playerId chunk s :
  ids (clients (on_data random decode playerId chunk s)) = ids (clients s)
  /\ nextId (on_data random decode playerId chunk s) = nextId s.
Proof.
  unfold on_data. destruct (get (clients s) playerId) as [c|]; [|split; reflexivity].
  cbv zeta. destruct (Codec.parseBuffer (buffer c ++ chunk)) as [[frames rest]|].
  - cbn [clients nextId with_clients]. rewrite ids_alter.
    destruct (fold_handle_registry random decode playerId frames
                (with_clients (alter (with_buffer (buffer c ++ chunk)) (clients s) playerId) s))
      as [H1 H2].
    cbv zeta in *. rewrite H1, H2. cbn [clients nextId with_clients].
    now rewrite ids_alter.
  - cbn [clients nextId with_clients]. now rewrite ids_alter.
Qed.

Lemma step_registry_ok random decode s i :
  registry_ok s -> registry_ok (step random decode s i).
Proof.
  intros Hok. destruct i as [k|id chunk|id]; simpl.
  - now apply upgrade_registry_ok.
  - destruct (on_data_registry random decode id chunk s) as [H1 H2].
    now apply (registry_ok_same s).
  - now apply removeClient_registry_ok.
Qed.

Lemma initial_registry_ok : registry_ok initial.
Proof. repeat split; try constructor. cbn. lia. Qed.

Lemma run_registry_ok random decode inputs :
  forall s, registry_ok s -> registry_ok (run random decode s inputs).
Proof.
  induction inputs as [|i inputs IH]; intros s Hok; simpl; [exact Hok|].
  apply IH. now apply step_registry_ok.
Qed.


(** *** The health range *)

Lemma health_ok_100 : health_ok 100%float.
Proof. exists 100. split; [lia|reflexivity]. Qed.

Lemma health_ok_bounds h :
  health_ok h -> (0 <=? h)%float = true /\ (h <=? 100)%float = true.
Proof.
  intros (k & Hk & ->).
  pose proof (below_cases 101
    (fun k => (0 <=? of_Z k)%float && (of_Z k <=? 100)%float)
    ltac:(vm_compute; reflexivity) k ltac:(lia)) as H.
  cbv beta in H. now apply andb_true_iff in H.
Qed.

Lemma shoot_health random s playerId origin direction :
  registry_ok s -> health_invariant s ->
  health_invariant (shoot random playerId origin direction s).
Proof.
  intros Hok Hinv.
  destruct (shoot_cases random s playerId origin direction)
    as [->|(hitId & victim & ps & Hf & Hz & Hne & Hg & Hst & Hcase)]; [exact Hinv|].
  destruct Hok as (Hnd & _).
  destruct (find_hit_get _ _ _ _ _ Hnd Hf) as (victim0 & ps0 & Hg0 & Hst0 & Hh & _).
  assert (victim0 = victim) by congruence. subst victim0.
  assert (ps0 = ps) by congruence. subst ps0.
  assert (Hps : state_ok (Some ps)) by (rewrite <- Hst; exact (Hinv _ _ Hg)).
  destruct (state_ok_hit _ _ _ Hps Hh) as (h & Hhp & Hh_ok).
  cbv zeta in Hcase. rewrite Hhp in Hcase. cbn [ToNumber] in Hcase.
  destruct Hcase as [[Hleb ->]|[Hleb ->]]; intros id c Hget; cbn [clients with_clients] in Hget.
  - destruct (Z.eq_dec id hitId) as [->|Hid].
    + rewrite get_alter_eq, Hg in Hget. cbn [option_map] in Hget.
      injection Hget as <-.
      cbn [state with_state state_ok]. right. eexists. split; [reflexivity|].
      destruct (health_step h Hh_ok) as [H|H]; [congruence|exact H].
    + rewrite get_alter_ne in Hget by congruence. exact (Hinv _ _ Hget).
  - destruct (Z.eq_dec id hitId) as [->|Hid].
    + rewrite get_alter_eq in Hget.
      destruct (get (alter incr_deaths _ hitId) hitId) as [c0|]; [|discriminate].
      cbn [option_map] in Hget. injection Hget as <-.
      cbn [state with_state state_ok]. right. exists 100%float.
      split; [reflexivity|apply health_ok_100].
    + rewrite !(get_alter_ne _ _ hitId id) in Hget by congruence.
      destruct (Z.eq_dec id playerId) as [->|Hp].
      * rewrite get_alter_eq, get_alter_ne in Hget by congruence.
        destruct (get (clients s) playerId) as [c0|] eqn:Hc0; [|discriminate].
        cbn [option_map] in Hget. injection Hget as <-. exact (Hinv _ _ Hc0).
      * rewrite !get_alter_ne in Hget by congruence. exact (Hinv _ _ Hget).
Qed.

Lemma handleMessage_health random playerId opcode m s :
  registry_ok s -> health_invariant s -> message_ok m ->
  health_invariant (handleMessage random playerId opcode m s).
Proof.
  intros Hok Hinv Hm. unfold handleMessage.
  destruct (negb (opcode =? 1)); [exact Hinv|].
  destruct m as [nm st|st|o d|]; [| |now apply shoot_health|exact Hinv].
  - unfold init. rewrite catch_up_eq, broadcast_eq. intros id c.
    cbn [clients with_clients].
    destruct (Z.eq_dec id playerId) as [->|Hid].
    + rewrite get_alter_eq. destruct (get (clients s) playerId); [|discriminate].
      cbn [option_map]. intros [= <-]. exact Hm.
    + rewrite get_alter_ne by congruence. apply Hinv.
  - unfold do_update. rewrite broadcastExcept_eq. intros id c.
    cbn [clients with_clients].
    destruct (Z.eq_dec id playerId) as [->|Hid].
    + rewrite get_alter_eq. destruct (get (clients s) playerId); [|discriminate].
      cbn [option_map]. intros [= <-]. exact Hm.
    + rewrite get_alter_ne by congruence. apply Hinv.
Qed.

Lemma alter_buffer_health b id s :
  health_invariant s ->
  health_invariant (with_clients (alter (with_buffer b) (clients s) id) s).
Proof.
  intros Hinv k c. cbn [clients with_clients].
  destruct (Z.eq_dec k id) as [->|Hk].
  - rewrite get_alter_eq. destruct (get (clients s) id) as [c0|] eqn:Hc; [|discriminate].
    cbn [option_map]. intros [= <-]. exact (Hinv _ _ Hc).
  - rewrite get_alter_ne by congruence. apply Hinv.
Qed.

Lemma fold_handle_health random decode playerId frames :
  (forall p, message_ok (decode p)) ->
  forall s, registry_ok s -> health_invariant s ->
  health_invariant
    (fold_left (fun acc f => handleMessage random playerId (Codec.opcode f)
                               (decode (Codec.payload f)) acc) frames s).
Proof.
  intros Hd. induction frames as [|f frames IH]; intros s Hok Hinv; simpl; [exact Hinv|].
  apply IH.
  - now apply handleMessage_registry_ok.
  - now apply handleMessage_health.
Qed.

Lemma step_health random decode s i :
  (forall p, message_ok (decode p)) ->
  registry_ok s -> health_invariant s -> health_invariant (step random decode s i).
Proof.
  intros Hd Hok Hinv. destruct i as [k|id chunk|id]; simpl.
  - unfold upgrade. destruct (negb k); [exact Hinv|].
    unfold send. intros id c0. cbn [clients].
    destruct (Z.eq_dec id (nextId s)) as [->|Hid].
    + rewrite get_set_eq. intros [= <-]. cbn. now left.
    + rewrite get_set_ne by congruence. apply Hinv.
  - unfold on_data. destruct (get (clients s) id) as [c|]; [|exact Hinv]. cbv zeta.
    destruct (Codec.parseBuffer (buffer c ++ chunk)) as [[frames rest]|].
    + apply alter_buffer_health. apply fold_handle_health; [exact Hd| |].
      * apply (registry_ok_same s); [cbn; apply ids_alter|reflexivity|exact Hok].
      * now apply alter_buffer_health.
    + now apply alter_buffer_health.
  - unfold removeClient. destruct (get (clients s) id); [|exact Hinv].
    rewrite broadcast_eq. intros k c0. cbn [clients with_clients].
    destruct (Z.eq_dec k id) as [->|Hk].
    + now rewrite get_delete_eq.
    + rewrite get_delete_ne by congruence. apply Hinv.
Qed.

Lemma run_health random decode inputs :
  (forall p, message_ok (decode p)) ->
  forall s, registry_ok s -> health_invariant s ->
  health_invariant (run random decode s inputs).
Proof.
  intros Hd. induction inputs as [|i inputs IH]; intros s Hok Hinv; simpl; [exact Hinv|].
  apply IH; [now apply step_registry_ok|now apply step_health].
Qed.

(** C3 (amended). When every state a client submits in [init] or
    [update] is [undefined] or carries a health that is an integer in
    0-100, every state stored in a reachable server is the initial [{}],
    [undefined], or carries such a health, which is then between 0 and
    100; every message handler preserves this, and [shoot] preserves it
    whatever the message. *)
Theorem health_range_given_honest_clients random decode :
  (forall p, message_ok (decode p)) ->
  (forall inputs, health_invariant (run random decode initial inputs))
  /\ (forall s playerId opcode m,
        registry_ok s -> health_invariant s -> message_ok m ->
        health_invariant (handleMessage random playerId opcode m s))
  /\ (forall s playerId origin direction,
        registry_ok s -> health_invariant s ->
        health_invariant (handleMessage random playerId 1 (Shoot origin direction) s))
  /\ (forall h, health_ok h -> (0 <=? h)%float = true /\ (h <=? 100)%float = true).
Proof.
  intros Hd. repeat split.
  - intros inputs. apply run_health; [exact Hd|apply initial_registry_ok|].
    intros id c. discriminate.
  - intros. now apply handleMessage_health.
  - intros. now apply handleMessage_health.
  - now apply health_ok_bounds.
  - now apply health_ok_bounds.
Qed.


(** *** Hit geometry *)

(** C4 (as stated). A player with a state passes the hit test exactly
    when [proj = dot(P.pos - O, D)] lies in [0, 50] and the squared
    distance from [P.pos] to [C = O + proj * D] is below [0.6 * 0.6];
    in the loop, another player with a known state is selected from a
    one-entry registry exactly then. A target at (0,0,10) is hit from the
    origin along (0,0,1); a target at (0.7,0,10) is not. *)
Theorem hit_candidate_iff origin direction ps :
  let O := vec_of origin in
  let D := vec_of direction in
  let P := pos_of ps in
  let proj := dot (vsub P O) D in
  let C := vadd O (vscale proj D) in
  (hit origin direction ps = true
   <-> (0 <=? proj)%float = true /\ (proj <=? 50)%float = true
       /\ (dist_sq P C <? 0.6 * 0.6)%float = true)
  /\ (forall id playerId other,
        id <> playerId -> state other = Some ps ->
        (find_hit [(id, other)] playerId origin direction = Some id
         <-> (0 <=? proj)%float = true /\ (proj <=? 50)%float = true
             /\ (dist_sq P C <? 0.6 * 0.6)%float = true))
  /\ (let o := {| vx := Some 0%float; vy := Some 0%float; vz := Some 0%float |} in
      let d := {| vx := Some 0%float; vy := Some 0%float; vz := Some 1%float |} in
      let target x := {| st_x := Some x; st_y := Some 0%float; st_z := Some 10%float;
                         st_yaw := Some 0%float; st_pitch := Some 0%float;
                         st_health := Some 100%float |} in
      hit o d (target 0%float) = true /\ hit o d (target 0.7%float) = false).
Proof.
  cbv zeta.
  assert (Hiff : hit origin direction ps = true
    <-> (0 <=? dot (vsub (pos_of ps) (vec_of origin)) (vec_of direction))%float = true
        /\ (dot (vsub (pos_of ps) (vec_of origin)) (vec_of direction) <=? 50)%float = true
        /\ (dist_sq (pos_of ps)
              (vadd (vec_of origin)
                 (vscale (dot (vsub (pos_of ps) (vec_of origin)) (vec_of direction))
                    (vec_of direction))) <? 0.6 * 0.6)%float = true).
  { rewrite hit_test.
    change (dot (vsub (pos_of ps) (vec_of origin)) (vec_of direction))
      with (proj_of origin direction ps).
    change (dist_sq (pos_of ps)
              (vadd (vec_of origin) (vscale (proj_of origin direction ps) (vec_of direction))))
      with (distSq_of origin direction ps).
    change maxDist with 50%float.
    rewrite !andb_true_iff. tauto. }
  split; [exact Hiff|]. split.
  - intros id playerId other Hne Hst. rewrite <- Hiff. cbn [find_hit].
    destruct (Z.eqb_spec id playerId); [contradiction|]. rewrite Hst.
    destruct (hit origin direction ps); split; congruence.
  - split; reflexivity.
Qed.


(** *** Joining and leaving *)

Lemma init_profile random s playerId nm st c :
  get (clients s) playerId = Some c ->
  get (clients (handleMessage random playerId 1 (Init nm st) s)) playerId
  = Some (with_profile nm st c).
Proof.
  intros Hg. change (handleMessage random playerId 1 (Init nm st) s)
    with (init playerId nm st s).
  unfold init. rewrite catch_up_eq, broadcast_eq. cbn [clients with_clients].
  now rewrite get_alter_eq, Hg.
Qed.

(** C10 (as stated). A registered client whose stored name is the
    empty string is in no catch-up: whoever sends [init], no socket is
    written a catch-up [playerJoined] about it. The name is empty after
    registration and after an [init] whose name is the empty string,
    although that [init] is broadcast to every connection. *)
Theorem unnamed_client_skipped_by_snapshot random s a ca :
  registry_ok s ->
  get (clients s) a = Some ca ->
  (name ca = EmptyString ->
   forall b nm st c nm' st' score,
     ~ In (c, playerJoined a nm' st' (Some score))
          (emitted s (handleMessage random b 1 (Init nm st) s)))
  /\ (forall st,
        let s' := handleMessage random a 1 (Init EmptyString st) s in
        (forall c, In c (ids (clients s)) ->
                   In (c, playerJoined a EmptyString st None) (emitted s s'))
        /\ exists ca', get (clients s') a = Some ca' /\ name ca' = EmptyString)
  /\ (exists c, get (clients (upgrade true s)) (nextId s) = Some c
                /\ name c = EmptyString).
Proof.
  intros (Hnd & _ & _) Hg. split; [|split].
  - intros Hname b nm st c nm' st' score Hin.
    erewrite emitted_app in Hin by apply init_wire.
    apply in_app_or in Hin as [Hin|Hin].
    + apply in_map_iff in Hin as (k & [=] & _).
    + apply in_map_iff in Hin as ([k other] & Heq & Hf).
      apply filter_In in Hf as [Hin Hsnap].
      unfold catch_up_message in Heq. cbn [fst snd] in Heq.
      injection Heq as _ -> _ _ _.
      apply (In_get _ _ _ Hnd) in Hin.
      assert (other = ca) by congruence. subst other.
      unfold in_snapshot in Hsnap. cbn [fst snd] in Hsnap.
      rewrite Hname in Hsnap. cbn in Hsnap. now rewrite orb_true_r in Hsnap.
  - intros st s'. split.
    + intros c Hc. unfold s'. erewrite emitted_app by apply init_wire.
      apply in_or_app. left. apply in_map_iff. exists c. split; [reflexivity|exact Hc].
    + exists (with_profile EmptyString st ca). split; [|reflexivity].
      now apply init_profile.
  - eexists. unfold upgrade, send. cbn [negb clients]. rewrite get_set_eq.
    split; reflexivity.
Qed.

(** C1 (amended). The [playerJoined] of an [init] is written to every
    registered connection, the sender included; the sender is then
    written one catch-up [playerJoined], with kills and deaths, for
    every other registered client whose stored name is not empty, in map
    order. With two such clients the sender receives exactly two
    catch-up messages. *)
Theorem init_snapshot random s playerId nm st :
  NoDup (ids (clients s)) -> In playerId (ids (clients s)) ->
  let s' := handleMessage random playerId 1 (Init nm st) s in
  let joined := playerJoined playerId nm st None in
  let others := filter (in_snapshot playerId) (clients s) in
  (forall c, In c (ids (clients s)) -> c <> playerId ->
             received c (emitted s s') = [joined])
  /\ received playerId (emitted s s') = joined :: map catch_up_message others
  /\ length (filter is_catch_up (received playerId (emitted s s'))) = length others
  /\ (forall a b, others = [a; b] ->
        filter is_catch_up (received playerId (emitted s s'))
        = [catch_up_message a; catch_up_message b]).
Proof.
  intros Hnd Hin s' joined others.
  assert (Hem : emitted s s'
                = map (fun id => (id, joined)) (ids (clients s))
                  ++ map (fun kc => (playerId, catch_up_message kc)) others).
  { apply emitted_app. apply init_wire. }
  assert (Hme : received playerId (emitted s s') = joined :: map catch_up_message others).
  { rewrite Hem, received_app, received_broadcast, received_catch_up by assumption.
    now rewrite Z.eqb_refl. }
  repeat split.
  - intros c Hc Hne.
    rewrite Hem, received_app, received_broadcast, received_catch_up by assumption.
    destruct (Z.eqb_spec playerId c); [congruence|reflexivity].
  - exact Hme.
  - rewrite Hme. cbn [filter is_catch_up joined].
    now rewrite filter_catch_up_messages, length_map.
  - intros a b Hab. rewrite Hme, Hab. reflexivity.
Qed.

(** C2 (amended). Closing a registered connection removes its entry
    and writes [playerLeft] to every remaining connection, whatever the
    closed connection had sent; the other entries are untouched, and a
    second close of the same identity does nothing. *)
Theorem removeClient_always_announces s id c :
  get (clients s) id = Some c ->
  let s' := removeClient id s in
  get (clients s') id = None
  /\ (forall k, k <> id -> get (clients s') k = get (clients s) k)
  /\ ids (clients s') = filter (fun k => negb (k =? id)) (ids (clients s))
  /\ emitted s s' = map (fun k => (k, playerLeft id)) (ids (clients s'))
  /\ removeClient id s' = s'.
Proof.
  intros Hget s'. unfold s', removeClient. rewrite Hget.
  rewrite broadcast_eq. cbn [clients wire with_clients nextId draws].
  repeat split.
  - apply get_delete_eq.
  - intros k Hk. apply get_delete_ne. congruence.
  - apply ids_delete.
  - apply emitted_app. reflexivity.
  - rewrite get_delete_eq. reflexivity.
Qed.


(** *** The receive buffer *)

Lemma buffer_alter f cs k id :
  (forall c, buffer (f c) = buffer c) ->
  option_map buffer (get (alter f cs k) id) = option_map buffer (get cs id).
Proof.
  intros Hf. destruct (Z.eq_dec k id) as [->|Hne].
  - rewrite get_alter_eq. destruct (get cs id); cbn; [now rewrite Hf|reflexivity].
  - now rewrite get_alter_ne.
Qed.

Lemma handleMessage_buffer random playerId opcode m s id :
  option_map buffer (get (clients (handleMessage random playerId opcode m s)) id)
  = option_map buffer (get (clients s) id).
Proof.
  unfold handleMessage. destruct (negb (opcode =? 1)); [reflexivity|].
  destruct m as [nm st|st|o d|]; [| | |reflexivity].
  - unfold init. rewrite catch_up_eq, broadcast_eq. cbn [clients with_clients].
    now apply buffer_alter.
  - unfold do_update. rewrite broadcastExcept_eq. cbn [clients with_clients].
    now apply buffer_alter.
  - destruct (shoot_cases random s playerId o d)
      as [->|(hitId & victim & ps & _ & _ & _ & _ & _ & [[_ ->]|[_ ->]])];
      cbn [clients with_clients]; [reflexivity| |];
      rewrite ?buffer_alter by reflexivity; reflexivity.
Qed.

Lemma fold_handle_buffer random decode playerId frames id :
  forall s,
  option_map buffer
    (get (clients (fold_left
                     (fun acc f => handleMessage random playerId (Codec.opcode f)
                                     (decode (Codec.payload f)) acc) frames s)) id)
  = option_map buffer (get (clients s) id).
Proof.
  induction frames as [|f frames IH]; intros s; simpl; [reflexivity|].
  rewrite IH. apply handleMessage_buffer.
Qed.

(** C9 (as stated). A decode pass over the bytes received so far hands
    [handleMessage] the frames [frames] and stores [rest]: the bytes
    split into one complete wire frame per extracted frame, in order,
    followed by [rest]; no complete frame starts [rest]; when no complete
    frame starts the buffer nothing is extracted and every byte is kept;
    and [rest] is what the connection's buffer holds after the pass. *)
Theorem decode_pass_keeps_only_unread_bytes random decode s playerId c chunk :
  get (clients s) playerId = Some c ->
  Codec.bytes (buffer c ++ chunk) ->
  let buf := buffer c ++ chunk in
  exists frames rest raws,
    Codec.parseBuffer buf = Some (frames, rest)
    /\ buf = concat raws ++ rest
    /\ Forall2 Codec.wire_frame raws frames
    /\ (forall raw f tail, Codec.wire_frame raw f -> rest <> raw ++ tail)
    /\ ((forall raw f tail, Codec.wire_frame raw f -> buf <> raw ++ tail) ->
        frames = [] /\ rest = buf)
    /\ option_map buffer
         (get (clients (on_data random decode playerId chunk s)) playerId)
       = Some rest.
Proof.
  intros Hg Hb buf.
  destruct (parseBuffer_whole_frames buf Hb)
    as (frames & rest & raws & Hp & Hcat & HF & Hrest & Hnone).
  exists frames, rest, raws. repeat split; try assumption.
  - now apply Hnone.
  - now apply Hnone.
  - unfold on_data. rewrite Hg. cbv zeta. fold buf. rewrite Hp.
    cbn [clients with_clients]. rewrite get_alter_eq.
    pose proof (fold_handle_buffer random decode playerId frames playerId
                  (with_clients (alter (with_buffer buf) (clients s) playerId) s)) as Hfold.
    cbn [clients with_clients] in Hfold. rewrite get_alter_eq, Hg in Hfold.
    cbn [option_map] in Hfold.
    match type of Hfold with option_map buffer ?g = _ =>
      destruct g as [c'|] end; [reflexivity|discriminate Hfold].
Qed.

End LobbyFacts.
(** ** The properties at sample inputs *)

Section Instances.

Import Codec Binary64 Lobby.

Ltac distinct := repeat constructor; cbn; intuition discriminate.

Lemma two_joined_registry : registry_ok two_joined.
Proof.
  unfold registry_ok. change (ids (clients two_joined)) with [1; 2; 3].
  change (nextId two_joined) with 4. split; [distinct|]. split; [lia|].
  repeat constructor; lia.
Defined.

Lemma duel_registry h : registry_ok (duel h).
Proof.
  unfold registry_ok. change (ids (clients (duel h))) with [1; 2].
  change (nextId (duel h)) with 3. split; [distinct|]. split; [lia|].
  repeat constructor; lia.
Defined.

(** C1, witness: connection 3 joins after "ann" and "bob". *)
Lemma init_snapshot_witness :
  NoDup (ids (clients two_joined)) /\ In 3 (ids (clients two_joined))
  /\ received 3 (emitted two_joined
                   (handleMessage quarter 3 1 (Init "cyd" None) two_joined))
     = [playerJoined 3 "cyd" None None;
        playerJoined 1 "ann" (Some (standing 0 0 100)) (Some (0, 0));
        playerJoined 2 "bob" (Some (standing 5 5 100)) (Some (0, 0))].
Proof.
  assert (H1 : NoDup (ids (clients two_joined))) by exact (proj1 two_joined_registry).
  assert (H2 : In 3 (ids (clients two_joined))) by (cbn; tauto).
  split; [exact H1|]. split; [exact H2|].
  exact (proj1 (proj2 (init_snapshot quarter two_joined 3 "cyd" None H1 H2))).
Defined.

(** C1, counterexample: the first connection sends [init] and is
    itself written the [playerJoined] broadcast. *)
Lemma init_broadcast_reaches_sender :
  ~ (forall c, In (c, playerJoined 1 "ann" None None)
                  (emitted (upgrade true initial)
                     (handleMessage quarter 1 1 (Init "ann" None) (upgrade true initial))) ->
               c <> 1).
Proof. intros H. apply (H 1); [cbn; tauto|reflexivity]. Qed.

(** C2, witness: "ann" leaves the lobby of three. *)
Lemma removeClient_witness :
  get (clients two_joined) 1 = Some (player "ann" (standing 0 0 100))
  /\ emitted two_joined (removeClient 1 two_joined)
     = [(2, playerLeft 1); (3, playerLeft 1)].
Proof.
  split; [reflexivity|].
  exact (proj1 (proj2 (proj2 (proj2
           (removeClient_always_announces two_joined 1 _ eq_refl))))).
Defined.

(** C2, counterexample: connection 3 never sent [init], and its close
    is announced to the others all the same. *)
Lemma silent_connection_is_announced :
  ~ (forall c, ~ In (c, playerLeft 3) (emitted two_joined (removeClient 3 two_joined))).
Proof. intros H. apply (H 1). cbn. tauto. Qed.


Lemma one_letter_ok p : message_ok (one_letter p).
Proof.
  destruct p as [|b [|? ?]]; try exact I. unfold one_letter.
  destruct (b =? 105); [|destruct (b =? 117); [|destruct (b =? 115)]];
    try exact I; right; exists 100%float; (split; [reflexivity|apply health_ok_100]).
Defined.

(** C3, witness: a connection joins and moves, framed as a client
    frames it. *)
Lemma health_range_witness :
  (forall p, message_ok (one_letter p))
  /\ health_invariant
       (run quarter one_letter initial
          [Upgrade true;
           Data 1 (mask_frame [1; 2; 3; 4] (sendWS [105]));
           Data 1 (mask_frame [5; 6; 7; 8] (sendWS [117]))]).
Proof.
  split; [exact one_letter_ok|].
  exact (proj1 (health_range_given_honest_clients quarter one_letter one_letter_ok) _).
Defined.

(** C3, counterexample: an [update] that carries health -5 is stored
    as it is. *)
Lemma update_stores_negative_health :
  ~ (forall c ps h,
       get (clients (handleMessage quarter 1 1 (Update (Some (standing 0 0 (-5))))
                       (handleMessage quarter 1 1 (Init "ann" (Some (standing 0 0 100)))
                          (upgrade true initial)))) 1 = Some c ->
       state c = Some ps -> st_health ps = Some h -> (0 <=? h)%float = true).
Proof.
  intros H.
  specialize (H _ _ _ eq_refl eq_refl eq_refl). discriminate H.
Qed.

(** C6, witness: one shot at a victim of health 25, and four at a
    victim of health 100. *)
Lemma kill_respawns_victim_witness :
  registry_ok (duel 25)
  /\ (forall n, (0 <=? quarter n)%float = true /\ (quarter n <? 1)%float = true)
  /\ find_hit (clients (duel 25)) 1 from_origin along_z = Some 2
  /\ emitted (duel 25) (handleMessage quarter 1 1 (Shoot from_origin along_z) (duel 25))
     = [(1, playerKilled 1 2);
        (2, playerKilled 1 2);
        (1, update 2 (Some (respawned quarter 0 (standing 0 10 25))));
        (2, update 2 (Some (respawned quarter 0 (standing 0 10 25))))]
  /\ (let shot := handleMessage quarter 1 1 (Shoot from_origin along_z) in
      forall c, In c [1; 2] ->
        received c (emitted (duel 100) (shot (shot (shot (shot (duel 100))))))
        = [playerKilled 1 2;
           update 2 (Some (respawned quarter 0 (standing 0 10 100)))]).
Proof.
  assert (Hq : forall n, (0 <=? quarter n)%float = true /\ (quarter n <? 1)%float = true)
    by (intros n; split; reflexivity).
  split; [apply duel_registry|]. split; [exact Hq|]. split; [reflexivity|]. split.
  - pose proof (kill_respawns_victim quarter (duel 25) 1 from_origin along_z 2 _ _ _
                  (duel_registry 25) Hq eq_refl eq_refl eq_refl eq_refl) as H.
    cbv zeta in H. destruct H as (_ & H & _).
    destruct (H eq_refl) as (_ & He & _). exact He.
  - pose proof (kill_respawns_victim quarter (duel 100) 1 from_origin along_z 2 _ _ _
                  (duel_registry 100) Hq eq_refl eq_refl eq_refl eq_refl) as H.
    cbv zeta in H. destruct H as (_ & _ & H).
    destruct (H eq_refl) as (_ & _ & _ & _ & _ & _ & _ & _ & Hr). exact Hr.
Defined.

(** C7, witness: one shot at a victim of health 100. *)
Lemma partial_damage_witness :
  registry_ok (duel 100)
  /\ find_hit (clients (duel 100)) 1 from_origin along_z = Some 2
  /\ (0 <? ToNumber (st_health (standing 0 10 100)) - 25)%float = true
  /\ wire (handleMessage quarter 1 1 (Shoot from_origin along_z) (duel 100)) = []
  /\ get (clients (handleMessage quarter 1 1 (Shoot from_origin along_z) (duel 100))) 1
     = Some (player "ann" (standing 0 0 100)).
Proof.
  split; [apply duel_registry|]. split; [reflexivity|]. split; [reflexivity|].
  pose proof (partial_damage_is_silent quarter (duel 100) 1 from_origin along_z 2 _ _
                (duel_registry 100) eq_refl eq_refl eq_refl eq_refl) as H.
  cbv zeta in H. destruct H as (_ & Hw & _ & _ & _ & Ho & _).
  split; [exact Hw|]. exact (Ho 1 ltac:(discriminate)).
Defined.

(** C8, witness: a one-byte payload under the key 1, 2, 3, 4. Masked,
    the byte 104 travels as 105. *)
Lemma frame_roundtrip_witness :
  In (Z.of_nat (length [104])) [0; 1; 125; 126; 65535; 65536]
  /\ length [1; 2; 3; 4] = 4%nat
  /\ mask_frame [1; 2; 3; 4] (sendWS [104]) = [129; 129; 1; 2; 3; 4; 105]
  /\ parseBuffer (mask_frame [1; 2; 3; 4] (sendWS [104]))
     = Some ([{| opcode := 1; payload := [104] |}], []).
Proof.
  assert (H1 : In (Z.of_nat (length [104])) [0; 1; 125; 126; 65535; 65536])
    by (cbn; tauto).
  split; [exact H1|]. split; [reflexivity|]. split; [reflexivity|].
  exact (proj1 (proj2 (proj2 (proj2 (frame_roundtrip [104] [1; 2; 3; 4] H1 eq_refl))))).
Defined.

(** C10, witness: connection 3 of the sample lobby has no name. *)
Lemma unnamed_client_witness :
  registry_ok two_joined
  /\ get (clients two_joined) 3 = Some (player EmptyString empty_state)
  /\ forall b nm st c nm' st' score,
       ~ In (c, playerJoined 3 nm' st' (Some score))
            (emitted two_joined (handleMessage quarter b 1 (Init nm st) two_joined)).
Proof.
  split; [exact two_joined_registry|]. split; [reflexivity|].
  exact (proj1 (unnamed_client_skipped_by_snapshot quarter two_joined 3 _
                  two_joined_registry eq_refl) eq_refl).
Defined.


(** C9, witness: connection 3 of the sample lobby receives one masked
    frame followed by the first byte of the next. *)
Lemma decode_pass_witness :
  get (clients two_joined) 3 = Some (player EmptyString empty_state)
  /\ bytes (buffer (player EmptyString empty_state)
            ++ mask_frame [1; 2; 3; 4] (sendWS [105]) ++ [129])
  /\ option_map buffer
       (get (clients (on_data quarter one_letter 3
                        (mask_frame [1; 2; 3; 4] (sendWS [105]) ++ [129]) two_joined)) 3)
     = Some [129].
Proof.
  assert (Hb : bytes (buffer (player EmptyString empty_state)
                      ++ mask_frame [1; 2; 3; 4] (sendWS [105]) ++ [129]))
    by (repeat constructor; unfold is_byte; cbn; lia).
  split; [reflexivity|]. split; [exact Hb|].
  destruct (decode_pass_keeps_only_unread_bytes quarter one_letter two_joined 3 _
              (mask_frame [1; 2; 3; 4] (sendWS [105]) ++ [129]) eq_refl Hb)
    as (frames & rest & raws & Hp & _ & _ & _ & _ & Hbuf).
  rewrite Hbuf. f_equal. cbv in Hp. congruence.
Defined.

End Instances.

(** ** The codec on a stream of chunks *)

Section CodecStream.

Import Codec.

Lemma parse_loop_more_fuel n : forall m buf r,
  parse_loop n buf = Some r -> (n <= m)%nat -> parse_loop m buf = Some r.
Proof.
  induction n as [|n IH]; intros m buf r H Hle; [discriminate|].
  destruct m as [|m]; [lia|]. cbn [parse_loop] in *.
  destruct (parse_frame buf) as [[f rest]|]; [|exact H].
  destruct (parse_loop n rest) as [[fs final]|] eqn:E; [|discriminate].
  rewrite (IH m rest _ E ltac:(lia)). exact H.
Qed.

Lemma parse_loop_app fuel : forall a b fs r fs' r',
  bytes a ->
  parse_loop fuel a = Some (fs, r) ->
  parseBuffer (r ++ b) = Some (fs', r') ->
  parseBuffer (a ++ b) = Some (fs ++ fs', r').
Proof.
  induction fuel as [|fuel IH]; intros a b fs r fs' r' Hb H H2; [discriminate|].
  cbn [parse_loop] in H.
  destruct (parse_frame a) as [[f rest]|] eqn:E.
  - destruct (parse_loop fuel rest) as [[fs0 final]|] eqn:E0; [|discriminate].
    injection H as <- <-.
    destruct (parse_frame_sound _ _ _ Hb E) as (raw & W & ->).
    pose proof (wire_frame_size _ _ W) as Hsz.
    apply bytes_app in Hb as [_ Hrest].
    specialize (IH rest b fs0 final fs' r' Hrest E0 H2).
    unfold parseBuffer in *. cbn [parse_loop].
    rewrite <- app_assoc, (parse_frame_complete raw f (rest ++ b) W).
    rewrite (parse_loop_more_fuel _ (length (raw ++ rest ++ b)) _ _ IH).
    + reflexivity.
    + rewrite !length_app. lia.
  - injection H as <- <-. exact H2.
Qed.

Lemma parseBuffer_app a b :
  bytes (a ++ b) ->
  exists fs r fs' r',
    parseBuffer a = Some (fs, r)
    /\ parseBuffer (r ++ b) = Some (fs', r')
    /\ parseBuffer (a ++ b) = Some (fs ++ fs', r').
Proof.
  intros Hab. pose proof Hab as Hab'. apply bytes_app in Hab' as [Ha Hb].
  destruct (parseBuffer_whole_frames a Ha) as (fs & r & raws & Hp & Hcat & _).
  assert (Hr : bytes (r ++ b)).
  { rewrite Hcat in Ha. apply bytes_app in Ha as [_ Hr].
    unfold bytes in *. apply Forall_app. split; assumption. }
  destruct (parseBuffer_whole_frames (r ++ b) Hr) as (fs' & r' & raws' & Hp' & _).
  exists fs, r, fs', r'. repeat split; try assumption.
  exact (parse_loop_app _ a b fs r fs' r' Ha Hp Hp').
Qed.

(** X3. A frame that has not arrived in full is left alone: on any
    proper prefix of a frame [parseBuffer] reads nothing and keeps the
    whole prefix, and once the missing bytes are appended it reads
    exactly that frame and keeps nothing. *)
Theorem partial_frame_waits raw f p q :
  wire_frame raw f -> raw = p ++ q -> q <> [] -> bytes p ->
  parseBuffer p = Some ([], p) /\ parseBuffer (p ++ q) = Some ([f], []).
Proof.
  intros W Hraw Hq Hb. split.
  - assert (Hn : parse_frame p = None).
    { destruct (parse_frame p) as [[f' rest']|] eqn:E; [exfalso|reflexivity].
      destruct (parse_frame_sound _ _ _ Hb E) as (raw' & W' & ->).
      pose proof (parse_frame_complete raw f [] W) as H1.
      pose proof (parse_frame_complete raw' f' (rest' ++ q) W') as H2.
      rewrite app_nil_r, Hraw, <- app_assoc, H2 in H1.
      injection H1 as _ H1. apply app_eq_nil in H1 as [_ H1]. contradiction. }
    unfold parseBuffer. cbn [parse_loop]. rewrite Hn. reflexivity.
  - rewrite <- Hraw. now apply parseBuffer_single.
Qed.

Lemma parse_loop_concat raws frames : 
  Forall2 wire_frame raws frames ->
  forall fuel, (length (concat raws) < fuel)%nat ->
  parse_loop fuel (concat raws) = Some (frames, []).
Proof.
  induction 1 as [|raw f raws frames W HF IH]; intros fuel Hlen.
  - destruct fuel; [lia|]. reflexivity.
  - destruct fuel as [|fuel]; [lia|]. cbn [concat parse_loop].
    rewrite (parse_frame_complete raw f _ W).
    pose proof (wire_frame_size _ _ W). cbn [concat] in Hlen.
    rewrite length_app in Hlen. rewrite IH by lia. reflexivity.
Qed.


(** X1. Any number of frames written by [sendWS] back to back, for
    payloads of any length below 2 ^ 64, is read by one call of
    [parseBuffer] as the same payloads, in order, as text frames, with
    nothing left over; the same holds after each frame has been masked
    with a 4-byte key. Masking a frame adds the mask bit to its length
    field, puts the key before the payload and replaces payload byte
    [i] by its XOR with [key[i mod 4]]. *)
Theorem coalesced_frames_roundtrip payloads key :
  Forall (fun data => Z.of_nat (length data) < 2 ^ 64) payloads ->
  length key = 4%nat ->
  parseBuffer (concat (map sendWS payloads)) = Some (map text payloads, [])
  /\ parseBuffer (concat (map (fun data => mask_frame key (sendWS data)) payloads))
     = Some (map text payloads, [])
  /\ forall data, In data payloads ->
       exists len7 ext masked,
         sendWS data = 129 :: len7 :: ext ++ data
         /\ mask_frame key (sendWS data) = 129 :: Z.lor len7 128 :: ext ++ key ++ masked
         /\ length masked = length data
         /\ forall i, (i < length data)%nat ->
              nth i masked 0 = Z.lxor (nth i data 0) (nth (i mod 4) key 0).
Proof.
  intros Hlen Hkey. split; [|split].
  - apply parse_loop_concat; try lia.
    induction Hlen as [|d l Hd _ IH]; cbn [map]; constructor; [|exact IH].
    now apply sendWS_wire.
  - apply parse_loop_concat; try lia.
    induction Hlen as [|d l Hd _ IH]; cbn [map]; constructor; [|exact IH].
    now apply mask_frame_wire.
  - intros data _. destruct (mask_frame_shape key data) as (len7 & ext & Hs & Hm).
    exists len7, ext, (xor_key key data). split; [exact Hs|]. split; [exact Hm|].
    split; [apply xor_key_length|]. intros i Hi. now apply xor_key_nth.
Qed.

Lemma be_bytes_bytes n v : bytes (be_bytes n v).
Proof.
  induction n as [|n IH]; cbn [be_bytes]; constructor; [|exact IH].
  unfold is_byte. change 255 with (Z.ones 8). rewrite Z.land_ones by lia.
  apply Z.mod_pos_bound. reflexivity.
Qed.

(** X2. For every payload of bytes, [sendWS] writes bytes only: the
    first is 0x81, the mask bit of the second is clear, the payload
    follows the header unchanged, and the header takes 2, 4 or 10 bytes
    as the payload length is below 126, below 65536, or larger. *)
Theorem sendWS_well_formed data :
  bytes data ->
  let n := Z.of_nat (length data) in
  bytes (sendWS data)
  /\ at_ (sendWS data) 0 = 129
  /\ Z.land (at_ (sendWS data) 1) 128 = 0
  /\ Z.of_nat (length (sendWS data))
     = n + (if n <? 126 then 2 else if n <? 65536 then 4 else 10)
  /\ exists header, sendWS data = header ++ data.
Proof.
  intros Hb n. unfold sendWS. cbv zeta. fold n.
  assert (Hn : 0 <= n) by (unfold n; lia).
  destruct (n <? 126) eqn:E1; [|destruct (n <? 65536) eqn:E2].
  - apply Z.ltb_lt in E1. repeat split.
    + apply Forall_app. split; [|exact Hb].
      repeat constructor; unfold is_byte; lia.
    + change (at_ ([129; n] ++ data) 1) with n. apply len7_bits. lia.
    + rewrite length_app. cbn [length]. unfold n. lia.
    + eexists. reflexivity.
  - repeat split.
    + apply Forall_app. split; [|exact Hb].
      constructor; [unfold is_byte; lia|]. constructor; [unfold is_byte; lia|].
      apply be_bytes_bytes.
    + rewrite length_app. cbn [length]. rewrite be_bytes_length. unfold n. lia.
    + eexists. reflexivity.
  - repeat split.
    + apply Forall_app. split; [|exact Hb].
      constructor; [unfold is_byte; lia|]. constructor; [unfold is_byte; lia|].
      apply be_bytes_bytes.
    + rewrite length_app. cbn [length]. rewrite be_bytes_length. unfold n. lia.
    + eexists. reflexivity.
Qed.

Lemma parse_frame_first_byte b tail :
  parse_frame (b :: tail)
  = match parse_frame (0 :: tail) with
    | None => None
    | Some (f, rest) => Some ({| opcode := Z.land b 15; payload := payload f |}, rest)
    end.
Proof.
  destruct tail as [|b2 tail]; [reflexivity|].
  unfold parse_frame.
  change (at_ (b :: b2 :: tail) 0) with b. change (at_ (0 :: b2 :: tail) 0) with 0.
  change (at_ (b :: b2 :: tail) 1) with b2. change (at_ (0 :: b2 :: tail) 1) with b2.
  cbv zeta.
  change (length (b :: b2 :: tail)) with (length (0 :: b2 :: tail)).
  change (readUInt16BE (b :: b2 :: tail) 2) with (readUInt16BE (0 :: b2 :: tail) 2).
  change (readUInt32BE (b :: b2 :: tail) 2) with (readUInt32BE (0 :: b2 :: tail) 2).
  change (readUInt32BE (b :: b2 :: tail) 6) with (readUInt32BE (0 :: b2 :: tail) 6).
  assert (S1 : forall o n, slice (b :: b2 :: tail) (S o) n = slice (0 :: b2 :: tail) (S o) n)
    by reflexivity.
  assert (S2 : forall o, slice_from (b :: b2 :: tail) (S o) = slice_from (0 :: b2 :: tail) (S o))
    by reflexivity.
  destruct (_ <? 2)%nat; [reflexivity|].
  destruct (if Z.land b2 127 =? 126 then _ else _) as [[len [|offset]]|] eqn:Eh;
    [| |reflexivity].
  - exfalso. destruct (Z.land b2 127 =? 126); [destruct (_ <? 4)%nat; discriminate|].
    destruct (Z.land b2 127 =? 127); [destruct (_ <? 10)%nat; discriminate|discriminate].
  - destruct (negb (Z.land b2 128 =? 0)).
    + destruct (_ <? S offset + 4)%nat; [reflexivity|].
      destruct (_ <? _); [reflexivity|].
      change (S offset + 4)%nat with (S (offset + 4)).
      change (S (offset + 4) + Z.to_nat len)%nat with (S (offset + 4 + Z.to_nat len)).
      rewrite !S1. rewrite S2. reflexivity.
    + destruct (_ <? _); [reflexivity|].
      change (S offset + Z.to_nat len)%nat with (S (offset + Z.to_nat len)).
      rewrite !S1, S2. reflexivity.
Qed.

(** X4. [parseBuffer] reads the first byte of a frame for its opcode
    only: FIN and the three reserved bits are ignored. Replacing the first
    byte of a buffer that starts with a whole frame changes the opcode of
    the first frame to the low four bits of the new byte and nothing
    else: the payload, the frames after it and the rest stay the same. *)
Theorem first_byte_matters_only_as_opcode b b' tail f fs rest :
  parseBuffer (b :: tail) = Some (f :: fs, rest) ->
  opcode f = Z.land b 15
  /\ parseBuffer (b' :: tail)
     = Some ({| opcode := Z.land b' 15; payload := payload f |} :: fs, rest).
Proof.
  unfold parseBuffer. change (length (b :: tail)) with (length (b' :: tail)).
  generalize (length (b' :: tail)). intros n. cbn [parse_loop].
  rewrite (parse_frame_first_byte b), (parse_frame_first_byte b').
  destruct (parse_frame (0 :: tail)) as [[f0 r0]|]; [|discriminate].
  destruct (parse_loop n r0) as [[fs0 final]|]; [|discriminate].
  intros [= <- <- <-]. split; reflexivity.
Qed.

End CodecStream.

(** ** The log of writes and the registry over a run *)

Section LobbyLog.

Import Binary64 Lobby.

Lemma among_broadcast reg data :
  (forall id, In id (about data) -> In id reg) -> is_welcome data = false ->
  forall l, incl l reg -> Forall (among reg) (map (fun k => (k, data)) l).
Proof.
  intros Ha Hw l Hl. apply Forall_forall. intros ce Hin.
  apply in_map_iff in Hin as (k & <- & Hk). repeat split; cbn; auto.
Qed.

Lemma incl_filter_ids (f : Z -> bool) l : incl (filter f l) l.
Proof. intros x Hx. apply filter_In in Hx. tauto. Qed.

Lemma handleMessage_log random playerId opcode m s :
  In playerId (ids (clients s)) ->
  exists w, wire (handleMessage random playerId opcode m s) = wire s ++ w
            /\ Forall (among (ids (clients s))) w.
Proof.
  intros Hp. unfold handleMessage.
  destruct (negb (opcode =? 1)); [exists []; split; [now rewrite app_nil_r|constructor]|].
  destruct m as [nm st|st|o d|].
  - eexists. split; [apply init_wire|]. apply Forall_app. split.
    + apply among_broadcast; [intros id [<-|[]]; exact Hp|reflexivity|apply incl_refl].
    + apply Forall_forall. intros ce Hin.
      apply in_map_iff in Hin as ([k c] & <- & Hk). apply filter_In in Hk as [Hk _].
      apply (in_map fst) in Hk. repeat split; cbn; auto.
      intros id [<-|[]]. exact Hk.
  - unfold do_update. rewrite broadcastExcept_eq. cbn [wire clients with_clients].
    rewrite ids_alter. eexists. split; [reflexivity|].
    apply among_broadcast; [intros id [<-|[]]; exact Hp|reflexivity|apply incl_filter_ids].
  - change (handleMessage random playerId 1 (Shoot o d) s) with (shoot random playerId o d s).
    destruct (shoot_cases random s playerId o d)
      as [->|(hitId & victim & ps & _ & _ & _ & Hg & _ & [[_ ->]|[_ ->]])].
    + exists []. split; [now rewrite app_nil_r|constructor].
    + exists []. split; [cbn; now rewrite app_nil_r|constructor].
    + apply get_ids in Hg. cbn [wire]. eexists. split; [reflexivity|].
      apply Forall_app. split; apply among_broadcast; try reflexivity; try apply incl_refl.
      * intros id [<-|[<-|[]]]; assumption.
      * intros id [<-|[]]; assumption.
  - exists []. split; [now rewrite app_nil_r|constructor].
Qed.

Lemma fold_handle_log random decode playerId frames : forall s,
  In playerId (ids (clients s)) ->
  exists w,
    wire (fold_left (fun acc f => handleMessage random playerId (Codec.opcode f)
                                    (decode (Codec.payload f)) acc) frames s)
    = wire s ++ w
    /\ Forall (among (ids (clients s))) w.
Proof.
  induction frames as [|f frames IH]; intros s Hp; cbn [fold_left].
  - exists []. split; [now rewrite app_nil_r|constructor].
  - destruct (handleMessage_log random playerId (Codec.opcode f)
                (decode (Codec.payload f)) s Hp) as (w1 & Hw1 & Ha1).
    destruct (handleMessage_registry random playerId (Codec.opcode f)
                (decode (Codec.payload f)) s) as [Hids _].
    destruct (IH (handleMessage random playerId (Codec.opcode f)
                    (decode (Codec.payload f)) s)) as (w2 & Hw2 & Ha2).
    { now rewrite Hids. }
    exists (w1 ++ w2). split.
    + rewrite Hw2, Hw1. now rewrite app_assoc.
    + apply Forall_app. split; [exact Ha1|]. now rewrite Hids in Ha2.
Qed.

Lemma on_data_log random decode playerId chunk s :
  exists w, wire (on_data random decode playerId chunk s) = wire s ++ w
            /\ Forall (among (ids (clients s))) w.
Proof.
  unfold on_data. destruct (get (clients s) playerId) as [c|] eqn:Hg;
    [|exists []; split; [now rewrite app_nil_r|constructor]].
  cbv zeta. apply get_ids in Hg.
  destruct (Codec.parseBuffer (buffer c ++ chunk)) as [[frames rest]|];
    [|exists []; split; [cbn; now rewrite app_nil_r|constructor]].
  cbn [wire with_clients].
  destruct (fold_handle_log random decode playerId frames
              (with_clients (alter (with_buffer (buffer c ++ chunk)) (clients s) playerId) s))
    as (w & Hw & Ha).
  { cbn [clients with_clients]. now rewrite ids_alter. }
  cbn [clients wire with_clients] in Hw, Ha. rewrite ids_alter in Ha.
  exists w. split; assumption.
Qed.

Lemma removeClient_log id s :
  exists w, wire (removeClient id s) = wire s ++ w
            /\ Forall (among (ids (clients s))) w.
Proof.
  unfold removeClient. destruct (get (clients s) id) as [c|] eqn:Hg;
    [|exists []; split; [now rewrite app_nil_r|constructor]].
  rewrite broadcast_eq. cbn [wire clients with_clients]. eexists. split; [reflexivity|].
  rewrite ids_delete. apply get_ids in Hg.
  apply among_broadcast; [intros k [<-|[]]; exact Hg|reflexivity|apply incl_filter_ids].
Qed.

(** One step of the server: either a handshake that registers and
    welcomes [nextId], or a step that registers nobody. *)
Lemma step_log random decode s i :
  registry_ok s ->
  let s' := step random decode s i in
  exists w, wire s' = wire s ++ w
    /\ ((w = [(nextId s, welcome (nextId s))] /\ nextId s' = nextId s + 1
         /\ ids (clients s') = ids (clients s) ++ [nextId s])
        \/ (Forall (among (ids (clients s))) w /\ nextId s' = nextId s
            /\ incl (ids (clients s')) (ids (clients s)))).
Proof.
  intros (Hnd & H1 & Hr) s'. unfold s'. destruct i as [k|id chunk|id]; cbn [step].
  - unfold upgrade. destruct k; cbn [negb].
    + unfold send. cbn [wire nextId clients]. eexists. split; [reflexivity|]. left.
      repeat split. apply ids_set_fresh. intros Hin.
      rewrite Forall_forall in Hr. specialize (Hr _ Hin). lia.
    + exists []. split; [now rewrite app_nil_r|]. right.
      repeat split; [constructor|apply incl_refl].
  - destruct (on_data_log random decode id chunk s) as (w & Hw & Ha).
    destruct (on_data_registry random decode id chunk s) as [Hi Hn].
    exists w. split; [exact Hw|]. right. repeat split; try assumption.
    rewrite Hi. apply incl_refl.
  - destruct (removeClient_log id s) as (w & Hw & Ha).
    exists w. split; [exact Hw|]. right. split; [exact Ha|]. split.
    + unfold removeClient. destruct (get (clients s) id); [|reflexivity].
      now rewrite broadcast_eq.
    + unfold removeClient. destruct (get (clients s) id); [|apply incl_refl].
      rewrite broadcast_eq. cbn [clients with_clients]. rewrite ids_delete.
      apply incl_filter_ids.
Qed.


Lemma welcomes_succ n :
  1 <= n -> welcomes (n + 1) = welcomes n ++ [(n, welcome n)].
Proof.
  intros Hn. unfold welcomes.
  replace (Z.to_nat (n + 1 - 1)) with (S (Z.to_nat (n - 1))) by lia.
  rewrite seq_S, map_app. cbn [map].
  replace (Z.of_nat (1 + Z.to_nat (n - 1))) with n by lia. reflexivity.
Qed.

Lemma among_not_welcome reg w :
  Forall (among reg) w -> filter (fun ce => is_welcome (snd ce)) w = [].
Proof.
  induction 1 as [|ce w (_ & _ & H) _ IH]; cbn; [reflexivity|]. now rewrite H.
Qed.

Lemma received_none id w :
  (forall c e, In (c, e) w -> c <> id) -> received id w = [].
Proof.
  unfold received. induction w as [|[c e] w IH]; intros H; cbn; [reflexivity|].
  destruct (Z.eqb_spec c id) as [->|Hne].
  - exfalso. apply (H id e); [now left|reflexivity].
  - apply IH. intros c' e' Hin. apply (H c' e'). now right.
Qed.

Lemma step_log_ok random decode s i :
  log_ok s -> log_ok (step random decode s i).
Proof.
  intros (Hok & Hw & Ha & Hf).
  pose proof (step_registry_ok random decode s i Hok) as Hok'.
  destruct (step_log random decode s i Hok) as (w & Hwire & Hcase).
  cbv zeta in Hcase. destruct Hok as (Hnd & H1 & Hr). rewrite Forall_forall in Hr.
  split; [exact Hok'|]. rewrite Hwire.
  destruct Hcase as [(-> & Hn & Hi)|(Hw' & Hn & Hi)]; rewrite Hn.
  - split; [|split].
    + rewrite filter_app, Hw, welcomes_succ by assumption. reflexivity.
    + intros c e Hin. apply in_app_or in Hin as [Hin|[[= <- _]|[]]]; [|lia].
      specialize (Ha _ _ Hin). lia.
    + intros id Hin. rewrite Hi in Hin. rewrite received_app.
      apply in_app_or in Hin as [Hin|[<-|[]]].
      * destruct (Hf _ Hin) as (rest & ->). eexists. reflexivity.
      * rewrite (received_none (nextId s) (wire s)).
        -- exists []. cbn. now rewrite Z.eqb_refl.
        -- intros c e Hin. specialize (Ha _ _ Hin). lia.
  - split; [|split].
    + rewrite filter_app, Hw, (among_not_welcome _ _ Hw'). apply app_nil_r.
    + intros c e Hin. apply in_app_or in Hin as [Hin|Hin]; [now apply (Ha c e)|].
      rewrite Forall_forall in Hw'. destruct (Hw' _ Hin) as (Hc & _). now apply Hr.
    + intros id Hin. rewrite received_app.
      destruct (Hf _ (Hi _ Hin)) as (rest & ->). eexists. reflexivity.
Qed.

Lemma run_log_ok random decode inputs : forall s,
  log_ok s -> log_ok (run random decode s inputs).
Proof.
  induction inputs as [|i inputs IH]; intros s H; [exact H|].
  apply IH. now apply step_log_ok.
Qed.

Lemma initial_log_ok : log_ok initial.
Proof.
  split; [apply initial_registry_ok|]. split; [reflexivity|].
  split; [intros c e []|intros id []].
Qed.

Lemma run_nextId random decode inputs : forall s,
  registry_ok s ->
  nextId (run random decode s inputs)
  = nextId s + Z.of_nat (length (filter is_handshake inputs)).
Proof.
  induction inputs as [|i inputs IH]; intros s Hok; cbn [run fold_left filter length].
  - lia.
  - change (fold_left (step random decode) inputs (step random decode s i))
      with (run random decode (step random decode s i) inputs).
    rewrite IH by now apply step_registry_ok.
    destruct i as [[|]|id chunk|id]; cbn [is_handshake length step].
    + unfold upgrade, send. cbn. lia.
    + reflexivity.
    + destruct (on_data_registry random decode id chunk s) as [_ ->]. reflexivity.
    + unfold removeClient. destruct (get (clients s) id); [|reflexivity].
      rewrite broadcast_eq. reflexivity.
Qed.

(** X7. Identities are handed out by counting: after any sequence of
    handshakes, chunks and closes from the initial state, [nextId] is one
    more than the number of accepted handshakes, the [welcome] writes in
    the log are exactly those of the identities 1 to [nextId - 1], each
    sent once to the connection it names and in that order, no identity
    is registered twice, and every registered connection was sent its
    own [welcome]. *)
Theorem identities_count_up random decode inputs :
  let s := run random decode initial inputs in
  nextId s = 1 + Z.of_nat (length (filter is_handshake inputs))
  /\ filter (fun ce => is_welcome (snd ce)) (wire s) = welcomes (nextId s)
  /\ NoDup (ids (clients s))
  /\ (forall id, In id (ids (clients s)) -> In (id, welcome id) (wire s)).
Proof.
  cbv zeta.
  destruct (run_log_ok random decode inputs initial initial_log_ok)
    as ((Hnd & _ & _) & Hw & _ & Hf).
  split; [exact (run_nextId random decode inputs initial initial_registry_ok)|].
  split; [exact Hw|]. split; [exact Hnd|].
  intros id Hin. destruct (Hf id Hin) as (rest & Hr).
  assert (Hin' : In (welcome id) (received id (wire (run random decode initial inputs))))
    by (rewrite Hr; now left).
  unfold received in Hin'. apply in_map_iff in Hin' as ([c e] & He & Hfl).
  apply filter_In in Hfl as [Hfl Hc]. cbn in He, Hc. apply Z.eqb_eq in Hc.
  now subst.
Qed.

(** X8. After any sequence of handshakes, chunks and closes from the
    initial state, the first message written to a connection that is
    registered is the [welcome] carrying its identity. *)
Theorem welcome_comes_first random decode inputs id :
  In id (ids (clients (run random decode initial inputs))) ->
  exists rest,
    received id (wire (run random decode initial inputs)) = welcome id :: rest.
Proof.
  intros Hin.
  destruct (run_log_ok random decode inputs initial initial_log_ok) as (_ & _ & _ & Hf).
  now apply Hf.
Qed.

Lemma run_forgets random decode inputs id : forall s,
  registry_ok s -> ~ In id (ids (clients s)) -> id < nextId s ->
  exists w, wire (run random decode s inputs) = wire s ++ w
    /\ Forall (fun ce => fst ce <> id /\ ~ In id (about (snd ce))) w
    /\ ~ In id (ids (clients (run random decode s inputs))).
Proof.
  induction inputs as [|i inputs IH]; intros s Hok Hout Hlt.
  - exists []. cbn. rewrite app_nil_r. repeat split; [constructor|exact Hout].
  - cbn [run fold_left].
    change (fold_left (step random decode) inputs (step random decode s i))
      with (run random decode (step random decode s i) inputs).
    destruct (step_log random decode s i Hok) as (w1 & Hw1 & Hcase). cbv zeta in Hcase.
    assert (H1 : Forall (fun ce => fst ce <> id /\ ~ In id (about (snd ce))) w1
                 /\ ~ In id (ids (clients (step random decode s i)))
                 /\ id < nextId (step random decode s i)).
    { destruct Hcase as [(-> & Hn & Hi)|(Hw' & Hn & Hi)].
      - split; [|split; [|lia]].
        + repeat constructor; cbn; lia.
        + rewrite Hi. intros Hin. apply in_app_or in Hin as [Hin|[Hin|[]]]; [auto|lia].
      - split; [|split; [|lia]].
        + apply Forall_forall. intros ce Hin. rewrite Forall_forall in Hw'.
          destruct (Hw' _ Hin) as (Hc & Ha & _). split.
          * intros E. apply Hout. now rewrite <- E.
          * intros Hin'. apply Hout. now apply Ha.
        + intros Hin. apply Hout. now apply Hi. }
    destruct H1 as (Hf1 & Hout1 & Hlt1).
    destruct (IH (step random decode s i) (step_registry_ok random decode s i Hok)
                Hout1 Hlt1) as (w2 & Hw2 & Hf2 & Hout2).
    exists (w1 ++ w2). split; [|split].
    + rewrite Hw2, Hw1. now rewrite app_assoc.
    + apply Forall_app. split; assumption.
    + exact Hout2.
Qed.

(** X9. Once [removeClient] has removed a registered connection,
    whatever happens next, its identity is never registered again,
    nothing more is written to it, and no later message mentions it. *)
Theorem closed_connection_is_forgotten random decode s id c inputs :
  registry_ok s -> get (clients s) id = Some c ->
  let s1 := removeClient id s in
  let s2 := run random decode s1 inputs in
  ~ In id (ids (clients s2))
  /\ forall k e, In (k, e) (emitted s1 s2) -> k <> id /\ ~ In id (about e).
Proof.
  intros Hok Hg s1 s2.
  assert (Hok1 : registry_ok s1) by now apply removeClient_registry_ok.
  assert (Hout : ~ In id (ids (clients s1))).
  { unfold s1, removeClient. rewrite Hg, broadcast_eq. cbn [clients with_clients].
    rewrite ids_delete. intros Hin. apply filter_In in Hin as [_ H].
    now rewrite Z.eqb_refl in H. }
  assert (Hlt : id < nextId s1).
  { destruct Hok as (_ & _ & Hr). rewrite Forall_forall in Hr.
    specialize (Hr _ (get_ids _ _ _ Hg)).
    unfold s1, removeClient. rewrite Hg, broadcast_eq. cbn. lia. }
  destruct (run_forgets random decode inputs id s1 Hok1 Hout Hlt) as (w & Hw & Hf & Hn).
  split; [exact Hn|]. intros k e Hin.
  unfold s2 in Hin. rewrite (emitted_app _ _ _ Hw) in Hin.
  rewrite Forall_forall in Hf. exact (Hf _ Hin).
Qed.


Lemma received_except id playerId data l :
  NoDup l ->
  received id (map (fun k => (k, data)) (filter (fun k => negb (k =? playerId)) l))
  = if (id =? playerId) then [] else if in_dec Z.eq_dec id l then [data] else [].
Proof.
  intros Hnd. rewrite received_all.
  induction Hnd as [|k l Hk Hnd IH]; cbn [filter].
  - destruct (id =? playerId); reflexivity.
  - destruct (Z.eqb_spec k playerId) as [->|Hkp]; cbn [negb filter].
    + rewrite IH. destruct (Z.eqb_spec id playerId) as [->|Hip]; [reflexivity|].
      destruct (in_dec Z.eq_dec id l) as [Hin|Hin];
        destruct (in_dec Z.eq_dec id (playerId :: l)) as [Hin'|Hin']; try reflexivity.
      * exfalso. apply Hin'. now right.
      * exfalso. destruct Hin' as [E|Hin']; [congruence|contradiction].
    + destruct (Z.eqb_spec k id) as [->|Hki]; cbn [map].
      * rewrite IH. destruct (Z.eqb_spec id playerId); [contradiction|].
        destruct (in_dec Z.eq_dec id l); [contradiction|].
        destruct (in_dec Z.eq_dec id (id :: l)) as [|Hn]; [reflexivity|].
        exfalso. apply Hn. now left.
      * rewrite IH. destruct (id =? playerId); [reflexivity|].
        destruct (in_dec Z.eq_dec id l) as [Hin|Hin];
          destruct (in_dec Z.eq_dec id (k :: l)) as [Hin'|Hin']; try reflexivity.
        -- exfalso. apply Hin'. now right.
        -- exfalso. destruct Hin' as [E|Hin']; [congruence|contradiction].
Qed.

(** X10. An [update] from a registered connection stores the state it
    carries as the sender's state and writes one [update] message with
    the sender's identity and that state to every other registered
    connection; the sender is written nothing, and the other entries of
    the registry, [nextId] and the random draws stay as they were. *)
Theorem update_reaches_everyone_else random s playerId c st :
  NoDup (ids (clients s)) -> get (clients s) playerId = Some c ->
  let s' := handleMessage random playerId 1 (Update st) s in
  (forall k, In k (ids (clients s)) -> k <> playerId ->
             received k (emitted s s') = [update playerId st])
  /\ received playerId (emitted s s') = []
  /\ (forall k, ~ In k (ids (clients s)) -> received k (emitted s s') = [])
  /\ get (clients s') playerId = Some (with_state st c)
  /\ (forall k, k <> playerId -> get (clients s') k = get (clients s) k)
  /\ ids (clients s') = ids (clients s) /\ nextId s' = nextId s /\ draws s' = draws s.
Proof.
  intros Hnd Hg s'.
  assert (Hs : s' = {| clients := alter (with_state st) (clients s) playerId;
                       nextId := nextId s; draws := draws s;
                       wire := wire s ++ map (fun k => (k, update playerId st))
                                 (filter (fun k => negb (k =? playerId)) (ids (clients s))) |}).
  { unfold s'. change (handleMessage random playerId 1 (Update st) s)
      with (do_update playerId st s).
    unfold do_update. rewrite broadcastExcept_eq. cbn [clients nextId draws wire with_clients].
    now rewrite ids_alter. }
  assert (He : emitted s s' = map (fun k => (k, update playerId st))
                                (filter (fun k => negb (k =? playerId)) (ids (clients s)))).
  { apply emitted_app. rewrite Hs. reflexivity. }
  rewrite He. split; [|split; [|split]].
  - intros k Hk Hne. rewrite received_except by assumption.
    destruct (Z.eqb_spec k playerId); [contradiction|].
    destruct (in_dec Z.eq_dec k (ids (clients s))); [reflexivity|contradiction].
  - rewrite received_except by assumption. now rewrite Z.eqb_refl.
  - intros k Hk. rewrite received_except by assumption.
    destruct (k =? playerId); [reflexivity|].
    destruct (in_dec Z.eq_dec k (ids (clients s))); [contradiction|reflexivity].
  - rewrite Hs. cbn [clients nextId draws]. repeat split.
    + now rewrite get_alter_eq, Hg.
    + intros k Hk. apply get_alter_ne. congruence.
    + apply ids_alter.
Qed.

Ltac score_done o d :=
  repeat split; cbn; intros; try lia; try congruence; try assumption;
  try (match goal with H : forall _ _, _ <> _ |- _ => now destruct (H o d) end).

(** X11. Scores are kept by the server alone: whatever the message,
    [handleMessage] keeps every registered connection registered, never
    lowers a kill or death count and raises it by at most one, keeps the
    unread bytes, and renames nobody but the sender; a message other than
    a [shoot] changes no count at all, and no message raises the
    sender's own death count. *)
Theorem scores_are_server_side random s playerId opcode m id c :
  get (clients s) id = Some c ->
  exists c', get (clients (handleMessage random playerId opcode m s)) id = Some c'
    /\ kills c <= kills c' <= kills c + 1
    /\ deaths c <= deaths c' <= deaths c + 1
    /\ buffer c' = buffer c
    /\ (id <> playerId -> name c' = name c)
    /\ ((forall o d, m <> Shoot o d) -> kills c' = kills c /\ deaths c' = deaths c)
    /\ (id = playerId -> deaths c' = deaths c).
Proof.
  intros Hg. unfold handleMessage.
  destruct (negb (opcode =? 1)); [exists c; score_done c c|].
  destruct m as [nm st|st|o d|].
  - unfold init. rewrite catch_up_eq, broadcast_eq. cbn [clients with_clients].
    destruct (Z.eq_dec id playerId) as [->|Hne].
    + exists (with_profile nm st c). rewrite get_alter_eq, Hg. score_done c c.
    + exists c. rewrite get_alter_ne by congruence. score_done c c.
  - unfold do_update. rewrite broadcastExcept_eq. cbn [clients with_clients].
    destruct (Z.eq_dec id playerId) as [->|Hne].
    + exists (with_state st c). rewrite get_alter_eq, Hg. score_done c c.
    + exists c. rewrite get_alter_ne by congruence. score_done c c.
  - destruct (shoot_cases random s playerId o d)
      as [->|(hitId & victim & ps & _ & _ & Hhp & Hgv & _ & [[_ ->]|[_ ->]])];
      cbn [clients with_clients].
    + exists c. score_done o d.
    + destruct (Z.eq_dec id hitId) as [->|Hne].
      * eexists. rewrite get_alter_eq, Hg. cbn [option_map]. split; [reflexivity|].
        score_done o d.
      * exists c. rewrite get_alter_ne by congruence. score_done o d.
    + destruct (Z.eq_dec id hitId) as [->|Hne].
      * eexists. rewrite !get_alter_eq, (get_alter_ne _ _ playerId hitId) by congruence.
        rewrite get_alter_eq, Hg. cbn [option_map]. split; [reflexivity|].
        score_done o d.
      * rewrite !(get_alter_ne _ _ hitId id) by congruence.
        destruct (Z.eq_dec id playerId) as [->|Hnp].
        -- eexists. rewrite get_alter_eq, get_alter_ne, Hg by congruence.
           cbn [option_map]. split; [reflexivity|]. score_done o d.
        -- exists c. rewrite !get_alter_ne by congruence. score_done o d.
  - exists c. score_done c c.
Qed.

End LobbyLog.

(** ** Chunk boundaries, ignored frames and shots *)

Section Chunks.

Import Codec Binary64 Lobby.

Lemma alter_comm f g cs a b :
  (forall c, f (g c) = g (f c)) ->
  alter f (alter g cs a) b = alter g (alter f cs b) a.
Proof.
  intros H. induction cs as [|[k c] cs IH]; simpl; [reflexivity|].
  destruct (k =? a) eqn:Ea, (k =? b) eqn:Eb; simpl; rewrite ?Ea, ?Eb;
    try reflexivity.
  - now rewrite H.
  - now rewrite IH.
Qed.

Lemma alter_alter f g cs a :
  alter f (alter g cs a) a = alter (fun c => f (g c)) cs a.
Proof.
  induction cs as [|[k c] cs IH]; simpl; [reflexivity|].
  destruct (k =? a) eqn:Ea; simpl; rewrite Ea; [reflexivity|now rewrite IH].
Qed.

Lemma store_buffer_twice id b b' s :
  store_buffer id b (store_buffer id b' s) = store_buffer id b s.
Proof.
  unfold store_buffer, with_clients. cbn [clients nextId draws wire].
  now rewrite alter_alter.
Qed.

Lemma find_hit_buffer cs id b playerId origin direction :
  find_hit (alter (with_buffer b) cs id) playerId origin direction
  = find_hit cs playerId origin direction.
Proof.
  induction cs as [|[k c] cs IH]; simpl; [reflexivity|].
  destruct (k =? id); simpl; [reflexivity|].
  now rewrite IH.
Qed.

Lemma snapshot_buffer cs id b playerId :
  map (fun kc => (playerId, catch_up_message kc))
      (filter (in_snapshot playerId) (alter (with_buffer b) cs id))
  = map (fun kc => (playerId, catch_up_message kc))
        (filter (in_snapshot playerId) cs).
Proof.
  induction cs as [|[k c] cs IH]; simpl; [reflexivity|].
  destruct (k =? id); simpl.
  - unfold in_snapshot. cbn [fst snd name with_buffer].
    destruct (negb ((k =? playerId) || falsy (name c))); reflexivity.
  - destruct (in_snapshot playerId (k, c)); simpl; now rewrite IH.
Qed.

Lemma get_store_buffer id b s k :
  get (clients (store_buffer id b s)) k
  = option_map (fun c => if id =? k then with_buffer b c else c) (get (clients s) k).
Proof.
  unfold store_buffer. cbn [clients with_clients].
  destruct (Z.eqb_spec id k) as [->|Hne].
  - apply get_alter_eq.
  - rewrite get_alter_ne by assumption. now destruct (get (clients s) k).
Qed.

Lemma kill_store_buffer random playerId hitId ps id b s :
  kill random playerId hitId ps (store_buffer id b s)
  = store_buffer id b (kill random playerId hitId ps s).
Proof.
  unfold kill, next_random, store_buffer. cbn [clients nextId draws wire with_clients].
  rewrite !broadcast_eq. cbn [clients nextId draws wire with_clients].
  rewrite !ids_alter.
  f_equal.
  rewrite (alter_comm incr_kills (with_buffer b)) by reflexivity.
  rewrite (alter_comm incr_deaths (with_buffer b)) by reflexivity.
  rewrite (alter_comm (with_state _) (with_buffer b)) by reflexivity.
  reflexivity.
Qed.

Lemma handleMessage_store_buffer random playerId opcode m id b s :
  handleMessage random playerId opcode m (store_buffer id b s)
  = store_buffer id b (handleMessage random playerId opcode m s).
Proof.
  unfold handleMessage. destruct (negb (opcode =? 1)); [reflexivity|].
  destruct m as [nm st|st|o d|]; [| | |reflexivity].
  - unfold init, store_buffer. rewrite !catch_up_eq, !broadcast_eq.
    cbn [clients nextId draws wire with_clients].
    rewrite (alter_comm (with_profile nm st) (with_buffer b)) by reflexivity.
    rewrite snapshot_buffer, !ids_alter. reflexivity.
  - unfold do_update, store_buffer. rewrite !broadcastExcept_eq.
    cbn [clients nextId draws wire with_clients].
    rewrite (alter_comm (with_state st) (with_buffer b)) by reflexivity.
    rewrite !ids_alter. reflexivity.
  - unfold shoot. 
    change (clients (store_buffer id b s)) with (alter (with_buffer b) (clients s) id) at 1.
    rewrite find_hit_buffer.
    destruct (find_hit (clients s) playerId o d) as [hitId|]; [|reflexivity].
    destruct (hitId =? 0); [reflexivity|].
    rewrite get_store_buffer.
    destruct (get (clients s) hitId) as [victim|]; cbn [option_map]; [|reflexivity].
    assert (Hst : state (if id =? hitId then with_buffer b victim else victim) = state victim)
      by (destruct (id =? hitId); reflexivity).
    rewrite Hst. destruct (state victim) as [ps|]; [|reflexivity].
    cbv zeta.
    assert (E : with_clients
                  (alter (with_state (Some (set_health (ToNumber (st_health ps) - 25)%float ps)))
                         (clients (store_buffer id b s)) hitId) (store_buffer id b s)
                = store_buffer id b
                    (with_clients
                       (alter (with_state (Some (set_health (ToNumber (st_health ps) - 25)%float ps)))
                              (clients s) hitId) s)).
    { unfold store_buffer. cbn [clients nextId draws wire with_clients].
      rewrite (alter_comm (with_state _) (with_buffer b)) by reflexivity. reflexivity. }
    rewrite E. destruct (_ <=? 0)%float; [apply kill_store_buffer|reflexivity].
Qed.

Lemma fold_handle_store_buffer random decode playerId id b frames : forall s,
  fold_left (fun acc f => handleMessage random playerId (opcode f) (decode (payload f)) acc)
            frames (store_buffer id b s)
  = store_buffer id b
      (fold_left (fun acc f => handleMessage random playerId (opcode f) (decode (payload f)) acc)
                 frames s).
Proof.
  induction frames as [|f fs IH]; intros s; simpl; [reflexivity|].
  now rewrite handleMessage_store_buffer, IH.
Qed.

Lemma on_data_eq random decode id chunk s c frames rest :
  get (clients s) id = Some c ->
  parseBuffer (buffer c ++ chunk) = Some (frames, rest) ->
  on_data random decode id chunk s
  = store_buffer id rest
      (fold_left (fun acc f => handleMessage random id (opcode f) (decode (payload f)) acc)
                 frames s).
Proof.
  intros Hg Hp. unfold on_data. rewrite Hg. cbv zeta. rewrite Hp.
  change (with_clients (alter (with_buffer (buffer c ++ chunk)) (clients s) id) s)
    with (store_buffer id (buffer c ++ chunk) s).
  rewrite fold_handle_store_buffer.
  match goal with |- with_clients (alter (with_buffer rest) (clients ?x) id) ?x = _ =>
    change (with_clients (alter (with_buffer rest) (clients x) id) x)
      with (store_buffer id rest x) end.
  apply store_buffer_twice.
Qed.

Lemma get_fold_handle random decode playerId frames id c s :
  get (clients s) id = Some c ->
  exists c', get (clients (fold_left
        (fun acc f => handleMessage random playerId (opcode f) (decode (payload f)) acc)
        frames s)) id = Some c' /\ buffer c' = buffer c.
Proof.
  intros Hg.
  pose proof (fold_handle_buffer random decode playerId frames id s) as H.
  rewrite Hg in H. cbn [option_map] in H.
  match type of H with option_map buffer ?g = _ =>
    destruct g as [c'|]; [|discriminate H] end.
  exists c'. split; [reflexivity|]. cbn in H. congruence.
Qed.

(** X5. How the bytes of a connection are cut into chunks does not
    matter: handing the [data] handler two chunks one after the other
    leaves the server in the same state, with the same writes in the
    log, as handing it their concatenation. *)
Theorem chunking_is_invisible random decode id c1 c2 s :
  (forall c, get (clients s) id = Some c -> bytes (buffer c)) ->
  bytes c1 -> bytes c2 ->
  on_data random decode id c2 (on_data random decode id c1 s)
  = on_data random decode id (c1 ++ c2) s.
Proof.
  intros Hbuf H1 H2.
  destruct (get (clients s) id) as [c|] eqn:Hg.
  2:{ unfold on_data. rewrite Hg. cbv zeta. now rewrite Hg. }
  specialize (Hbuf c eq_refl).
  assert (Hall : bytes ((buffer c ++ c1) ++ c2)).
  { unfold bytes in *. rewrite !Forall_app. tauto. }
  destruct (parseBuffer_app _ _ Hall) as (fs & r & fs' & r' & P1 & P2 & P12).
  rewrite (on_data_eq random decode id c1 s c fs r Hg P1).
  rewrite <- app_assoc in P12.
  rewrite (on_data_eq random decode id (c1 ++ c2) s c _ _ Hg P12).
  destruct (get_fold_handle random decode id fs id c s Hg) as (c' & Hg' & Hb').
  set (s1 := fold_left _ fs s) in *.
  assert (Hg1 : get (clients (store_buffer id r s1)) id = Some (with_buffer r c')).
  { rewrite get_store_buffer, Hg', Z.eqb_refl. reflexivity. }
  rewrite (on_data_eq random decode id c2 _ _ fs' r' Hg1 P2).
  rewrite fold_handle_store_buffer, store_buffer_twice, fold_left_app.
  reflexivity.
Qed.

Lemma not_NaN_add x y : ~ NaN (x + y) -> ~ NaN x /\ ~ NaN y.
Proof. intros H. split; intros N; apply H, NaN_add; tauto. Qed.
Lemma not_NaN_sub x y : ~ NaN (x - y) -> ~ NaN x /\ ~ NaN y.
Proof. intros H. split; intros N; apply H, NaN_sub; tauto. Qed.
Lemma not_NaN_mul x y : ~ NaN (x * y) -> ~ NaN x /\ ~ NaN y.
Proof. intros H. split; intros N; apply H, NaN_mul; tauto. Qed.

Lemma hit_numbers origin direction ps :
  hit origin direction ps = true ->
  Forall (fun v => exists f, v = Some f /\ ~ NaN f)
         [st_x ps; st_y ps; st_z ps; vx origin; vy origin; vz origin;
          vx direction; vy direction; vz direction].
Proof.
  intros Hh.
  assert (Hp : ~ NaN (proj_of origin direction ps)).
  { intros N. unfold hit in Hh. cbv zeta in Hh.
    rewrite (NaN_ltb_l _ _ N), (NaN_ltb_r _ _ N) in Hh. cbn [orb] in Hh.
    rewrite (NaN_ltb_l _ _ (NaN_distSq _ _ _ N)) in Hh. discriminate. }
  unfold proj_of in Hp. cbv zeta in Hp.
  apply not_NaN_add in Hp as [Hp Hz]. apply not_NaN_add in Hp as [Hx Hy].
  apply not_NaN_mul in Hx as [Hx Hdx], Hy as [Hy Hdy], Hz as [Hz Hdz].
  apply not_NaN_sub in Hx as [Hx Hox], Hy as [Hy Hoy], Hz as [Hz Hoz].
  assert (K : forall v, ~ NaN (ToNumber v) -> exists f, v = Some f /\ ~ NaN f).
  { intros [f|] Hv; [now exists f|]. exfalso. apply Hv, NaN_nan. }
  repeat constructor; apply K; assumption.
Qed.

(** X12. The candidate loop of [shoot] only ever picks a connection
    other than the shooter that is registered with a state whose [x], [y]
    and [z] are all present and not NaN, and it picks nobody unless the
    three components of the origin and of the direction are present and
    not NaN as well. *)
Theorem shot_needs_numbers cs playerId origin direction hitId :
  find_hit cs playerId origin direction = Some hitId ->
  hitId <> playerId
  /\ exists victim ps,
       In (hitId, victim) cs /\ state victim = Some ps
       /\ Forall (fun v => exists f, v = Some f /\ ~ NaN f)
            [st_x ps; st_y ps; st_z ps; vx origin; vy origin; vz origin;
             vx direction; vy direction; vz direction].
Proof.
  intros H.
  destruct (find_hit_first _ _ _ _ _ H) as (before & victim & ps & after & E & Hne & Hst & Hh & _).
  split; [exact Hne|]. exists victim, ps. split; [|split; [exact Hst|]].
  - rewrite E. apply in_elt.
  - apply hit_numbers, Hh.
Qed.

Lemma leb_100_0 : (100 <=? 0)%float = false.
Proof. reflexivity. Qed.

(** X13. Whatever health the victim had stored, after a shot that
    hits, the health stored for the victim is not [<= 0]: it is either
    the old health less 25, and then nothing is written and the victim's
    death count stays, or, when the old health less 25 is [<= 0], it is
    100 and the victim's death count is one higher. *)
Theorem hit_leaves_health_above_zero random s playerId origin direction hitId :
  registry_ok s ->
  find_hit (clients s) playerId origin direction = Some hitId ->
  let s' := shoot random playerId origin direction s in
  exists victim ps victim' ps' h',
    get (clients s) hitId = Some victim /\ state victim = Some ps
    /\ get (clients s') hitId = Some victim' /\ state victim' = Some ps'
    /\ st_health ps' = Some h' /\ (h' <=? 0)%float = false
    /\ ((h' = (ToNumber (st_health ps) - 25)%float
         /\ emitted s s' = [] /\ deaths victim' = deaths victim)
        \/ (h' = 100%float
            /\ (ToNumber (st_health ps) - 25 <=? 0)%float = true
            /\ deaths victim' = deaths victim + 1)).
Proof.
  intros Hreg Hf s'.
  destruct (find_hit_get _ _ _ _ _ (proj1 Hreg) Hf) as (victim & ps & Hg & Hst & _ & Hne).
  pose proof (registry_ok_nonzero _ _ _ Hreg Hg) as Hz.
  destruct ((ToNumber (st_health ps) - 25 <=? 0)%float) eqn:Hh.
  - pose proof (shoot_kill random s playerId origin direction hitId victim ps Hf Hz Hg Hst Hh)
      as E. cbv zeta in E. fold s' in E.
    eexists victim, ps, _, _, _. split; [exact Hg|]. split; [exact Hst|].
    rewrite E. cbn [clients].
    rewrite get_alter_eq, get_alter_eq, get_alter_ne, get_alter_eq, Hg by congruence.
    cbn [option_map]. split; [reflexivity|]. split; [reflexivity|].
    split; [reflexivity|]. split; [exact leb_100_0|]. right.
    split; [reflexivity|]. split; [exact Hh|reflexivity].
  - pose proof (shoot_partial random s playerId origin direction hitId victim ps Hf Hz Hg Hst Hh)
      as E. fold s' in E.
    eexists victim, ps, _, _, _. split; [exact Hg|]. split; [exact Hst|].
    rewrite E. cbn [clients with_clients]. rewrite get_alter_eq, Hg. cbn [option_map].
    split; [reflexivity|]. split; [reflexivity|]. split; [reflexivity|].
    split; [exact Hh|]. left. split; [reflexivity|]. split; [|reflexivity].
    apply emitted_app. cbn [wire]. now rewrite app_nil_r.
Qed.

(** X14. A victim whose state carries no [health], or a NaN, cannot be
    killed: a shot that hits it writes nothing, draws no random number
    and changes no kill or death count; afterwards its health is NaN
    again and the same shot hits it again, so this repeats for ever. *)
Theorem missing_health_is_never_fatal random s playerId origin direction hitId victim ps :
  registry_ok s ->
  find_hit (clients s) playerId origin direction = Some hitId ->
  get (clients s) hitId = Some victim -> state victim = Some ps ->
  NaN (ToNumber (st_health ps)) ->
  let s' := shoot random playerId origin direction s in
  wire s' = wire s /\ draws s' = draws s
  /\ (forall k c, get (clients s) k = Some c ->
        exists c', get (clients s') k = Some c'
                   /\ kills c' = kills c /\ deaths c' = deaths c)
  /\ find_hit (clients s') playerId origin direction = Some hitId
  /\ exists victim' ps', get (clients s') hitId = Some victim' /\ state victim' = Some ps'
       /\ NaN (ToNumber (st_health ps')).
Proof.
  intros Hreg Hf Hg Hst Hn s'.
  pose proof (registry_ok_nonzero _ _ _ Hreg Hg) as Hz.
  assert (Hn' : NaN (ToNumber (st_health ps) - 25)%float) by (apply NaN_sub; now left).
  pose proof (shoot_partial random s playerId origin direction hitId victim ps Hf Hz Hg Hst
                (NaN_leb_l _ _ Hn')) as E.
  fold s' in E. rewrite E. cbn [wire draws clients with_clients].
  split; [reflexivity|]. split; [reflexivity|]. split; [|split].
  - intros k c Hk. destruct (Z.eq_dec hitId k) as [<-|Hne].
    + rewrite get_alter_eq, Hk. cbn [option_map]. eexists. split; [reflexivity|].
      split; reflexivity.
    + rewrite get_alter_ne by assumption. exists c. now split.
  - rewrite (find_hit_alter_health _ _ _ _ _ _ _ _ Hg Hst). exact Hf.
  - rewrite get_alter_eq, Hg. cbn [option_map]. eexists _, _. split; [reflexivity|].
    split; [reflexivity|]. exact Hn'.
Qed.

(** X6. Frames that are not text frames (close, ping, pong, binary,
    continuation) and text frames whose payload is no [init], [update] or
    [shoot] message are dropped: a chunk made of such frames writes
    nothing, changes no player and removes nobody; it only leaves the
    unread bytes in the sender's buffer. *)
Theorem other_frames_only_move_the_buffer random decode playerId chunk s c frames rest :
  get (clients s) playerId = Some c ->
  parseBuffer (buffer c ++ chunk) = Some (frames, rest) ->
  Forall (fun f => opcode f <> 1 \/ decode (payload f) = Other) frames ->
  on_data random decode playerId chunk s = store_buffer playerId rest s.
Proof.
  intros Hg Hp Hall. rewrite (on_data_eq random decode playerId chunk s c frames rest Hg Hp).
  f_equal. clear Hp. induction Hall as [|f fs Hf _ IH]; simpl; [reflexivity|].
  assert (E : handleMessage random playerId (opcode f) (decode (payload f)) s = s).
  { unfold handleMessage. destruct Hf as [Hf|Hf].
    - destruct (Z.eqb_spec (opcode f) 1); [contradiction|reflexivity].
    - rewrite Hf. now destruct (negb _). }
  rewrite E. exact IH.
Qed.

End Chunks.

(** ** The scoreboard over a run *)

Section Scores.

Import Codec Binary64 Lobby.

Lemma announced_app p id w w' :
  announced p id (w ++ w') = announced p id w + announced p id w'.
Proof.
  unfold announced. rewrite received_app, filter_app, length_app. lia.
Qed.

Lemma announced_quiet p id w :
  (forall e, p e = true -> is_playerKilled e = true) ->
  Forall (fun ce => is_playerKilled (snd ce) = false) w ->
  announced p id w = 0.
Proof.
  intros Hp Hw. unfold announced, received.
  induction Hw as [|[k e] w He _ IH]; [reflexivity|].
  cbn [filter fst snd]. destruct (k =? id); [|exact IH].
  cbn [map filter snd]. destruct (p e) eqn:E; [|exact IH].
  apply Hp in E. cbn [snd] in He. congruence.
Qed.

Lemma names_killer_kill id e : names_killer id e = true -> is_playerKilled e = true.
Proof. now destruct e. Qed.

Lemma names_victim_kill id e : names_victim id e = true -> is_playerKilled e = true.
Proof. now destruct e. Qed.

Lemma quiet_map {A} (dst : A -> Z) (msg : A -> event) l :
  (forall x, is_playerKilled (msg x) = false) ->
  Forall (fun ce => is_playerKilled (snd ce) = false) (map (fun x => (dst x, msg x)) l).
Proof. intros H. apply Forall_forall. intros ce Hin. apply in_map_iff in Hin as (x & <- & _). apply H. Qed.

Lemma get_alter_inv f cs a id c' :
  get (alter f cs a) id = Some c' ->
  exists c, get cs id = Some c /\ c' = if a =? id then f c else c.
Proof.
  destruct (Z.eqb_spec a id) as [->|Hne].
  - rewrite get_alter_eq. destruct (get cs id) as [c|]; [|discriminate].
    intros [= <-]. now exists c.
  - rewrite get_alter_ne by assumption. intros H. now exists c'.
Qed.

(** Appending writes that announce no kill, under a registry change that
    keeps the counters. *)
Lemma scores_quiet s s' w :
  scores_ok s ->
  wire s' = wire s ++ w ->
  Forall (fun ce => is_playerKilled (snd ce) = false) w ->
  (forall id c', get (clients s') id = Some c' ->
     exists c, get (clients s) id = Some c /\ kills c' = kills c /\ deaths c' = deaths c) ->
  scores_ok s'.
Proof.
  intros Hs Hw Hq Hc id c' Hg. destruct (Hc id c' Hg) as (c & Hgc & -> & ->).
  rewrite Hw, !announced_app.
  rewrite (announced_quiet _ id w (names_killer_kill id) Hq).
  rewrite (announced_quiet _ id w (names_victim_kill id) Hq).
  rewrite !Z.add_0_r. now apply Hs.
Qed.

Lemma handleMessage_scores random playerId opcode m s :
  NoDup (ids (clients s)) -> scores_ok s ->
  scores_ok (handleMessage random playerId opcode m s).
Proof.
  intros Hnd Hs. unfold handleMessage. destruct (negb (opcode =? 1)); [exact Hs|].
  destruct m as [nm st|st|o d|]; [| | |exact Hs].
  - unfold init. rewrite catch_up_eq, broadcast_eq.
    cbn [clients nextId draws wire with_clients]. rewrite <- app_assoc.
    eapply (scores_quiet s _ _ Hs); [reflexivity| |].
    + apply Forall_app. split; apply Forall_forall; intros ce Hin;
        apply in_map_iff in Hin as (x & <- & _); reflexivity.
    + cbn [clients]. intros id c' Hg. apply get_alter_inv in Hg as (c & Hg & ->).
      exists c. split; [exact Hg|]. now destruct (playerId =? id).
  - unfold do_update. rewrite broadcastExcept_eq.
    cbn [clients nextId draws wire with_clients].
    eapply (scores_quiet s _ _ Hs); [reflexivity| |].
    + apply Forall_forall; intros ce Hin;
        apply in_map_iff in Hin as (x & <- & _); reflexivity.
    + cbn [clients]. intros id c' Hg. apply get_alter_inv in Hg as (c & Hg & ->).
      exists c. split; [exact Hg|]. now destruct (playerId =? id).
  - destruct (shoot_cases random s playerId o d)
      as [->|(hitId & victim & ps & _ & _ & Hne & Hgv & _ & [[_ ->]|[_ ->]])];
      [exact Hs| |].
    + apply (scores_quiet s _ [] Hs); [cbn; now rewrite app_nil_r|constructor|].
      cbn [clients with_clients]. intros id c' Hg.
      apply get_alter_inv in Hg as (c & Hg & ->).
      exists c. split; [exact Hg|]. now destruct (hitId =? id).
    + intros id c' Hg. cbn [clients wire] in *.
      apply get_alter_inv in Hg as (c3 & Hg & ->).
      apply get_alter_inv in Hg as (c2 & Hg & ->).
      apply get_alter_inv in Hg as (c1 & Hg & ->).
      apply get_alter_inv in Hg as (c & Hg & ->).
      destruct (Hs id c Hg) as [Hk Hd].
      rewrite (announced_app (names_killer id) id (wire s)),
        (announced_app (names_victim id) id (wire s)), <- Hk, <- Hd.
      unfold announced.
      rewrite (received_two id (ids (clients s)) _ _ Hnd (get_ids _ _ _ Hg)).
      cbn [filter names_killer names_victim].
      destruct (hitId =? id), (playerId =? id); cbn; lia.
Qed.

Lemma fold_handle_scores random decode playerId frames : forall s,
  NoDup (ids (clients s)) -> scores_ok s ->
  scores_ok (fold_left
               (fun acc f => handleMessage random playerId (opcode f) (decode (payload f)) acc)
               frames s).
Proof.
  induction frames as [|f fs IH]; intros s Hnd Hs; [exact Hs|].
  cbn [fold_left]. apply IH.
  - rewrite (proj1 (handleMessage_registry random playerId (opcode f) (decode (payload f)) s)).
    exact Hnd.
  - now apply handleMessage_scores.
Qed.

Lemma store_buffer_scores id b s : scores_ok s -> scores_ok (store_buffer id b s).
Proof.
  intros Hs. apply (scores_quiet s _ [] Hs); [cbn; now rewrite app_nil_r|constructor|].
  intros k c' Hg. unfold store_buffer in Hg. cbn [clients with_clients] in Hg.
  apply get_alter_inv in Hg as (c & Hg & ->).
  exists c. split; [exact Hg|]. now destruct (id =? k).
Qed.

Lemma step_scores random decode s i :
  log_ok s -> scores_ok s -> scores_ok (step random decode s i).
Proof.
  intros (Hreg & _ & Hto & _) Hs. destruct i as [k|id chunk|id]; cbn [step].
  - unfold upgrade. destruct (negb k); [exact Hs|].
    unfold send. cbn [clients nextId draws wire].
    assert (Hfresh : forall id c, get (clients s) id = Some c -> id <> nextId s).
    { intros id c Hg. apply get_ids in Hg. destruct Hreg as (_ & _ & Hr).
      rewrite Forall_forall in Hr. specialize (Hr _ Hg). lia. }
    intros id c' Hg. cbn [clients wire] in *.
    destruct (Z.eq_dec (nextId s) id) as [<-|Hne].
    + rewrite get_set_eq in Hg. injection Hg as <-. cbn [kills deaths].
      rewrite !announced_app. unfold announced.
      rewrite (received_none (nextId s) (wire s))
        by (intros c e Hin; specialize (Hto c e Hin); lia).
      cbn. rewrite Z.eqb_refl. split; reflexivity.
    + rewrite get_set_ne in Hg by assumption.
      rewrite !announced_app. destruct (Hs id c' Hg) as [-> ->].
      assert (Z0 : forall p, announced p id [(nextId s, welcome (nextId s))] = 0).
      { intros p. unfold announced, received. cbn [filter fst].
        destruct (Z.eqb_spec (nextId s) id); [contradiction|reflexivity]. }
      rewrite !Z0. lia.
  - destruct (get (clients s) id) as [c|] eqn:Hg.
    2:{ unfold on_data. rewrite Hg. exact Hs. }
    destruct (parseBuffer (buffer c ++ chunk)) as [[frames rest]|] eqn:Hp.
    + rewrite (on_data_eq random decode id chunk s c frames rest Hg Hp).
      apply store_buffer_scores, fold_handle_scores; [exact (proj1 Hreg)|exact Hs].
    + unfold on_data. rewrite Hg. cbv zeta. rewrite Hp.
      exact (store_buffer_scores id _ s Hs).
  - unfold removeClient. destruct (get (clients s) id) as [c|] eqn:Hg; [|exact Hs].
    rewrite broadcast_eq. cbn [clients nextId draws wire with_clients].
    eapply (scores_quiet s _ _ Hs); [reflexivity| |].
    + apply Forall_forall; intros ce Hin;
        apply in_map_iff in Hin as (x & <- & _); reflexivity.
    + cbn [clients]. intros k c' Hk. exists c'. split; [|now split].
      destruct (Z.eq_dec id k) as [<-|Hne].
      * now rewrite get_delete_eq in Hk.
      * now rewrite get_delete_ne in Hk.
Qed.

Lemma run_scores random decode inputs : forall s,
  log_ok s -> scores_ok s -> scores_ok (run random decode s inputs).
Proof.
  induction inputs as [|i inputs IH]; intros s Hl Hs; [exact Hs|].
  cbn [run fold_left]. apply IH.
  - now apply step_log_ok.
  - now apply step_scores.
Qed.

(** X15. The scoreboard agrees with what was announced: after any
    sequence of handshakes, chunks and closes from the initial state,
    the kill count of every registered connection is the number of
    [playerKilled] messages naming it as the killer that were written to
    it, and its death count is the number of those naming it as the
    victim. *)
Theorem scoreboard_matches_announcements random decode inputs id c :
  let s := run random decode initial inputs in
  get (clients s) id = Some c ->
  kills c = announced (names_killer id) id (wire s)
  /\ deaths c = announced (names_victim id) id (wire s).
Proof.
  intros s Hg.
  apply (run_scores random decode inputs initial initial_log_ok); [|exact Hg].
  intros k c' H. discriminate H.
Qed.

End Scores.

(** ** The client against the server *)

Section ClientView.

Import Binary64 Lobby.

Lemma client_get_set_other ps k p me :
  k <> me -> Client.get ps me = None -> Client.get (Client.set ps k p) me = None.
Proof.
  intros Hne. induction ps as [|[k0 p0] ps IH]; cbn.
  - intros _. destruct (Z.eqb_spec k me); [contradiction|reflexivity].
  - destruct (Z.eqb_spec k0 me) as [->|H0]; [discriminate|]. intros Hg.
    destruct (k0 =? k); cbn; destruct (Z.eqb_spec k0 me); try contradiction; auto.
Qed.

Lemma client_get_alter f ps k me :
  Client.get ps me = None -> Client.get (Client.alter f ps k) me = None.
Proof.
  induction ps as [|[k0 p0] ps IH]; cbn; [reflexivity|].
  destruct (Z.eqb_spec k0 me) as [->|H0]; [discriminate|]. intros Hg.
  destruct (k0 =? k); cbn; destruct (Z.eqb_spec k0 me); try contradiction; auto.
Qed.

Lemma client_get_delete ps k me :
  Client.get ps me = None -> Client.get (Client.delete ps k) me = None.
Proof.
  induction ps as [|[k0 p0] ps IH]; cbn; [reflexivity|].
  destruct (Z.eqb_spec k0 me) as [->|H0]; [discriminate|]. intros Hg.
  destruct (negb (k0 =? k)); cbn; [|auto].
  destruct (Z.eqb_spec k0 me); [contradiction|auto].
Qed.

(** One message that is not a [welcome], handled by a client that knows
    who it is and does not list itself. *)
Lemma onmessage_quiet playerName me e v :
  is_welcome e = false ->
  Client.playerId v = Some me -> Client.get (Client.players v) me = None ->
  let v' := Client.onmessage playerName e v in
  Client.playerId v' = Some me
  /\ Client.get (Client.players v') me = None
  /\ Client.localKills v' = Client.localKills v + (if names_killer me e then 1 else 0)
  /\ Client.localDeaths v' = Client.localDeaths v + (if names_victim me e then 1 else 0)
  /\ Client.sent v' = Client.sent v.
Proof.
  intros He Hme Hout.
  assert (Hdone : Client.playerId v = Some me
                  /\ Client.get (Client.players v) me = None
                  /\ Client.localKills v = Client.localKills v + 0
                  /\ Client.localDeaths v = Client.localDeaths v + 0
                  /\ Client.sent v = Client.sent v)
    by (repeat split; try assumption; lia).
  destruct e as [id|id nm st score|id|id st|killer victim]; [discriminate| | | |];
    cbn [Client.onmessage names_killer names_victim]; cbv zeta;
    unfold Client.is_me; rewrite ?Hme.
  - destruct (Z.eqb_spec id me) as [->|Hne]; [exact Hdone|].
    destruct st as [ps|]; [|exact Hdone].
    cbn. repeat split; try assumption; try lia.
    now apply client_get_set_other.
  - destruct (Client.get (Client.players v) id); [|exact Hdone].
    cbn. repeat split; try assumption; try lia.
    now apply client_get_delete.
  - destruct (Z.eqb_spec id me) as [->|Hne].
    + destruct st as [ps|]; [|exact Hdone].
      cbn. repeat split; try assumption; lia.
    + cbn. repeat split; try assumption; try lia.
      now apply client_get_alter.
  - cbn. repeat split; try assumption.
    now apply client_get_alter, client_get_alter.
Qed.

Lemma watch_quiet playerName me events : forall v,
  Forall (fun e => is_welcome e = false) events ->
  Client.playerId v = Some me -> Client.get (Client.players v) me = None ->
  let v' := Client.watch playerName events v in
  Client.playerId v' = Some me
  /\ Client.get (Client.players v') me = None
  /\ Client.localKills v'
     = Client.localKills v + Z.of_nat (length (filter (names_killer me) events))
  /\ Client.localDeaths v'
     = Client.localDeaths v + Z.of_nat (length (filter (names_victim me) events))
  /\ Client.sent v' = Client.sent v.
Proof.
  induction events as [|e events IH]; intros v Hq Hme Hout; cbv zeta.
  - cbn. repeat split; try assumption; lia.
  - inversion Hq as [|? ? He Hq']; subst.
    destruct (onmessage_quiet playerName me e v He Hme Hout) as (H1 & H2 & H3 & H4 & H5).
    destruct (IH _ Hq' H1 H2) as (I1 & I2 & I3 & I4 & I5).
    change (Client.watch playerName (e :: events) v)
      with (Client.watch playerName events (Client.onmessage playerName e v)).
    split; [exact I1|]. split; [exact I2|].
    rewrite I3, I4, I5, H3, H4, H5. cbn [filter].
    destruct (names_killer me e), (names_victim me e); cbn [length];
      repeat split; lia.
Qed.

Lemma received_filter p id w :
  filter p (received id w) = received id (filter (fun ce => p (snd ce)) w).
Proof.
  unfold received. induction w as [|[k e] w IH]; cbn; [reflexivity|].
  destruct (k =? id) eqn:Ek, (p e) eqn:Ep; cbn; rewrite ?Ek, ?Ep; cbn; now rewrite IH.
Qed.

Lemma received_welcomes_none id a m :
  (forall k, In k (seq a m) -> Z.of_nat k <> id) ->
  received id (map (fun k => (Z.of_nat k, welcome (Z.of_nat k))) (seq a m)) = [].
Proof.
  intros H. apply received_none. intros c e Hin.
  apply in_map_iff in Hin as (k & [= <- <-] & Hk). now apply H.
Qed.

Lemma received_welcomes_once id m : forall a,
  (length (received id (map (fun k => (Z.of_nat k, welcome (Z.of_nat k))) (seq a m))) <= 1)%nat.
Proof.
  induction m as [|m IH]; intros a; [cbn; lia|].
  cbn [seq map]. unfold received. cbn [filter fst].
  destruct (Z.eqb_spec (Z.of_nat a) id) as [E|E].
  - cbn [map length]. fold (received id (map (fun k => (Z.of_nat k, welcome (Z.of_nat k)))
                                             (seq (S a) m))).
    rewrite received_welcomes_none; [cbn; lia|].
    intros k Hk. apply in_seq in Hk. lia.
  - apply IH.
Qed.

Lemma filter_nil_Forall {A} (p : A -> bool) l :
  filter p l = [] -> Forall (fun x => p x = false) l.
Proof.
  induction l as [|x l IH]; cbn; [constructor|].
  destruct (p x) eqn:E; [discriminate|]. intros H. constructor; auto.
Qed.

Lemma one_welcome s id rest :
  log_ok s -> received id (wire s) = welcome id :: rest ->
  Forall (fun e => is_welcome e = false) rest.
Proof.
  intros (_ & Hw & _ & _) Hr. apply filter_nil_Forall.
  pose proof (received_filter is_welcome id (wire s)) as H.
  rewrite Hw, Hr in H. cbn [filter is_welcome] in H.
  pose proof (received_welcomes_once id (Z.to_nat (nextId s - 1)) 1) as Hl.
  unfold welcomes in H. rewrite <- H in Hl. cbn [length] in Hl.
  destruct (filter is_welcome rest); [reflexivity|cbn in Hl; lia].
Qed.

(** X16. The client's own counters are the server's. Whatever
    handshakes, chunks and closes the server has handled from its
    initial state, a client whose [onmessage] handler has handled the
    messages written to a connection still registered has [playerId] set
    to that connection's identity by the [welcome], [localKills] and
    [localDeaths] equal to the kill and death counts the server keeps
    for that connection, no entry for itself in [players], and has sent
    exactly one [init]. This is about the variables only, not about what
    is drawn from them: [endMatch] builds the player's own row from
    [localState.kills] and [localState.deaths] instead. *)
Theorem local_counts_are_the_servers random decode inputs id c playerName start :
  let s := run random decode initial inputs in
  get (clients s) id = Some c ->
  let v := Client.watch playerName (received id (wire s)) (Client.opened start) in
  Client.playerId v = Some id
  /\ Client.localKills v = kills c
  /\ Client.localDeaths v = deaths c
  /\ Client.get (Client.players v) id = None
  /\ exists st, Client.sent v = [Init playerName st].
Proof.
  intros s Hg v.
  pose proof (run_log_ok random decode inputs initial initial_log_ok) as Hlog.
  fold s in Hlog.
  assert (Hsc : scores_ok s).
  { apply (run_scores random decode inputs initial initial_log_ok).
    intros k c' H. discriminate H. }
  destruct (Hsc id c Hg) as [Hk Hd].
  destruct Hlog as (Hreg & Hw & Hto & Hfirst).
  destruct (Hfirst id (get_ids _ _ _ Hg)) as (rest & Hr).
  pose proof (one_welcome s id rest (conj Hreg (conj Hw (conj Hto Hfirst))) Hr) as Hq.
  unfold announced in Hk, Hd. rewrite Hr in Hk, Hd. cbn [filter names_killer names_victim] in Hk, Hd.
  unfold v. rewrite Hr.
  change (Client.watch playerName (welcome id :: rest) (Client.opened start))
    with (Client.watch playerName rest
            (Client.onmessage playerName (welcome id) (Client.opened start))).
  destruct (watch_quiet playerName id rest
              (Client.onmessage playerName (welcome id) (Client.opened start))
              Hq eq_refl eq_refl) as (H1 & H2 & H3 & H4 & H5).
  split; [exact H1|]. split; [rewrite H3, Hk; cbn; lia|].
  split; [rewrite H4, Hd; cbn; lia|]. split; [exact H2|].
  exists (Some start). rewrite H5. reflexivity.
Qed.

End ClientView.

(** ** The further properties at sample inputs *)

Section MoreInstances.

Import Codec Binary64 Lobby.

Ltac all_bytes := repeat constructor; unfold is_byte; cbn; lia.

(** X1, witness: three payloads, one of them empty, as written and
    masked under the key 1, 2, 3, 4. *)
Lemma coalesced_frames_witness :
  Forall (fun data => Z.of_nat (length data) < 2 ^ 64) [[104]; []; [105; 106]]
  /\ length [1; 2; 3; 4] = 4%nat
  /\ parseBuffer (concat (map sendWS [[104]; []; [105; 106]]))
     = Some ([text [104]; text []; text [105; 106]], [])
  /\ concat (map (fun data => mask_frame [1; 2; 3; 4] (sendWS data)) [[104]; []; [105; 106]])
     = [129; 129; 1; 2; 3; 4; 105; 129; 128; 1; 2; 3; 4; 129; 130; 1; 2; 3; 4; 104; 104]
  /\ parseBuffer
       [129; 129; 1; 2; 3; 4; 105; 129; 128; 1; 2; 3; 4; 129; 130; 1; 2; 3; 4; 104; 104]
     = Some ([text [104]; text []; text [105; 106]], []).
Proof.
  assert (H : Forall (fun data => Z.of_nat (length data) < 2 ^ 64) [[104]; []; [105; 106]])
    by (repeat constructor; cbn; lia).
  split; [exact H|]. split; [reflexivity|].
  destruct (coalesced_frames_roundtrip [[104]; []; [105; 106]] [1; 2; 3; 4] H eq_refl)
    as (H1 & H2 & _).
  split; [exact H1|]. split; [reflexivity|]. exact H2.
Defined.

(** X2, witness: a payload of two bytes takes a header of two. *)
Lemma sendWS_well_formed_witness :
  bytes [104; 105]
  /\ bytes (sendWS [104; 105])
  /\ Z.of_nat (length (sendWS [104; 105])) = 2 + 2.
Proof.
  assert (H : bytes [104; 105]) by all_bytes.
  split; [exact H|].
  pose proof (sendWS_well_formed [104; 105] H) as W. cbv zeta in W.
  destruct W as (Hb & _ & _ & Hl & _).
  split; [exact Hb|exact Hl].
Defined.

(** X3, witness: the frame of a two-byte payload, cut before its last
    byte. *)
Lemma partial_frame_witness :
  wire_frame (sendWS [104; 105]) (text [104; 105])
  /\ sendWS [104; 105] = [129; 2; 104] ++ [105]
  /\ [105] <> []
  /\ bytes [129; 2; 104]
  /\ parseBuffer [129; 2; 104] = Some ([], [129; 2; 104])
  /\ parseBuffer ([129; 2; 104] ++ [105]) = Some ([text [104; 105]], []).
Proof.
  assert (W : wire_frame (sendWS [104; 105]) (text [104; 105]))
    by (apply sendWS_wire; cbn; lia).
  assert (Hq : [105] <> []) by discriminate.
  assert (Hb : bytes [129; 2; 104]) by all_bytes.
  split; [exact W|]. split; [reflexivity|]. split; [exact Hq|]. split; [exact Hb|].
  exact (partial_frame_waits _ _ [129; 2; 104] [105] W eq_refl Hq Hb).
Defined.

(** X4, witness: with FIN cleared, the first fragment of a text message
    is read as a text frame. *)
Lemma first_byte_witness :
  parseBuffer [129; 1; 104] = Some ([text [104]], [])
  /\ parseBuffer [1; 1; 104] = Some ([text [104]], []).
Proof.
  assert (H : parseBuffer (129 :: [1; 104]) = Some ([text [104]], [])) by reflexivity.
  split; [exact H|].
  exact (proj2 (first_byte_matters_only_as_opcode 129 1 [1; 104] _ _ _ H)).
Defined.

(** X5, witness: the masked frame of an [init], cut after its third
    byte, sent by connection 3 of the sample lobby. *)
Lemma chunking_witness :
  (forall c, get (clients two_joined) 3 = Some c -> bytes (buffer c))
  /\ bytes [129; 129; 1] /\ bytes [2; 3; 4; 104]
  /\ on_data quarter one_letter 3 [2; 3; 4; 104]
       (on_data quarter one_letter 3 [129; 129; 1] two_joined)
     = on_data quarter one_letter 3 (mask_frame [1; 2; 3; 4] (sendWS [105])) two_joined.
Proof.
  assert (H0 : forall c, get (clients two_joined) 3 = Some c -> bytes (buffer c))
    by (intros c [= <-]; constructor).
  assert (H1 : bytes [129; 129; 1]) by all_bytes.
  assert (H2 : bytes [2; 3; 4; 104]) by all_bytes.
  split; [exact H0|]. split; [exact H1|]. split; [exact H2|].
  exact (chunking_is_invisible quarter one_letter 3 [129; 129; 1] [2; 3; 4; 104]
           two_joined H0 H1 H2).
Defined.

(** X6, witness: a close frame and a ping from connection 1 of the
    sample lobby change nothing. *)
Lemma other_frames_witness :
  get (clients two_joined) 1 = Some (player "ann" (standing 0 0 100))
  /\ parseBuffer (buffer (player "ann" (standing 0 0 100)) ++ [136; 0; 137; 0])
     = Some ([{| opcode := 8; payload := [] |}; {| opcode := 9; payload := [] |}], [])
  /\ on_data quarter one_letter 1 [136; 0; 137; 0] two_joined = store_buffer 1 [] two_joined
  /\ store_buffer 1 [] two_joined = two_joined.
Proof.
  split; [reflexivity|]. split; [reflexivity|]. split; [|reflexivity].
  apply (other_frames_only_move_the_buffer quarter one_letter 1 [136; 0; 137; 0] two_joined
           (player "ann" (standing 0 0 100))
           [{| opcode := 8; payload := [] |}; {| opcode := 9; payload := [] |}] []
           eq_refl eq_refl).
  repeat constructor; left; discriminate.
Defined.

(** X8, witness: connection 1 joins after its handshake and connection 2
    closes. *)
Lemma welcome_comes_first_witness :
  In 1 (ids (clients (run quarter one_letter initial
                        [Upgrade true; Upgrade true;
                         Data 1 (mask_frame [1; 2; 3; 4] (sendWS [105])); Close 2])))
  /\ exists rest,
       received 1 (wire (run quarter one_letter initial
                           [Upgrade true; Upgrade true;
                            Data 1 (mask_frame [1; 2; 3; 4] (sendWS [105])); Close 2]))
       = welcome 1 :: rest.
Proof.
  assert (H : In 1 (ids (clients (run quarter one_letter initial
                        [Upgrade true; Upgrade true;
                         Data 1 (mask_frame [1; 2; 3; 4] (sendWS [105])); Close 2]))))
    by (left; reflexivity).
  split; [exact H|].
  exact (welcome_comes_first quarter one_letter _ 1 H).
Defined.

(** X9, witness: connection 1 of the sample lobby closes; then a new
    connection arrives and connection 2 sends an [update]. *)
Lemma closed_connection_witness :
  registry_ok two_joined
  /\ get (clients two_joined) 1 = Some (player "ann" (standing 0 0 100))
  /\ ~ In 1 (ids (clients (run quarter one_letter (removeClient 1 two_joined)
                             [Upgrade true;
                              Data 2 (mask_frame [1; 2; 3; 4] (sendWS [117]))]))).
Proof.
  split; [exact two_joined_registry|]. split; [reflexivity|].
  exact (proj1 (closed_connection_is_forgotten quarter one_letter two_joined 1 _
                  [Upgrade true; Data 2 (mask_frame [1; 2; 3; 4] (sendWS [117]))]
                  two_joined_registry eq_refl)).
Defined.

(** X10, witness: connection 1 of the sample lobby moves; connections 2
    and 3 are told, connection 1 is not. *)
Lemma update_witness :
  NoDup (ids (clients two_joined))
  /\ get (clients two_joined) 1 = Some (player "ann" (standing 0 0 100))
  /\ emitted two_joined
       (handleMessage quarter 1 1 (Update (Some (standing 1 1 100))) two_joined)
     = [(2, update 1 (Some (standing 1 1 100))); (3, update 1 (Some (standing 1 1 100)))]
  /\ received 1 (emitted two_joined
       (handleMessage quarter 1 1 (Update (Some (standing 1 1 100))) two_joined)) = [].
Proof.
  split; [exact (proj1 two_joined_registry)|]. split; [reflexivity|].
  split; [reflexivity|].
  exact (proj1 (proj2 (update_reaches_everyone_else quarter two_joined 1 _
                         (Some (standing 1 1 100)) (proj1 two_joined_registry) eq_refl))).
Defined.

(** X11, witness: the shot that kills player 2 of the duel raises its
    death count by one and leaves its kill count alone. *)
Lemma scores_witness :
  get (clients (duel 25)) 2 = Some (player "bob" (standing 0 10 25))
  /\ exists c',
       get (clients (handleMessage quarter 1 1 (Shoot from_origin along_z) (duel 25))) 2
       = Some c'
       /\ kills c' = 0 /\ deaths c' = 1.
Proof.
  split; [reflexivity|].
  destruct (scores_are_server_side quarter (duel 25) 1 1 (Shoot from_origin along_z) 2 _
              eq_refl) as (c' & Hg & _).
  exists c'. split; [exact Hg|].
  cbv in Hg. injection Hg as <-. split; reflexivity.
Defined.

(** X12, witness: the shot of the duel. *)
Lemma shot_needs_numbers_witness :
  find_hit (clients (duel 100)) 1 from_origin along_z = Some 2
  /\ 2 <> 1
  /\ exists victim ps,
       In (2, victim) (clients (duel 100)) /\ state victim = Some ps
       /\ Forall (fun v => exists f, v = Some f /\ ~ NaN f)
            [st_x ps; st_y ps; st_z ps;
             vx from_origin; vy from_origin; vz from_origin;
             vx along_z; vy along_z; vz along_z].
Proof.
  split; [reflexivity|].
  exact (shot_needs_numbers (clients (duel 100)) 1 from_origin along_z 2 eq_refl).
Defined.

(** X13, witness: the shot that takes player 2 of the duel from 25 to
    0 leaves it with a health that is not [<= 0]. *)
Lemma hit_leaves_health_witness :
  registry_ok (duel 25)
  /\ find_hit (clients (duel 25)) 1 from_origin along_z = Some 2
  /\ exists victim' ps' h',
       get (clients (shoot quarter 1 from_origin along_z (duel 25))) 2 = Some victim'
       /\ state victim' = Some ps' /\ st_health ps' = Some h'
       /\ (h' <=? 0)%float = false.
Proof.
  split; [apply duel_registry|]. split; [reflexivity|].
  destruct (hit_leaves_health_above_zero quarter (duel 25) 1 from_origin along_z 2
              (duel_registry 25) eq_refl)
    as (_ & _ & victim' & ps' & h' & _ & _ & Hg & Hs & Hh & Hp & _).
  exists victim', ps', h'. repeat split; assumption.
Defined.

(** X14, witness: player 2 of the duel has no [health]. *)
Lemma missing_health_witness :
  registry_ok (duel_with no_health)
  /\ find_hit (clients (duel_with no_health)) 1 from_origin along_z = Some 2
  /\ get (clients (duel_with no_health)) 2 = Some (player "bob" no_health)
  /\ state (player "bob" no_health) = Some no_health
  /\ NaN (ToNumber (st_health no_health))
  /\ wire (shoot quarter 1 from_origin along_z (duel_with no_health)) = []
  /\ find_hit (clients (shoot quarter 1 from_origin along_z (duel_with no_health)))
       1 from_origin along_z = Some 2.
Proof.
  assert (R : registry_ok (duel_with no_health)).
  { unfold registry_ok. change (ids (clients (duel_with no_health))) with [1; 2].
    change (nextId (duel_with no_health)) with 3.
    split; [repeat constructor; cbn; intuition discriminate|].
    split; [lia|]. repeat constructor; lia. }
  split; [exact R|]. split; [reflexivity|]. split; [reflexivity|]. split; [reflexivity|].
  split; [reflexivity|].
  pose proof (missing_health_is_never_fatal quarter (duel_with no_health) 1
                from_origin along_z 2 _ _ R eq_refl eq_refl eq_refl eq_refl) as H.
  cbv zeta in H. destruct H as (Hw & _ & _ & Hf & _).
  split; [exact Hw|exact Hf].
Defined.

(** X15, witness: after the skirmish connection 1 has one kill and was
    sent one announcement of it. *)
Lemma scoreboard_witness :
  get (clients (run quarter one_letter initial skirmish)) 1
  = Some {| name := "ann"; state := Some (standing 0 0 100);
            kills := 1; deaths := 0; buffer := [] |}
  /\ announced (names_killer 1) 1 (wire (run quarter one_letter initial skirmish)) = 1.
Proof.
  assert (H : get (clients (run quarter one_letter initial skirmish)) 1
              = Some {| name := "ann"; state := Some (standing 0 0 100);
                        kills := 1; deaths := 0; buffer := [] |}) by reflexivity.
  split; [exact H|].
  exact (eq_sym (proj1 (scoreboard_matches_announcements quarter one_letter skirmish 1 _ H))).
Defined.

(** X16, witness: after the skirmish the client of connection 1 has
    counted one kill and no death. *)
Lemma local_counts_witness :
  get (clients (run quarter one_letter initial skirmish)) 1
  = Some {| name := "ann"; state := Some (standing 0 0 100);
            kills := 1; deaths := 0; buffer := [] |}
  /\ Client.localKills
       (Client.watch "ann" (received 1 (wire (run quarter one_letter initial skirmish)))
                     (Client.opened (standing 0 0 100))) = 1
  /\ Client.localDeaths
       (Client.watch "ann" (received 1 (wire (run quarter one_letter initial skirmish)))
                     (Client.opened (standing 0 0 100))) = 0.
Proof.
  assert (H : get (clients (run quarter one_letter initial skirmish)) 1
              = Some {| name := "ann"; state := Some (standing 0 0 100);
                        kills := 1; deaths := 0; buffer := [] |}) by reflexivity.
  split; [exact H|].
  pose proof (local_counts_are_the_servers quarter one_letter skirmish 1 _ "ann"
                (standing 0 0 100) H) as W.
  cbv zeta in W. destruct W as (_ & Hk & Hd & _).
  split; [exact Hk|exact Hd].
Defined.

End MoreInstances.
